(** * XLSXImporter: a shallow embedding of the row pipeline

    The development follows [src/XSLXImporter.js].  The JavaScript class is
    embedded function by function, under the names the source gives them.

    Modelling choices, in one place:
    - JavaScript values that reach the importer (cell values, callback
      results, record identifiers) are the type [Value]; numbers are
      integers, floating point is not modelled.
    - A JavaScript object used as a row is an insertion-ordered association
      list ([JsObj]); [Object.keys] is the list of its keys.  The
      configuration dictionaries ([_mappings], [_transforms], [_validations],
      [_events]) are only ever looked up by key: they are finite maps.
    - Strings are strings of bytes and [_normalize] works on ASCII.  The
      lists and the maps are what the objects of the code are on plain names
      ([plain_key]): ASCII, not an array index (which an object lists
      first), not the name of a property every object inherits (which a
      lookup would find).  What is stated about the headers and the fields
      of rows says where it needs plain names.
    - Function bodies are computations over a [World] that end in one of the
      three JavaScript completions: normal, [return], or [throw].  What is
      thrown is any value ([Thrown]): an object, of which is kept whether
      [JSON.stringify] accepts it, or a primitive.
    - The platform services (the record table behind [GlideRecord], the Excel
      parser) are collaborators: the table is an interface ([RecordStore]),
      the parsed file a value ([File]).
    - Callbacks, validation methods and transform methods are closures the
      caller supplies: each reads and writes the state [S] of the world (the
      record table, and whatever the caller's functions share) and returns or
      throws.  A callback and a validation method are handed the row object
      itself: with their value they give the row as they leave it.  Two
      things are assumed of them: they do not keep the row object, or an
      object they threw, to change it after they returned, and they do not
      reconfigure the importer while it runs.
    - A log of what the run did (callbacks and methods called, queries and
      writes issued, stream opened and closed) is kept in the world, so that
      "was called", "was not called" and "before" can be stated.
    - [_trace] and [gs.warn] write to the system log only and are left out,
      but for the argument of the trace of line 177, whose evaluation can
      throw: [JSON.stringify] on the result of the row.  The trace of
      line 449 serialises the results that line 177 accepted one by one.
      [elapsed] is wall-clock time and is left out of [ImportResult].
    - The constructor reads the tables of the instance: a finite map from
      the name of a table to its columns, the name and the label of each
      field in the order of [Object.keys] on a record of the table.
    - The methods repository ([src/unnamed/part_001]) is embedded for the
      methods that work on strings and on the record table; the methods that
      need floating point or dates are left out. *)

From stdpp Require Import base option list strings gmap pretty.
From Stdlib Require Import Ascii String ZArith Lia.

Open Scope string_scope.
Open Scope list_scope.

(** ** JavaScript values *)

Inductive Value : Type :=
| VUndef
| VNull
| VBool (b : bool)
| VNum (n : Z)
| VStr (s : string).

#[global] Instance Value_eq_dec : EqDecision Value.
Proof. solve_decision. Defined.

(** [gs.nil(o)]: the platform test the source documents as
    "undefined, null or a empty string". *)
Definition gs_nil (v : Value) : bool :=
  match v with
  | VUndef | VNull => true
  | VStr s => if decide (s = "") then true else false
  | _ => false
  end.

(** JavaScript [ToBoolean]. *)
Definition truthy (v : Value) : bool :=
  match v with
  | VUndef | VNull => false
  | VBool b => b
  | VNum n => negb (Z.eqb n 0)
  | VStr s => if decide (s = "") then false else true
  end.

(** [a || b] on values. *)
Definition js_or (a b : Value) : Value := if truthy a then a else b.

(** An [Error] object. *)
Record Error : Type := mkError { e_name : string; e_message : string }.

#[global] Instance Error_eq_dec : EqDecision Error.
Proof. solve_decision. Defined.

(** What a [throw] carries: an object, or a primitive value.  Of an object
    the name and the message are kept, and whether [JSON.stringify] accepts
    it (it refuses an object that refers to itself). *)
Inductive Thrown : Type :=
| ThrownObject (e : Error) (serialisable : bool)
| ThrownValue (v : Value).

#[global] Instance Thrown_eq_dec : EqDecision Thrown.
Proof. solve_decision. Defined.

(** A fresh [Error] object, as [new Error(..)] and the engine make them. *)
Definition error_object (e : Error) : Thrown := ThrownObject e true.
Coercion error_object : Error >-> Thrown.

(** [ToBoolean] on what was thrown: an object is truthy. *)
Definition thrown_truthy (t : Thrown) : bool :=
  match t with
  | ThrownObject _ _ => true
  | ThrownValue v => truthy v
  end.

Definition type_error (what : string) : Error :=
  {| e_name := "TypeError"; e_message := what |}.

(** The result of calling a function that may throw. *)
Inductive Res (A : Type) : Type :=
| Ok (a : A)
| Raise (t : Thrown).
Arguments Ok {A} a.
Arguments Raise {A} t.

(** ** Objects as rows *)

Definition JsObj : Type := list (string * Value).

Fixpoint obj_lookup (k : string) (o : JsObj) : option Value :=
  match o with
  | [] => None
  | (k', v) :: o' => if decide (k' = k) then Some v else obj_lookup k o'
  end.

(** [o[k]]: a missing property reads as [undefined]. *)
Definition obj_get (k : string) (o : JsObj) : Value :=
  match obj_lookup k o with Some v => v | None => VUndef end.

(** [o[k] = v]: an existing property keeps its place, a new one (a plain
    name) goes last. *)
Fixpoint obj_set (k : string) (v : Value) (o : JsObj) : JsObj :=
  match o with
  | [] => [(k, v)]
  | (k', v') :: o' =>
      if decide (k' = k) then (k, v) :: o' else (k', v') :: obj_set k v o'
  end.

(** [Object.keys(o)]. *)
Definition obj_keys (o : JsObj) : list string := fst <$> o.

(** [a.indexOf(x) != -1] *)
Definition includes (x : string) (a : list string) : bool :=
  if decide (x ∈ a) then true else false.

(** ** Strings: [_normalize] (lines 477-491) *)

Definition is_whitespace (c : ascii) : bool :=
  let n := nat_of_ascii c in
  Nat.eqb n 9 || Nat.eqb n 10 || Nat.eqb n 11 || Nat.eqb n 12
  || Nat.eqb n 13 || Nat.eqb n 32.

Fixpoint trim_start (l : list ascii) : list ascii :=
  match l with
  | c :: l' => if is_whitespace c then trim_start l' else l
  | [] => []
  end.

Definition trim (l : list ascii) : list ascii :=
  rev (trim_start (rev (trim_start l))).

Definition to_lower_char (c : ascii) : ascii :=
  let n := nat_of_ascii c in
  if Nat.leb 65 n && Nat.leb n 90 then ascii_of_nat (n + 32) else c.

(** [/[\t\n\r]/gm] *)
Definition is_special (c : ascii) : bool :=
  let n := nat_of_ascii c in Nat.eqb n 9 || Nat.eqb n 10 || Nat.eqb n 13.

(** [replace(/\s+/gm, " ")]: [in_run] says the previous character was
    whitespace already replaced. *)
Fixpoint collapse_ws (in_run : bool) (l : list ascii) : list ascii :=
  match l with
  | [] => []
  | c :: l' =>
      if is_whitespace c
      then (if in_run then collapse_ws true l'
            else " "%char :: collapse_ws true l')
      else c :: collapse_ws false l'
  end.

Definition _normalize (value : string) : string :=
  let _value := trim (list_ascii_of_string value) in
  let _value := to_lower_char <$> _value in
  let _value := filter (fun c => is_special c = false) _value in
  let _value := collapse_ws false _value in
  string_of_list_ascii _value.

(** String conversion, as [+] applies it to a non-string operand. *)
Definition to_js_string (v : Value) : string :=
  match v with
  | VUndef => "undefined"
  | VNull => "null"
  | VBool true => "true"
  | VBool false => "false"
  | VNum n => pretty n
  | VStr s => s
  end.

(** ** Result codes and result objects (lines 6-21, 399-415) *)

Module STATES.
Inductive t : Type := SUCCESS | PARSING_ERROR | MISSING_REQUIRED_HEADER.

Definition value (c : t) : string :=
  match c with
  | SUCCESS => "success"
  | PARSING_ERROR => "parsing_error"
  | MISSING_REQUIRED_HEADER => "missing_required_header"
  end.
End STATES.

Module RCODES.
Inductive t : Type :=
  SUCCESS | SKIPPED_EMPTY | SKIPPED_EVENT | SKIPPED_VALIDATION | ERROR.

Definition value (c : t) : Z :=
  match c with
  | SUCCESS => 0
  | SKIPPED_EMPTY => 1
  | SKIPPED_EVENT => 2
  | SKIPPED_VALIDATION => 3
  | ERROR => 4
  end.
End RCODES.

#[global] Instance STATES_eq_dec : EqDecision STATES.t.
Proof. solve_decision. Defined.

#[global] Instance RCODES_eq_dec : EqDecision RCODES.t.
Proof. solve_decision. Defined.

(** [this.MESSAGES] (lines 51-56). *)
Definition MESSAGES (code : RCODES.t) : string :=
  match code with
  | RCODES.SUCCESS => "Record imported correctly"
  | RCODES.SKIPPED_EMPTY => "Record skipped because empty"
  | RCODES.SKIPPED_EVENT => "Record skipped after result of event: "
  | RCODES.SKIPPED_VALIDATION => "Record skipped after validation failed: "
  | RCODES.ERROR => "Record skipped due to unexpected error"
  end.

(** [this.ALLOWED_EVENTS] (line 46). *)
Definition ALLOWED_EVENTS : list string :=
  ["onCoalesce"; "onRowRead"; "onRowValidating"; "onRowValidated";
   "onRowTransformed"; "onRowImported"].

Record RowResult : Type := mkRowResult {
  rr_row : nat;
  rr_code : RCODES.t;
  rr_message : Value;
  rr_target : Value;
  rr_error : option Thrown
}.

Inductive ImportData : Type :=
| DNull
| DMissing (missing : list string)
| DRows (results : list RowResult).

Record ImportResult : Type := mkImportResult {
  ir_success : bool;
  ir_code : STATES.t;
  ir_message : string;
  ir_rows : nat;
  ir_data : ImportData
}.

(** [gs.nil] on an optional string argument. *)
Definition nil_info (info : option string) : bool :=
  match info with
  | None => true
  | Some s => gs_nil (VStr s)
  end.

(** [_createRowResult] (lines 521-559).  [info], [target] and [error] are
    the optional arguments; an omitted [info] or [error] is [None], an
    omitted [target] is [VUndef].  [error || null] (line 557) keeps a truthy
    [error] and is [null] otherwise. *)
Definition _createRowResult (index : nat) (code : RCODES.t)
    (info : option string) (target : Value) (error : option Thrown)
  : RowResult :=
  let isValidationFailed := bool_decide (RCODES.SKIPPED_VALIDATION = code) in
  let message :=
    if isValidationFailed
    then match info with Some s => VStr s | None => VUndef end
    else VStr (MESSAGES code) in
  let codeNeedAdditionalInfo := bool_decide (code ∈ [RCODES.SKIPPED_EVENT]) in
  let message :=
    if codeNeedAdditionalInfo && negb (nil_info info)
    then VStr (to_js_string message +:+ default "" info)
    else message in
  {| rr_row := index;
     rr_code := code;
     rr_message := message;
     rr_target := js_or target VNull;
     rr_error := match error with
                 | Some t => if thrown_truthy t then Some t else None
                 | None => None
                 end |}.

(** [JSON.stringify(obj)] on a row result (line 177): it throws a
    [TypeError] on an error object that cannot be serialised (the wording of
    the message is the engine's); the string it gives otherwise is only
    traced. *)
Definition stringify (obj : RowResult) : Res unit :=
  match rr_error obj with
  | Some (ThrownObject _ false) =>
      Raise (type_error "Converting circular structure to JSON")
  | _ => Ok tt
  end.

(** [_createReturnValue] (lines 422-452); [rows] is [None] when the caller
    omits it, [data] is [DNull] when omitted. *)
Definition _createReturnValue (code : STATES.t) (message : string)
    (data : ImportData) (rows : option nat) : ImportResult :=
  {| ir_success := bool_decide (code = STATES.SUCCESS);
     ir_code := code;
     ir_message := message;
     ir_rows := default 0 rows;
     ir_data := data |}.

(** ** Pure row helpers *)

(** [_normalizeRowHeaders] (lines 496-514). *)
Definition _normalizeRowHeaders (row : JsObj) : JsObj :=
  foldl (fun obj key => obj_set (_normalize key) (obj_get key row) obj)
        [] (obj_keys row).

(** [_isEmptyRow] (lines 656-665). *)
Definition _isEmptyRow (row : JsObj) : bool :=
  let hasValue := fun key => negb (gs_nil (obj_get key row)) in
  let kept := filter (fun key => hasValue key = true) (obj_keys row) in
  Nat.eqb (List.length kept) 0.

(** ** Completions and statements

    A statement runs on a world [W] and completes normally with a value,
    with [return r], or with [throw e]; the world it leaves is kept in each
    case. *)

Inductive Completion (R A : Type) : Type :=
| Normal (a : A)
| Return (r : R)
| Throw (t : Thrown).
Arguments Normal {R A} a.
Arguments Return {R A} r.
Arguments Throw {R A} t.

Definition Stmt (W R A : Type) : Type := W -> Completion R A * W.

Definition ret {W R A} (a : A) : Stmt W R A := fun w => (Normal a, w).

Definition bind {W R A B} (m : Stmt W R A) (k : A -> Stmt W R B)
  : Stmt W R B :=
  fun w =>
    match m w with
    | (Normal a, w') => k a w'
    | (Return r, w') => (Return r, w')
    | (Throw t, w') => (Throw t, w')
    end.

Definition return_ {W R A} (r : R) : Stmt W R A := fun w => (Return r, w).

Definition throw {W R A} (t : Thrown) : Stmt W R A := fun w => (Throw t, w).

(** Calling a function: the body's [return] is the call's value. *)
Definition call {W R A} (body : Stmt W A A) : Stmt W R A :=
  fun w =>
    match body w with
    | (Normal a, w') => (Normal a, w')
    | (Return a, w') => (Normal a, w')
    | (Throw t, w') => (Throw t, w')
    end.

(** [try { body } catch (ex) { handler ex }] *)
Definition try_catch {W R A} (body : Stmt W R A)
    (handler : Thrown -> Stmt W R A) : Stmt W R A :=
  fun w =>
    match body w with
    | (Throw t, w') => handler t w'
    | other => other
    end.

(** The value, or the exception, of a function that leaves the world as it
    is. *)
Definition eval {W R A} (r : Res A) : Stmt W R A :=
  match r with
  | Ok a => ret a
  | Raise t => throw t
  end.

Notation "x <- m ;; k" := (bind m (fun x => k))
  (at level 100, m at next level, right associativity).
Notation "m ;; k" := (bind m (fun _ => k))
  (at level 100, right associativity).

(** [if (b) s] *)
Definition when {W R} (b : bool) (s : Stmt W R unit) : Stmt W R unit :=
  if b then s else ret tt.

(** [for (i = 0; i < l.length; i++) body(l[i])]; [continue] is the body
    completing normally. *)
Fixpoint for_each {W R X} (l : list X) (body : X -> Stmt W R unit)
  : Stmt W R unit :=
  match l with
  | [] => ret tt
  | x :: l' => body x ;; for_each l' body
  end.

(** Loop with a local variable [acc] that each iteration may assign. *)
Fixpoint fold_each {W R X A} (l : list X) (acc : A)
    (body : A -> X -> Stmt W R A) : Stmt W R A :=
  match l with
  | [] => ret acc
  | x :: l' => acc' <- body acc x ;; fold_each l' acc' body
  end.

(** [fold_each] with the position of the element. *)
Fixpoint fold_each_i {W R X A} (i : nat) (l : list X) (acc : A)
    (body : nat -> A -> X -> Stmt W R A) : Stmt W R A :=
  match l with
  | [] => ret acc
  | x :: l' =>
      acc' <- body i acc x ;; fold_each_i (Datatypes.S i) l' acc' body
  end.

(** The completion that corresponds to a result. *)
Definition completion_of {R A} (x : Res A) : Completion R A :=
  match x with
  | Ok a => Normal a
  | Raise t => Throw t
  end.

(** ** Collaborators *)

(** The record table behind [GlideRecord], as the importer uses it:
    [addQuery]* then [query] and [next]/[getValue("sys_id")] (the identifiers
    of the matching records, in the table's order); [newRecord], [setValue]*,
    [update] (insert, giving the new identifier); [get(sys_id)], [setValue]*,
    [update]. *)
Class RecordStore (S : Type) : Type := {
  gr_query : list (string * Value) -> S -> list string;
  gr_insert : JsObj -> S -> Value * S;
  gr_update : string -> JsObj -> S -> Value * S
}.

(** What [GlideExcelParser] makes of an attachment: whether [parse]
    succeeds, [getErrorMessage()], [getColumnHeaders()], and the rows
    [next()]/[getRow()] deliver (a row whose read throws is a [Raise]). *)
Record File : Type := mkFile {
  f_parses : bool;
  f_error_message : string;
  f_headers : list string;
  f_rows : list (Res JsObj)
}.

(** The [data] object handed to a callback (lines 803-807). *)
Record Payload : Type := mkPayload {
  p_row : option JsObj;
  p_index : option nat;
  p_sys_id : option Value
}.

(** What the run did, most recent first. *)
Inductive Event : Type :=
| EvOpen
| EvClose
| EvCallback (event : string) (data : Payload)
| EvValidate (field : string) (j : nat)
| EvTransform (field : string) (j : nat)
| EvQuery (conditions : list (string * Value))
| EvInsert (data : JsObj)
| EvUpdate (sys_id : string) (data : JsObj).

(** The object [_validateRowValues] returns on failure. *)
Record ValidationFailure : Type := mkFailure {
  vf_message : string;
  vf_field : string
}.

(** The object [_validateHeaders] returns. *)
Record HeaderCheck : Type := mkHeaderCheck {
  hc_success : bool;
  hc_missing : list string
}.

Section Importer.

Context {S : Type} `{RecordStore S}.

Record World : Type := mkWorld {
  store : S;
  stream_open : bool;
  log : list Event
}.

(** The functions the caller supplies are closures: besides their
    arguments they read and write the state [S] (the record table, and
    whatever the caller's functions share), and they return or throw.

    A callback registered for an event gets the [data] object.  [data.row]
    is the row object itself (line 805), so with its value the callback gives
    the row as it leaves it; for a [data] without row that part is unused. *)
Local Abbreviation Callback :=
  (Payload -> S -> Res (Value * JsObj) * S) (only parsing).

(** A transform method gets the cell value. *)
Local Abbreviation Transform := (Value -> S -> Res Value * S) (only parsing).

(** A validation method gets the row object and the field: with its value
    it gives the row as it leaves it. *)
Record Validation : Type := mkValidation {
  v_method : JsObj -> string -> S -> Res (Value * JsObj) * S;
  v_message : string
}.

(** The instance fields (lines 58-115).  [table_fields] stands for what
    [this._fields()] returns for the target table. *)
Record Importer : Type := mkImporter {
  table : string;
  table_fields : list string;
  _debug : bool;
  _virtual : bool;
  _sloppy : bool;
  _mappings : gmap string string;
  _transforms : gmap string (list Transform);
  _validations : gmap string (list Validation);
  _coalescing : list string;
  _ignored : list string;
  _required : list string;
  _events : gmap string Callback
}.

(** ** World primitives *)

Definition get_store {R} : Stmt World R S := fun w => (Normal (store w), w).

Definition emit {R} (ev : Event) : Stmt World R unit :=
  fun w => (Normal tt,
            {| store := store w; stream_open := stream_open w;
               log := ev :: log w |}).

(** Calling a function the caller supplied, in the state as it is. *)
Definition call_user {R A} (f : S -> Res A * S) : Stmt World R A :=
  fun w =>
    (completion_of (fst (f (store w))),
     {| store := snd (f (store w)); stream_open := stream_open w;
        log := log w |}).

(** [attachment.getContentStream(..)] (line 143) *)
Definition getContentStream {R} : Stmt World R unit :=
  fun w => (Normal tt,
            {| store := store w; stream_open := true;
               log := EvOpen :: log w |}).

(** [parser.close()] (line 187) *)
Definition parser_close {R} : Stmt World R unit :=
  fun w => (Normal tt,
            {| store := store w; stream_open := false;
               log := EvClose :: log w |}).

(** [newRecord(); setValue..; update()] *)
Definition record_insert {R} (data : JsObj) : Stmt World R Value :=
  fun w =>
    let '(id, s') := gr_insert data (store w) in
    (Normal id,
     {| store := s'; stream_open := stream_open w;
        log := EvInsert data :: log w |}).

(** [get(sys_id); setValue..; update()] *)
Definition record_update {R} (sys_id : string) (data : JsObj)
  : Stmt World R Value :=
  fun w =>
    let '(id, s') := gr_update sys_id data (store w) in
    (Normal id,
     {| store := s'; stream_open := stream_open w;
        log := EvUpdate sys_id data :: log w |}).

(** ** Private methods *)

(** [_triggerEvent] (lines 793-811): the value of the callback, and the row
    object as the callback leaves it. *)
Definition _triggerEvent {R} (this : Importer) (event : string)
    (row : option JsObj) (index : option nat) (sys_id : Value)
  : Stmt World R (Value * option JsObj) :=
  call (
    let _event := _normalize event in
    match _events this !! _event with
    | None => return_ (VNull, row)
    | Some f =>
        let data :=
          {| p_row := row;
             p_index := index;
             p_sys_id := if gs_nil sys_id then None else Some sys_id |} in
        emit (EvCallback _event data) ;;
        reply <- call_user (f data) ;;
        return_ (fst reply, option_map (fun _ => snd reply) row)
    end).

(** The test [!gs.nil(valid) && !valid] that follows each row event. *)
Definition vetoes (valid : Value) : bool :=
  negb (gs_nil valid) && negb (truthy valid).

(** [_ignoreRowHeaders] (lines 894-916). *)
Definition _ignoreRowHeaders (this : Importer) (row : JsObj) : JsObj :=
  foldl (fun data header =>
           if includes header (_ignored this) then data
           else obj_set header (obj_get header row) data)
        [] (obj_keys row).

(** [_mapHeadersToFields] (lines 671-701). *)
Definition _mapHeadersToFields (this : Importer) (row : JsObj) : JsObj :=
  foldl (fun data header =>
           match _mappings this !! _normalize header with
           | None => data
           | Some field =>
               if negb (truthy (VStr field)) then data
               else obj_set field (obj_get header row) data
           end)
        [] (obj_keys row).

(** [_transformRowValues] (lines 708-745). *)
Definition _transformRowValues {R} (this : Importer) (row : JsObj)
  : Stmt World R JsObj :=
  call (
    data <- fold_each (obj_keys row) ([] : JsObj) (fun data field =>
      let value := obj_get field row in
      value <-
        match _transforms this !! field with
        | None => ret value
        | Some transformations =>
            context <-
              fold_each transformations (0, value) (fun '(j, value) f =>
                emit (EvTransform field j) ;;
                value' <- call_user (f value) ;;
                ret (Datatypes.S j, value')) ;;
            ret (snd context)
        end ;;
      ret (obj_set field value data)) ;;
    return_ data).

(** [_validateRowValues] (lines 754-788): what it returns, and the row
    object as the validation methods leave it.  The fields are those the row
    has when validation starts (line 756). *)
Definition _validateRowValues {R} (this : Importer) (row : JsObj)
  : Stmt World R (option ValidationFailure * JsObj) :=
  call (
    row <- fold_each (obj_keys row) row (fun row field =>
      match _validations this !! field with
      | None => ret row
      | Some farray =>
          fold_each_i 0 farray row (fun j row entry =>
            emit (EvValidate field j) ;;
            reply <- call_user (v_method entry row field) ;;
            when (negb (truthy (fst reply)))
              (return_ (Some {| vf_message := v_message entry;
                                vf_field := field |}, snd reply)) ;;
            ret (snd reply))
      end) ;;
    return_ (None, row)).

(** The conditions [addQuery] collects (lines 858-870). *)
Definition coalescence_conditions (this : Importer) (data : JsObj)
  : list (string * Value) :=
  foldl (fun conditions field =>
           if gs_nil (obj_get field data) then conditions
           else conditions ++ [(field, obj_get field data)])
        [] (_coalescing this).

(** [_getCoalescenceRecord] (lines 850-889). *)
Definition _getCoalescenceRecord {R} (this : Importer) (data : JsObj)
  : Stmt World R Value :=
  call (
    when (Nat.eqb (List.length (_coalescing this)) 0) (return_ VNull) ;;
    let conditions := coalescence_conditions this data in
    s <- get_store ;;
    emit (EvQuery conditions) ;;
    for_each (gr_query conditions s) (fun sys_id =>
      reply <- _triggerEvent this "onCoalesce" None None (VStr sys_id) ;;
      let valid := fst reply in
      when (gs_nil valid || truthy valid) (return_ (VStr sys_id))) ;;
    return_ VNull).

(** [_createUpdateRecord] (lines 819-842). *)
Definition _createUpdateRecord {R} (this : Importer) (data : JsObj)
  : Stmt World R Value :=
  call (
    sys_id <- _getCoalescenceRecord this data ;;
    id <- (if gs_nil sys_id then record_insert data
           else record_update (to_js_string sys_id) data) ;;
    return_ id).

(** The two statements that follow each stage of [_parseRow]
    (lines 604-605, 616-617, 624-625, 632-633, 641-642): trigger the event,
    return the skipped result when the callback's value is not nil and is
    falsy.  Completes normally with the row as the callback leaves it. *)
Definition row_event (this : Importer) (event : string) (row : JsObj)
    (index : nat) (sys_id : Value) : Stmt World RowResult JsObj :=
  reply <- _triggerEvent this event (Some row) (Some index) sys_id ;;
  when (vetoes (fst reply))
    (return_ (_createRowResult index RCODES.SKIPPED_EVENT
                (Some event) VUndef None)) ;;
  ret (default row (snd reply)).

(** [_parseRow], lines 628-633: the transformations and the
    [onRowTransformed] event.  Like the three definitions that follow, it
    completes normally with the row to persist, or returns the row's
    result. *)
Definition _parseRow_transform (this : Importer) (index : nat) (row : JsObj)
  : Stmt World RowResult JsObj :=
  row <- _transformRowValues this row ;;
  row_event this "onRowTransformed" row index VUndef.

(** [_parseRow], lines 620-633: from the validation of the row on. *)
Definition _parseRow_validate (this : Importer) (index : nat) (row : JsObj)
  : Stmt World RowResult JsObj :=
  result <- _validateRowValues this row ;;
  match fst result with
  | Some failure =>
      return_ (_createRowResult index RCODES.SKIPPED_VALIDATION
                 (Some (vf_message failure)) (VStr (vf_field failure)) None)
  | None => ret tt
  end ;;
  row <- row_event this "onRowValidated" (snd result) index VUndef ;;
  _parseRow_transform this index row.

(** [_parseRow], lines 613-633: from the test of the sloppy mode on, on the
    mapped row. *)
Definition _parseRow_mapped (this : Importer) (index : nat) (row : JsObj)
  : Stmt World RowResult JsObj :=
  if negb (_sloppy this) then
    row <- row_event this "onRowValidating" row index VUndef ;;
    _parseRow_validate this index row
  else _parseRow_transform this index row.

(** [_parseRow], lines 603-633: what a row that is not empty goes through,
    from the [onRowRead] event to the [onRowTransformed] event. *)
Definition _parseRow_process (this : Importer) (row : JsObj) (index : nat)
  : Stmt World RowResult JsObj :=
  row <- row_event this "onRowRead" row index VUndef ;;
  let row := _ignoreRowHeaders this row in
  let row := _mapHeadersToFields this row in
  _parseRow_mapped this index row.

(** [_parseRow], lines 598-633: read the row, return at once when it is
    empty, process it otherwise. *)
Definition _parseRow_prepare (this : Importer) (parser_getRow : Res JsObj)
    (index : nat) : Stmt World RowResult JsObj :=
  raw <- eval parser_getRow ;;
  let row := _normalizeRowHeaders raw in
  when (_isEmptyRow row)
    (return_ (_createRowResult index RCODES.SKIPPED_EMPTY None VUndef None)) ;;
  _parseRow_process this row index.

(** [_parseRow], lines 636-646: persistence, [onRowImported], and the
    successful result.  [sys_id] is the function-scoped variable, [undefined]
    until assigned. *)
Definition _parseRow_persist (this : Importer) (index : nat) (row : JsObj)
  : Stmt World RowResult RowResult :=
  sys_id <-
    (if negb (_virtual this) then
       sys_id <- _createUpdateRecord this row ;;
       row_event this "onRowImported" row index sys_id ;;
       ret sys_id
     else ret VUndef) ;;
  return_ (_createRowResult index RCODES.SUCCESS None
             (if _virtual this then VNull else sys_id) None).

(** The [try] block of [_parseRow]. *)
Definition _parseRow_body (this : Importer) (parser_getRow : Res JsObj)
    (index : nat) : Stmt World RowResult RowResult :=
  row <- _parseRow_prepare this parser_getRow index ;;
  _parseRow_persist this index row.

(** The [try] and [catch] of [_parseRow] (lines 589 and 647-650) around the
    statements [body]. *)
Definition _parseRow_catch {R} (index : nat)
    (body : Stmt World RowResult RowResult) : Stmt World R RowResult :=
  call (
    try_catch body
      (fun ex =>
         return_ (_createRowResult index RCODES.ERROR None VNull (Some ex)))).

(** [_parseRow] (lines 588-651). *)
Definition _parseRow {R} (this : Importer) (parser_getRow : Res JsObj)
    (index : nat) : Stmt World R RowResult :=
  _parseRow_catch index (_parseRow_body this parser_getRow index).

(** [_validateHeaders] (lines 921-955). *)
Definition _validateHeaders (this : Importer) (headers : list string)
  : HeaderCheck :=
  let _headers := _normalize <$> headers in
  foldl (fun result required =>
           let missing := negb (includes required _headers) in
           if negb missing then result
           else {| hc_success := false;
                   hc_missing := hc_missing result ++ [required] |})
        {| hc_success := true; hc_missing := [] |} (_required this).

(** ** Public methods *)

(** The [while (parser.next())] loop of [import] (lines 166-184).  The
    argument of [_trace] at line 177 is evaluated whether or not the trace is
    written: [JSON.stringify(obj)] may throw. *)
Fixpoint import_rows {R} (this : Importer) (rows : list (Res JsObj))
    (index : nat) (results : list RowResult)
  : Stmt World R (list RowResult) :=
  match rows with
  | [] => ret results
  | parser_getRow :: rows' =>
      obj <- _parseRow this parser_getRow index ;;
      eval (stringify obj) ;;
      import_rows this rows' (Datatypes.S index) (results ++ [obj])
  end.

(** [import] (lines 131-192). *)
Definition import {R} (this : Importer) (file : File)
  : Stmt World R ImportResult :=
  call (
    getContentStream ;;
    let success := f_parses file in
    when (negb success)
      (return_ (_createReturnValue STATES.PARSING_ERROR
                  (f_error_message file) DNull None)) ;;
    when (negb (_sloppy this)) (
      let result := _validateHeaders this (f_headers file) in
      when (negb (hc_success result))
        (return_ (_createReturnValue STATES.MISSING_REQUIRED_HEADER
                    "One or more required headers are missing"
                    (DMissing (hc_missing result)) None))) ;;
    results <- import_rows this (f_rows file) 2 [] ;;
    parser_close ;;
    return_ (_createReturnValue STATES.SUCCESS "Import completed successfully"
               (DRows results) (Some (List.length results)))).

(** ** Assignments to the instance fields *)

Definition set_debug (x : bool) (this : Importer) : Importer :=
  {| table := table this;
     table_fields := table_fields this;
     _debug := x;
     _virtual := _virtual this;
     _sloppy := _sloppy this;
     _mappings := _mappings this;
     _transforms := _transforms this;
     _validations := _validations this;
     _coalescing := _coalescing this;
     _ignored := _ignored this;
     _required := _required this;
     _events := _events this |}.

Definition set_virtual (x : bool) (this : Importer) : Importer :=
  {| table := table this;
     table_fields := table_fields this;
     _debug := _debug this;
     _virtual := x;
     _sloppy := _sloppy this;
     _mappings := _mappings this;
     _transforms := _transforms this;
     _validations := _validations this;
     _coalescing := _coalescing this;
     _ignored := _ignored this;
     _required := _required this;
     _events := _events this |}.

Definition set_sloppy (x : bool) (this : Importer) : Importer :=
  {| table := table this;
     table_fields := table_fields this;
     _debug := _debug this;
     _virtual := _virtual this;
     _sloppy := x;
     _mappings := _mappings this;
     _transforms := _transforms this;
     _validations := _validations this;
     _coalescing := _coalescing this;
     _ignored := _ignored this;
     _required := _required this;
     _events := _events this |}.

Definition set_mappings (x : gmap string string) (this : Importer) : Importer :=
  {| table := table this;
     table_fields := table_fields this;
     _debug := _debug this;
     _virtual := _virtual this;
     _sloppy := _sloppy this;
     _mappings := x;
     _transforms := _transforms this;
     _validations := _validations this;
     _coalescing := _coalescing this;
     _ignored := _ignored this;
     _required := _required this;
     _events := _events this |}.

Definition set_transforms (x : gmap string (list Transform))
    (this : Importer) : Importer :=
  {| table := table this;
     table_fields := table_fields this;
     _debug := _debug this;
     _virtual := _virtual this;
     _sloppy := _sloppy this;
     _mappings := _mappings this;
     _transforms := x;
     _validations := _validations this;
     _coalescing := _coalescing this;
     _ignored := _ignored this;
     _required := _required this;
     _events := _events this |}.

Definition set_validations (x : gmap string (list Validation))
    (this : Importer) : Importer :=
  {| table := table this;
     table_fields := table_fields this;
     _debug := _debug this;
     _virtual := _virtual this;
     _sloppy := _sloppy this;
     _mappings := _mappings this;
     _transforms := _transforms this;
     _validations := x;
     _coalescing := _coalescing this;
     _ignored := _ignored this;
     _required := _required this;
     _events := _events this |}.

Definition set_coalescing (x : list string) (this : Importer) : Importer :=
  {| table := table this;
     table_fields := table_fields this;
     _debug := _debug this;
     _virtual := _virtual this;
     _sloppy := _sloppy this;
     _mappings := _mappings this;
     _transforms := _transforms this;
     _validations := _validations this;
     _coalescing := x;
     _ignored := _ignored this;
     _required := _required this;
     _events := _events this |}.

Definition set_ignored (x : list string) (this : Importer) : Importer :=
  {| table := table this;
     table_fields := table_fields this;
     _debug := _debug this;
     _virtual := _virtual this;
     _sloppy := _sloppy this;
     _mappings := _mappings this;
     _transforms := _transforms this;
     _validations := _validations this;
     _coalescing := _coalescing this;
     _ignored := x;
     _required := _required this;
     _events := _events this |}.

Definition set_required (x : list string) (this : Importer) : Importer :=
  {| table := table this;
     table_fields := table_fields this;
     _debug := _debug this;
     _virtual := _virtual this;
     _sloppy := _sloppy this;
     _mappings := _mappings this;
     _transforms := _transforms this;
     _validations := _validations this;
     _coalescing := _coalescing this;
     _ignored := _ignored this;
     _required := x;
     _events := _events this |}.

Definition set_events (x : gmap string Callback) (this : Importer) : Importer :=
  {| table := table this;
     table_fields := table_fields this;
     _debug := _debug this;
     _virtual := _virtual this;
     _sloppy := _sloppy this;
     _mappings := _mappings this;
     _transforms := _transforms this;
     _validations := _validations this;
     _coalescing := _coalescing this;
     _ignored := _ignored this;
     _required := _required this;
     _events := x |}.

(** The row [_parseRow] validates and transforms: headers normalized,
    ignored headers removed, headers mapped to fields. *)
Definition mapped_row (this : Importer) (raw : JsObj) : JsObj :=
  _mapHeadersToFields this
    (_ignoreRowHeaders this (_normalizeRowHeaders raw)).

(** The validation methods [_validateRowValues] would call on [row] if none
    failed, in the order of its two loops: field, position, entry. *)
Definition validation_schedule (this : Importer) (row : JsObj)
  : list (string * nat * Validation) :=
  List.concat ((fun field =>
             match _validations this !! field with
             | None => []
             | Some farray => imap (fun j entry => (field, j, entry)) farray
             end) <$> obj_keys row).

(** The body of the inner loop of [_validateRowValues] (lines 770-784), on
    one entry of the schedule. *)
Definition validate_entry (row : JsObj)
    (scheduled : string * nat * Validation)
  : Stmt World (option ValidationFailure * JsObj) JsObj :=
  let '(field, j, entry) := scheduled in
  emit (EvValidate field j) ;;
  reply <- call_user (v_method entry row field) ;;
  when (negb (truthy (fst reply)))
    (return_ (Some {| vf_message := v_message entry; vf_field := field |},
              snd reply)) ;;
  ret (snd reply).

(** What the log records when a scheduled validation is called. *)
Definition validation_event (scheduled : string * nat * Validation) : Event :=
  EvValidate (fst (fst scheduled)) (snd (fst scheduled)).

(** [this.f = x] inside a method: the world of a configuration method is
    the importer itself. *)
Definition assign {R} (g : Importer -> Importer) : Stmt Importer R unit :=
  fun this => (Normal tt, g this).

Definition get_this {R} : Stmt Importer R Importer :=
  fun this => (Normal this, this).

Definition toLowerCase (s : string) : string :=
  string_of_list_ascii (to_lower_char <$> list_ascii_of_string s).

Definition invalid_parameter (what : string) : Error :=
  {| e_name := "Error"; e_message := "Invalid parameter: " +:+ what |}.

(** Reading the undeclared variable [_field] (lines 321 and 339). *)
Definition undeclared_field : Error :=
  {| e_name := "ReferenceError"; e_message := "_field is not defined" |}.

(** [callback] (lines 275-290). *)
Definition callback {R} (event : string) (f : Callback)
  : Stmt Importer R unit :=
  call (
    when (gs_nil (VStr event))
      (throw (invalid_parameter
                "the 'event' parameter is empty or not a string")) ;;
    this <- get_this ;;
    let allowed := toLowerCase <$> ALLOWED_EVENTS in
    let _event := _normalize event in
    when (negb (includes _event allowed))
      (throw (invalid_parameter
                ("no event allowed with name '" +:+ event +:+ "'"))) ;;
    assign (set_events (<[_event := f]> (_events this))) ;;
    return_ tt).

(** The check shared by [map], [transform], [validate] and [coalesce]:
    the field must be one of [this._fields()]. *)
Definition unknown_field (this : Importer) (_field : string) : Error :=
  invalid_parameter ("no field with name '" +:+ _field
                     +:+ "' exists on the table '" +:+ table this +:+ "'").

(** [transform] (lines 221-236). *)
Definition transform {R} (field : string) (f : Transform)
  : Stmt Importer R unit :=
  call (
    when (gs_nil (VStr field))
      (throw (invalid_parameter
                "the 'field' parameter is empty or not a string")) ;;
    this <- get_this ;;
    let _field := _normalize field in
    when (negb (includes _field (table_fields this)))
      (throw (unknown_field this _field)) ;;
    let pipeline := default [] (_transforms this !! _field) in
    assign (set_transforms
              (<[_field := pipeline ++ [f]]> (_transforms this))) ;;
    return_ tt).

(** [validate] (lines 245-267). *)
Definition validate {R} (field : string)
    (f : JsObj -> string -> S -> Res (Value * JsObj) * S) (message : string)
  : Stmt Importer R unit :=
  call (
    when (gs_nil (VStr field))
      (throw (invalid_parameter
                "the 'field' parameter is empty or not a string")) ;;
    when (gs_nil (VStr message))
      (throw (invalid_parameter
                "the 'message' parameter is empty or not a string")) ;;
    this <- get_this ;;
    let _field := _normalize field in
    when (negb (includes _field (table_fields this)))
      (throw (unknown_field this _field)) ;;
    let pipeline := default [] (_validations this !! _field) in
    let obj := {| v_method := f; v_message := message |} in
    assign (set_validations
              (<[_field := pipeline ++ [obj]]> (_validations this))) ;;
    return_ tt).

(** [coalesce] (lines 297-308). *)
Definition coalesce {R} (field : string) : Stmt Importer R unit :=
  call (
    when (gs_nil (VStr field))
      (throw (invalid_parameter
                "the 'field' parameter is empty or not a string")) ;;
    this <- get_this ;;
    let _field := _normalize field in
    when (negb (includes _field (table_fields this)))
      (throw (unknown_field this _field)) ;;
    assign (set_coalescing (_coalescing this ++ [_field])) ;;
    return_ tt).

(** [ignore] (lines 315-326). *)
Definition ignore {R} (header : string) : Stmt Importer R unit :=
  call (
    when (gs_nil (VStr header))
      (throw (invalid_parameter
                "the 'header' parameter is empty or not a string")) ;;
    this <- get_this ;;
    let _header := _normalize header in
    when (includes _header (_required this)) (throw undeclared_field) ;;
    when (negb (includes _header (_ignored this)))
      (assign (set_ignored (_ignored this ++ [_header]))) ;;
    return_ tt).

(** [require] (lines 333-344). *)
Definition require {R} (header : string) : Stmt Importer R unit :=
  call (
    when (gs_nil (VStr header))
      (throw (invalid_parameter
                "the 'header' parameter is empty or not a string")) ;;
    this <- get_this ;;
    let _header := _normalize header in
    when (includes _header (_ignored this)) (throw undeclared_field) ;;
    when (negb (includes _header (_required this)))
      (assign (set_required (_required this ++ [_header]))) ;;
    return_ tt).

(** [debug] (lines 353-360), [virtual] (lines 369-376) and [sloppy]
    (lines 385-392), on a boolean. *)
Definition debug {R} (active : bool) : Stmt Importer R unit :=
  call (assign (set_debug active) ;; return_ tt).

Definition virtual {R} (active : bool) : Stmt Importer R unit :=
  call (assign (set_virtual active) ;; return_ tt).

Definition sloppy {R} (active : bool) : Stmt Importer R unit :=
  call (assign (set_sloppy active) ;; return_ tt).

(** [map] (lines 200-213). *)
Definition map {R} (header field : string) : Stmt Importer R unit :=
  call (
    when (gs_nil (VStr header))
      (throw (invalid_parameter
                "the 'header' parameter is empty or not a string")) ;;
    when (gs_nil (VStr field))
      (throw (invalid_parameter
                "the 'field' parameter is empty or not a string")) ;;
    this <- get_this ;;
    let _field := _normalize field in
    when (negb (includes _field (table_fields this)))
      (throw (unknown_field this _field)) ;;
    let _header := _normalize header in
    assign (set_mappings (<[_header := _field]> (_mappings this))) ;;
    return_ tt).

(** The instance right after the field assignments of [initialize]
    (lines 58-115), before any mapping is defined. *)
Definition blank (table : string) (fields : list string) : Importer :=
  {| table := toLowerCase table;
     table_fields := fields;
     _debug := false;
     _virtual := false;
     _sloppy := false;
     _mappings := ∅;
     _transforms := ∅;
     _validations := ∅;
     _coalescing := [];
     _ignored := [];
     _required := [];
     _events := ∅ |}.

End Importer.

Arguments World S : clear implicits.
Arguments Importer S : clear implicits.
Arguments Validation S : clear implicits.

Abbreviation Callback S :=
  (Payload -> S -> Res (Value * JsObj) * S) (only parsing).

Abbreviation Transform S := (Value -> S -> Res Value * S) (only parsing).

(** ** Functions that leave everything as it is

    A function that only reads: it leaves the state, and the row it is
    handed, as they are. *)

Definition reading_callback {S : Type} (f : Payload -> S -> Res Value)
  : Callback S :=
  fun data s =>
    (match f data s with
     | Ok v => Ok (v, default [] (p_row data))
     | Raise t => Raise t
     end, s).

Definition reading_validation {S : Type}
    (f : JsObj -> string -> S -> Res Value)
  : JsObj -> string -> S -> Res (Value * JsObj) * S :=
  fun row field s =>
    (match f row field s with
     | Ok v => Ok (v, row)
     | Raise t => Raise t
     end, s).

Definition reading_transform {S : Type} (f : Value -> Res Value)
  : Transform S :=
  fun value s => (f value, s).

(** ** The constructor *)

(** [s.startsWith(prefix)] *)
Definition startsWith (s prefix : string) : bool := String.prefix prefix s.

(** [record.getElement(field).getLabel()], over the columns of the table:
    the name and the label of each field, in the order of
    [Object.keys(record)]. *)
Fixpoint label_of (columns : list (string * string)) (field : string)
  : string :=
  match columns with
  | [] => ""
  | (name, label) :: columns' =>
      if decide (name = field) then label else label_of columns' field
  end.

(** [_fields] (lines 459-472). *)
Definition _fields (columns : list (string * string)) : list string :=
  let fields := fst <$> columns in
  let isNotSystemField := fun field => negb (startsWith field "sys_") in
  filter (fun field => isNotSystemField field = true) fields.

Section Constructor.

Context {S : Type} `{RecordStore S}.

(** [_mapLabelWithName] (lines 564-583). *)
Definition _mapLabelWithName {R} (columns : list (string * string))
  : Stmt (Importer S) R unit :=
  call (
    this <- get_this ;;
    let fields := table_fields this in
    for_each fields (fun field =>
      map (label_of columns field) field) ;;
    return_ tt).

(** [initialize] (lines 35-121), over the tables of the instance:
    [gs.tableExists] is the presence of the name, and the new importer has
    the field assignments of lines 58-115 and then the default mapping. *)
Definition initialize (tables : gmap string (list (string * string)))
    (table : string) : Res (Importer S) :=
  if gs_nil (VStr table)
  then Raise (invalid_parameter
                "the 'table' parameter is empty or not a string")
  else
    let _table := toLowerCase table in
    match tables !! _table with
    | None =>
        Raise (invalid_parameter
                 ("no table with name '" +:+ _table
                  +:+ "' exists in the database"))
    | Some columns =>
        match _mapLabelWithName (R := unit) columns
                (blank table (_fields columns)) with
        | (Throw e, _) => Raise e
        | (_, this) => Ok this
        end
    end.

End Constructor.

(** ** The methods repository (second source file) *)

Definition to_upper_char (c : ascii) : ascii :=
  let n := nat_of_ascii c in
  if Nat.leb 97 n && Nat.leb n 122 then ascii_of_nat (n - 32) else c.

(** [TRANSFORMS.STRING_TO_BOOLEAN]: [value.trim()] throws on anything but a
    string. *)
Definition STRING_TO_BOOLEAN (value : Value) : Res Value :=
  match value with
  | VStr s =>
      let _value :=
        string_of_list_ascii
          (to_upper_char <$> trim (list_ascii_of_string s)) in
      let positive := ["YES"; "Y"; "TRUE"; "1"] in
      Ok (VBool (includes _value positive))
  | VUndef | VNull => Raise (type_error "Cannot call method trim of null")
  | _ => Raise (type_error "value.trim is not a function")
  end.

(** [VALIDATIONS.IS_NOT_EMPTY] *)
Definition IS_NOT_EMPTY {S : Type} (row : JsObj) (field : string) (_ : S)
  : Res Value :=
  let value := obj_get field row in
  let isEmpty := gs_nil value in
  Ok (VBool (negb isEmpty)).

(** [VALIDATIONS.RECORD_EXISTS], bound to a context whose [table] is the
    importer's own table: [grRecord.get(context.field, value)] finds a record
    or not. *)
Definition RECORD_EXISTS {S : Type} `{RecordStore S}
    (context_field : string) (context_allowEmpty : bool)
    (row : JsObj) (field : string) (s : S) : Res Value :=
  let value := obj_get field row in
  if gs_nil value then Ok (VBool context_allowEmpty)
  else
    let exists_ :=
      negb (Nat.eqb (List.length (gr_query [(context_field, value)] s)) 0) in
    Ok (VBool exists_).

(** [s.toUpperCase()] *)
Definition toUpperCase (s : string) : string :=
  string_of_list_ascii (to_upper_char <$> list_ascii_of_string s).

(** [VALIDATIONS.IS_BOOLEAN] (lines 96-102): [value.toUpperCase()] throws
    on a number or a boolean that [||] lets through. *)
Definition IS_BOOLEAN {S : Type} (row : JsObj) (field : string) (_ : S)
  : Res Value :=
  let value := js_or (obj_get field row) (VStr "") in
  let allowed := ["YES"; "Y"; "TRUE"; "1"; "NO"; "N"; "FALSE"; "0"] in
  match value with
  | VStr s => Ok (VBool (includes (toUpperCase s) allowed))
  | _ => Raise (type_error "value.toUpperCase is not a function")
  end.

Definition is_dot (c : ascii) : bool := Ascii.eqb c ".".

(** [_value.replace(/\.(?=[^.]*$)/, ",")]: the first dot that no dot
    follows becomes a comma. *)
Fixpoint replace_last_dot (l : list ascii) : list ascii :=
  match l with
  | [] => []
  | c :: rest =>
      if is_dot c && forallb (fun c' => negb (is_dot c')) rest
      then "," % char :: rest
      else c :: replace_last_dot rest
  end.

(** [_value.replaceAll(".", "")] *)
Definition remove_dots (l : list ascii) : list ascii :=
  filter (fun c => is_dot c = false) l.

(** [TRANSFORMS.STRING_TO_EXCEL_NUMBER] (lines 43-58): [value.trim()]
    throws on a value that is neither nil nor a string. *)
Definition STRING_TO_EXCEL_NUMBER (value : Value) : Res Value :=
  let trimmed_value :=
    if gs_nil value then Ok []
    else match value with
         | VStr s => Ok (trim (list_ascii_of_string s))
         | _ => Raise (type_error "value.trim is not a function")
         end in
  match trimmed_value with
  | Raise e => Raise e
  | Ok _value =>
      let _value := replace_last_dot _value in
      let _value := remove_dots _value in
      Ok (VStr (string_of_list_ascii _value))
  end.

(** ** A reference record table

    Records in insertion order, identifiers drawn from a counter. *)

Record Table : Type := mkTable {
  records : list (string * JsObj);
  next_id : nat
}.

Definition matches (conditions : list (string * Value)) (record : JsObj)
  : bool :=
  forallb (fun c => bool_decide (obj_get (fst c) record = snd c)) conditions.

Definition table_query (conditions : list (string * Value)) (t : Table)
  : list string :=
  fst <$> filter (fun r => matches conditions (snd r) = true) (records t).

Definition table_insert (data : JsObj) (t : Table) : Value * Table :=
  let id := "rec" +:+ pretty (next_id t) in
  (VStr id,
   {| records := records t ++ [(id, data)];
      next_id := Datatypes.S (next_id t) |}).

Definition write_fields (data record : JsObj) : JsObj :=
  foldl (fun r kv => obj_set (fst kv) (snd kv) r) record data.

Definition table_update (sys_id : string) (data : JsObj) (t : Table)
  : Value * Table :=
  (VStr sys_id,
   {| records :=
        (fun r => if decide (fst r = sys_id)
                  then (fst r, write_fields data (snd r)) else r)
          <$> records t;
      next_id := next_id t |}).

#[global] Instance Table_store : RecordStore Table := {
  gr_query := table_query;
  gr_insert := table_insert;
  gr_update := table_update
}.

(** The record table, and a counter the caller's functions share. *)
Record Counted : Type := mkCounted {
  counted_table : Table;
  counter : nat
}.

Definition on_table (f : Table -> Value * Table) (s : Counted)
  : Value * Counted :=
  (fst (f (counted_table s)),
   {| counted_table := snd (f (counted_table s)); counter := counter s |}).

#[global] Instance Counted_store : RecordStore Counted := {
  gr_query := fun conditions s => table_query conditions (counted_table s);
  gr_insert := fun data => on_table (table_insert data);
  gr_update := fun sys_id data => on_table (table_update sys_id data)
}.

(** ** Specifications of statements *)

Section Specifications.

Context {W R A : Type}.

(** [triple F m Q P E]: whatever world [m] starts in, the world it leaves is
    [F]-related to it, and the completion satisfies [Q] (normal), [P]
    ([return]) or [E] ([throw]). *)
Definition triple (F : W -> W -> Prop) (m : Stmt W R A)
    (Q : A -> Prop) (P : R -> Prop) (E : Thrown -> Prop) : Prop :=
  forall w,
    match m w with
    | (Normal a, w') => F w w' /\ Q a
    | (Return r, w') => F w w' /\ P r
    | (Throw e, w') => F w w' /\ E e
    end.

(** [blind m]: the completion of [m] does not depend on the world it
    starts in. *)
Definition blind (m : Stmt W R A) : Prop :=
  forall w1 w2, fst (m w1) = fst (m w2).

End Specifications.

Section Frames.

Context {S : Type} `{RecordStore S}.

Definition is_write (ev : Event) : bool :=
  match ev with
  | EvInsert _ | EvUpdate _ _ => true
  | _ => false
  end.

(** The writes to the record table a log mentions. *)
Definition writes (l : list Event) : list Event :=
  filter (fun ev => is_write ev = true) l.

(** No constraint on the world left. *)
Definition anything : World S -> World S -> Prop := fun _ _ => True.

(** The statement did not touch the state or the stream. *)
Definition quiet : World S -> World S -> Prop :=
  fun w w' =>
    store w' = store w /\ stream_open w' = stream_open w
    /\ writes (log w') = writes (log w).

(** The statement issued no write and did not touch the stream; the state
    is as the caller's functions left it. *)
Definition unwritten : World S -> World S -> Prop :=
  fun w w' =>
    stream_open w' = stream_open w /\ writes (log w') = writes (log w).

(** The world with another state. *)
Definition with_store (s : S) (w : World S) : World S :=
  {| store := s; stream_open := stream_open w; log := log w |}.

(** Every function the caller registered changes the state within
    [changes]. *)
Definition keeps (changes : S -> S -> Prop) (this : Importer S) : Prop :=
  (forall event f d s,
     _events this !! event = Some f -> changes s (snd (f d s)))
  /\ (forall field farray entry row s,
        _validations this !! field = Some farray -> entry ∈ farray ->
        changes s (snd (v_method entry row field s)))
  /\ (forall field transformations f value s,
        _transforms this !! field = Some transformations ->
        f ∈ transformations -> changes s (snd (f value s))).

(** Whatever a function the caller registered throws is within [E]. *)
Definition throws (E : Thrown -> Prop) (this : Importer S) : Prop :=
  (forall event f d s t,
     _events this !! event = Some f -> fst (f d s) = Raise t -> E t)
  /\ (forall field farray entry row s t,
        _validations this !! field = Some farray -> entry ∈ farray ->
        fst (v_method entry row field s) = Raise t -> E t)
  /\ (forall field transformations f value s t,
        _transforms this !! field = Some transformations ->
        f ∈ transformations -> fst (f value s) = Raise t -> E t).


(** The world after one more logged event. *)
Definition logged (ev : Event) (w : World S) : World S :=
  {| store := store w; stream_open := stream_open w; log := ev :: log w |}.

(** The world after [getContentStream], and after [parser.close()]. *)
Definition opened (w : World S) : World S :=
  {| store := store w; stream_open := true; log := EvOpen :: log w |}.

Definition closed (w : World S) : World S :=
  {| store := store w; stream_open := false; log := EvClose :: log w |}.

(** The result of a row whose processing threw [ex]: [ex] is attached when
    it is truthy. *)
Definition error_result (index : nat) (ex : Thrown) : RowResult :=
  {| rr_row := index;
     rr_code := RCODES.ERROR;
     rr_message := VStr "Record skipped due to unexpected error";
     rr_target := VNull;
     rr_error := if thrown_truthy ex then Some ex else None |}.

(** What [JSON.stringify] accepts. *)
Definition serialisable (t : Thrown) : bool :=
  match t with
  | ThrownObject _ false => false
  | _ => true
  end.

(** Whatever the parser throws on these rows can be serialised. *)
Definition readable (rows : list (Res JsObj)) : Prop :=
  Forall (fun r => match r with
                   | Ok _ => True
                   | Raise t => serialisable t = true
                   end) rows.

(** The [data] object [_triggerEvent] builds from its arguments. *)
Definition payload_of (row : option JsObj) (index : option nat)
    (sys_id : Value) : Payload :=
  {| p_row := row;
     p_index := index;
     p_sys_id := if gs_nil sys_id then None else Some sys_id |}.

(** The events after which [_parseRow] tests the callback's value before
    the row is persisted. *)
Definition row_events : list string :=
  ["onRowRead"; "onRowValidating"; "onRowValidated"; "onRowTransformed"].



(** What a row's target is in virtual mode. *)
Definition virtual_target (result : RowResult) : Prop :=
  rr_target result = VNull \/ rr_code result = RCODES.SKIPPED_VALIDATION.

(** The codes of the rows of an import result. *)
Definition row_codes (result : ImportResult) : list RCODES.t :=
  match ir_data result with
  | DRows results => rr_code <$> results
  | _ => []
  end.

Definition row_results (result : ImportResult) : list RowResult :=
  match ir_data result with
  | DRows results => results
  | _ => []
  end.

End Frames.

(** ** Readings of the row stages *)

(** A list whose first and last characters are not whitespace. *)
Definition trimmed (l : list ascii) : Prop :=
  match l with
  | [] => True
  | c :: _ => is_whitespace c = false
  end
  /\ match last l with
     | None => True
     | Some c => is_whitespace c = false
     end.

(** The characters of a normalized string. *)
Definition normal_form (l : list ascii) : list ascii :=
  collapse_ws false
    (filter (fun c => is_special c = false) (to_lower_char <$> trim l)).

(** What every row result looks like. *)
Definition well_formed (index : nat) (result : RowResult) : Prop :=
  rr_row result = index
  /\ (exists s, rr_message result = VStr s)
  /\ (forall t, rr_error result = Some t ->
        rr_code result = RCODES.ERROR /\ thrown_truthy t = true)
  /\ (rr_target result <> VNull ->
      rr_code result = RCODES.SUCCESS
      \/ rr_code result = RCODES.SKIPPED_VALIDATION).

(** A pipeline of transform methods applied to a value, first registered
    first, each in the state the one before leaves; the first method that
    throws ends it. *)
Fixpoint run_transforms {S : Type} (transformations : list (Transform S))
    (value : Value) (s : S) : Res Value * S :=
  match transformations with
  | [] => (Ok value, s)
  | f :: rest =>
      match f value s with
      | (Ok value', s') => run_transforms rest value' s'
      | (Raise t, s') => (Raise t, s')
      end
  end.

(** ** Names

    On property names that are ASCII, that are not array indices and that
    [Object.prototype] does not define, the association lists and the finite
    maps of the embedding are what the objects of the code are: [_normalize]
    works on ASCII, a new key goes last, and a lookup finds own properties
    only. *)

Definition is_ascii (s : string) : bool :=
  forallb (fun c => Nat.ltb (nat_of_ascii c) 128) (list_ascii_of_string s).

Definition is_digit (c : ascii) : bool :=
  let n := nat_of_ascii c in Nat.leb 48 n && Nat.leb n 57.

(** A string of digits: the array indices are among them. *)
Definition is_index (s : string) : bool :=
  match list_ascii_of_string s with
  | [] => false
  | l => forallb is_digit l
  end.

(** The properties every object inherits, on the engines the platform
    used. *)
Definition PROTOTYPE : list string :=
  ["constructor"; "toString"; "toLocaleString"; "valueOf"; "hasOwnProperty";
   "isPrototypeOf"; "propertyIsEnumerable"; "toSource"; "watch"; "unwatch";
   "__proto__"; "__parent__"; "__count__"; "__noSuchMethod__";
   "__defineGetter__"; "__defineSetter__"; "__lookupGetter__";
   "__lookupSetter__"].

(** A plain name, as a header or as a field: so is its normalized form. *)
Definition plain_key (k : string) : bool :=
  is_ascii k
  && negb (is_index (_normalize k))
  && negb (includes (_normalize k) (_normalize <$> PROTOTYPE)).

Definition plain_row (row : JsObj) : bool := forallb plain_key (obj_keys row).

Section Readings.

Context {S : Type} `{RecordStore S}.

(** The header a field is mapped from. *)
Definition maps_to (this : Importer S) (header field : string) : Prop :=
  _mappings this !! _normalize header = Some field /\ field <> "".

(** What the header lists of an importer always satisfy. *)
Definition header_lists_ok (this : Importer S) : Prop :=
  NoDup (_ignored this)
  /\ NoDup (_required this)
  /\ (forall h, h ∈ _ignored this -> h ∉ _required this)
  /\ (forall h, h ∈ _ignored this ++ _required this -> _normalize h = h).

(** The entries of a row, each value through the pipeline of its field, in
    the order of the entries, each pipeline in the state the one before
    leaves. *)
Fixpoint transform_entries (this : Importer S) (row : JsObj) (s : S)
  : Res JsObj * S :=
  match row with
  | [] => (Ok [], s)
  | (field, value) :: rest =>
      match run_transforms (default [] (_transforms this !! field)) value s
      with
      | (Raise t, s') => (Raise t, s')
      | (Ok value', s') =>
          match transform_entries this rest s' with
          | (Ok rest', s'') => (Ok ((field, value') :: rest'), s'')
          | (Raise t, s'') => (Raise t, s'')
          end
      end
  end.

(** What the [onCoalesce] callback makes of a candidate record: accepted
    when no callback is registered, or when the callback's value is nil or
    truthy (line 882). *)
Definition accepted (this : Importer S) (s : S) (sys_id : string) : bool :=
  match _events this !! _normalize "onCoalesce" with
  | None => true
  | Some f =>
      match fst (f (payload_of None None (VStr sys_id)) s) with
      | Ok reply => gs_nil (fst reply) || truthy (fst reply)
      | Raise _ => false
      end
  end.

(** The scheduled validation methods called one after the other, each on
    the row and in the state the one before leaves: the row and the state
    after the last, when every one of them returned a truthy value. *)
Fixpoint validators_pass (schedule : list (string * nat * Validation S))
    (row : JsObj) (s : S) : option (JsObj * S) :=
  match schedule with
  | [] => Some (row, s)
  | (field, _, entry) :: rest =>
      match v_method entry row field s with
      | (Ok (valid, row'), s') =>
          if truthy valid then validators_pass rest row' s' else None
      | (Raise _, _) => None
      end
  end.

(** The statements of [_parseRow] between the step of [event] and
    persistence (up to line 633), on the row the step leaves. *)
Definition _parseRow_after (this : Importer S) (index : nat)
    (event : string) (row : JsObj) : Stmt (World S) RowResult JsObj :=
  if decide (event = "onRowRead") then
    _parseRow_mapped this index
      (_mapHeadersToFields this (_ignoreRowHeaders this row))
  else if decide (event = "onRowValidating") then
    _parseRow_validate this index row
  else if decide (event = "onRowValidated") then
    _parseRow_transform this index row
  else ret row.

(** [reaches this raw index w event row w']: started in the world [w] on
    the row [raw] of the file, [_parseRow] gets to the dispatch of [event]
    with the row object [row], in the world [w'].  The rows on the way have
    plain keys. *)
Inductive reaches (this : Importer S) (raw : JsObj) (index : nat)
    (w : World S) : string -> JsObj -> World S -> Prop :=
| reaches_read :
    plain_row raw = true ->
    _isEmptyRow (_normalizeRowHeaders raw) = false ->
    reaches this raw index w "onRowRead" (_normalizeRowHeaders raw) w
| reaches_validating row w1 v row' w2 :
    reaches this raw index w "onRowRead" row w1 ->
    _triggerEvent (R := RowResult) this "onRowRead" (Some row) (Some index)
      VUndef w1 = (Normal (v, Some row'), w2) ->
    vetoes v = false ->
    plain_row row' = true ->
    plain_row (_mapHeadersToFields this (_ignoreRowHeaders this row'))
    = true ->
    _sloppy this = false ->
    reaches this raw index w "onRowValidating"
      (_mapHeadersToFields this (_ignoreRowHeaders this row')) w2
| reaches_validated row w1 v row' w2 row'' w3 :
    reaches this raw index w "onRowValidating" row w1 ->
    _triggerEvent (R := RowResult) this "onRowValidating" (Some row)
      (Some index) VUndef w1 = (Normal (v, Some row'), w2) ->
    vetoes v = false ->
    plain_row row' = true ->
    _validateRowValues (R := RowResult) this row' w2
    = (Normal (None, row''), w3) ->
    plain_row row'' = true ->
    reaches this raw index w "onRowValidated" row'' w3
| reaches_transformed row w1 v row' w2 row'' w3 :
    reaches this raw index w "onRowValidated" row w1 ->
    _triggerEvent (R := RowResult) this "onRowValidated" (Some row)
      (Some index) VUndef w1 = (Normal (v, Some row'), w2) ->
    vetoes v = false ->
    plain_row row' = true ->
    _transformRowValues (R := RowResult) this row' w2
    = (Normal row'', w3) ->
    reaches this raw index w "onRowTransformed" row'' w3
| reaches_transformed_sloppy row w1 v row' w2 row'' w3 :
    reaches this raw index w "onRowRead" row w1 ->
    _triggerEvent (R := RowResult) this "onRowRead" (Some row) (Some index)
      VUndef w1 = (Normal (v, Some row'), w2) ->
    vetoes v = false ->
    plain_row row' = true ->
    plain_row (_mapHeadersToFields this (_ignoreRowHeaders this row'))
    = true ->
    _sloppy this = true ->
    _transformRowValues (R := RowResult) this
      (_mapHeadersToFields this (_ignoreRowHeaders this row')) w2
    = (Normal row'', w3) ->
    reaches this raw index w "onRowTransformed" row'' w3.

(** The query of [_getCoalescenceRecord], in closed form: one condition for
    each coalescing field with a value in the row, in the order of the
    [coalesce] calls. *)
Definition coalescence_query (this : Importer S) (data : JsObj)
  : list (string * Value) :=
  (fun field => (field, obj_get field data))
    <$> filter (fun field => gs_nil (obj_get field data) = false)
          (_coalescing this).

(** Two configurations that differ at most in what the validation of rows
    and headers consults: the validation methods, the required headers and
    the [onRowValidating] and [onRowValidated] callbacks. *)
Definition same_apart_from_validation (this this' : Importer S) : Prop :=
  _virtual this' = _virtual this
  /\ _sloppy this' = _sloppy this
  /\ _mappings this' = _mappings this
  /\ _transforms this' = _transforms this
  /\ _coalescing this' = _coalescing this
  /\ _ignored this' = _ignored this
  /\ forall event,
       event ∉ [_normalize "onRowValidating"; _normalize "onRowValidated"] ->
       _events this' !! event = _events this !! event.

End Readings.

(** ** A sample table, configurations and files *)

Module Sample.

Definition users_fields : list string :=
  ["u_name"; "u_email"; "u_active"; "u_manager"].

Definition fresh : World Table :=
  {| store := {| records := []; next_id := 0 |};
     stream_open := false;
     log := [] |}.

(** The importer after a sequence of configuration calls. *)
Definition configured (calls : Stmt (Importer Table) unit unit)
    (this : Importer Table) : Importer Table :=
  snd (calls this).

Definition users : Importer Table :=
  configured
    (map "Name" "u_name" ;; map "Email" "u_email" ;;
     map "Active" "u_active" ;; map "Manager" "u_manager")
    (blank "u_users" users_fields).

Definition returning (v : Value) : Callback Table :=
  reading_callback (fun _ _ => Ok v).

Definition failing (t : Thrown) : Callback Table :=
  reading_callback (fun _ _ => Raise t).

Definition ann : JsObj := [("Name", VStr "Ann"); ("Email", VStr "ann@x.org")].

Definition bob : JsObj :=
  [("Name", VStr "Bob"); ("Email", VStr "bob@x.org");
   ("Manager", VStr "Ann")].

Definition no_email : JsObj := [("Name", VStr "Cid"); ("Email", VNull)].

Definition file_of (headers : list string) (rows : list JsObj) : File :=
  {| f_parses := true; f_error_message := "";
     f_headers := headers; f_rows := Ok <$> rows |}.

Definition unreadable : File :=
  {| f_parses := false; f_error_message := "Not an XLSX file";
     f_headers := []; f_rows := [] |}.

Definition boom : Error := {| e_name := "Error"; e_message := "boom" |}.

Definition name_is_mandatory : Validation Table :=
  {| v_method := reading_validation IS_NOT_EMPTY;
     v_message := "Name is mandatory" |}.

Definition email_is_mandatory : Validation Table :=
  {| v_method := reading_validation IS_NOT_EMPTY;
     v_message := "Email is mandatory" |}.

Definition email_is_known : Validation Table :=
  {| v_method := reading_validation (RECORD_EXISTS "u_email" false);
     v_message := "Email is unknown" |}.

Definition checked : Importer Table :=
  configured
    (validate "u_name" (reading_validation IS_NOT_EMPTY)
       "Name is mandatory" ;;
     validate "u_email" (reading_validation IS_NOT_EMPTY)
       "Email is mandatory" ;;
     validate "u_email" (reading_validation (RECORD_EXISTS "u_email" false))
       "Email is unknown")
    users.

(** Two methods, of which the first forgets to return. *)
Definition forgetful : Importer Table :=
  configured
    (validate "u_name" (reading_validation (fun _ _ _ => Ok VUndef))
       "Name was not checked" ;;
     validate "u_email" (reading_validation (fun _ _ _ => Ok (VBool false)))
       "Email is refused")
    users.

(** [function (data) { data.row.u_email = "none@x.org"; }] *)
Definition fill_email : Callback Table :=
  fun data s =>
    (Ok (VUndef, obj_set "u_email" (VStr "none@x.org")
                   (default [] (p_row data))), s).

Definition filling : Importer Table :=
  configured
    (validate "u_email" (reading_validation IS_NOT_EMPTY)
       "Email is mandatory" ;;
     callback "onRowValidating" fill_email)
    users.



Definition all_headers : list string :=
  ["Name"; "Email"; "Active"; "Manager"].

(** [var n = 0;] shared by two callbacks: [function (data) { n++; }] and
    [function (data) { return n == 0; }]. *)
Definition bump : Callback Counted :=
  fun data s =>
    (Ok (VUndef, default [] (p_row data)),
     {| counted_table := counted_table s;
        counter := Datatypes.S (counter s) |}).

Definition none_so_far : Callback Counted :=
  fun data s =>
    (Ok (VBool (Nat.eqb (counter s) 0), default [] (p_row data)), s).

Definition counting : Importer Counted :=
  snd ((map (R := unit) "Name" "u_name" ;; map "Email" "u_email" ;;
        callback "onRowImported" bump ;;
        callback "onRowRead" none_so_far)
         (blank "u_users" users_fields)).

Definition nothing_counted : World Counted :=
  {| store := {| counted_table := {| records := []; next_id := 0 |};
                 counter := 0 |};
     stream_open := false;
     log := [] |}.

Definition numeric_active : JsObj :=
  [("Name", VStr "Dan"); ("Active", VNum 1)].



Definition typed : Importer Table :=
  configured (transform "u_active" (reading_transform STRING_TO_BOOLEAN))
    users.

End Sample.

(** ** More samples: tables of the instance, configurations and rows *)

Module Cases.

(** The columns of a table: name and label of each field. *)
Definition users_columns : list (string * string) :=
  [("sys_id", "Sys ID"); ("u_name", "Name"); ("u_email", "E-mail");
   ("sys_created_on", "Created")].

Definition codes_columns : list (string * string) :=
  [("u_name", "Name"); ("u_code", "")].

Definition tables : gmap string (list (string * string)) :=
  {[ "u_users" := users_columns; "u_codes" := codes_columns ]}.

Definition tracked : Importer Table :=
  Sample.configured (ignore "Notes" ;; require "Name") Sample.users.

Definition noted : JsObj :=
  [("name", VStr "Ann"); ("notes", VStr "call back")].

Definition aliased : Importer Table :=
  Sample.configured (map "Full name" "u_name") Sample.users.

Definition blank_cells : JsObj := [("Name", VNull); ("Email", VStr "")].

Definition registered : World Table :=
  {| store :=
       {| records :=
            [("rec0", [("u_name", VStr "Ann"); ("u_email", VStr "ann@x.org")])];
          next_id := 1 |};
     stream_open := true;
     log := [] |}.

Definition keyed : Importer Table :=
  Sample.configured
    (coalesce "u_email" ;;
     callback "onCoalesce" (Sample.returning (VBool true)))
    Sample.users.

Definition renamed : JsObj :=
  [("u_name", VStr "Ann B."); ("u_email", VStr "ann@x.org")].

Definition rehearsal : Importer Table :=
  Sample.configured (virtual true) Sample.checked.

Definition hasty : Importer Table :=
  Sample.configured (sloppy true) Sample.users.

Definition hasty_checked : Importer Table :=
  Sample.configured
    (sloppy true ;; require "Manager" ;;
     callback "onRowValidating" (Sample.returning (VBool false)))
    Sample.checked.


End Cases.

(** * Properties *)

Example normalize_header : _normalize "  User   NAME " = "user name".
Proof. reflexivity. Qed.

Example normalize_event : _normalize "onRowImported" = "onrowimported".
Proof. reflexivity. Qed.

Arguments _normalize : simpl never.

(** ** Rules for [triple] *)

Section TripleRules.

Context {W : Type} (F : W -> W -> Prop) `{!PreOrder F}.

Lemma triple_ret {R A} (a : A) (Q : A -> Prop) P E :
  Q a -> triple F (ret (R := R) a) Q P E.
Proof. intros Ha w. simpl. split; [reflexivity | exact Ha]. Qed.

Lemma triple_return {R A} (r : R) (Q : A -> Prop) (P : R -> Prop) E :
  P r -> triple F (return_ r) Q P E.
Proof. intros Hr w. simpl. split; [reflexivity | exact Hr]. Qed.

Lemma triple_throw {R A} (e : Thrown) (Q : A -> Prop) (P : R -> Prop)
    (E : Thrown -> Prop) :
  E e -> triple F (throw e) Q P E.
Proof. intros He w. simpl. split; [reflexivity | exact He]. Qed.

Lemma triple_bind {R A B} (m : Stmt W R A) (k : A -> Stmt W R B)
    (Q1 : A -> Prop) (Q : B -> Prop) (P : R -> Prop) (E : Thrown -> Prop) :
  triple F m Q1 P E ->
  (forall a, Q1 a -> triple F (k a) Q P E) ->
  triple F (bind m k) Q P E.
Proof.
  intros Hm Hk w. unfold bind. specialize (Hm w).
  destruct (m w) as [[a | r | e] w1]; try exact Hm.
  destruct Hm as [Hw Ha]. specialize (Hk a Ha w1).
  destruct (k a w1) as [[b | r | e] w2]; destruct Hk as [Hw2 Hpost];
    (split; [etransitivity; eassumption | exact Hpost]).
Qed.

Lemma triple_weaken {R A} (m : Stmt W R A) (Q Q' : A -> Prop)
    (P P' : R -> Prop) (E E' : Thrown -> Prop) :
  triple F m Q P E ->
  (forall a, Q a -> Q' a) -> (forall r, P r -> P' r) ->
  (forall e, E e -> E' e) ->
  triple F m Q' P' E'.
Proof.
  intros Hm HQ HP HE w. specialize (Hm w).
  destruct (m w) as [[a | r | e] w1]; destruct Hm; split; auto.
Qed.

Lemma triple_eval {R A} (x : Res A) (Q : A -> Prop) (P : R -> Prop)
    (E : Thrown -> Prop) :
  match x with Ok a => Q a | Raise e => E e end ->
  triple F (eval x) Q P E.
Proof.
  destruct x; intros Hx; [apply triple_ret | apply triple_throw]; exact Hx.
Qed.

Lemma triple_when {R} (b : bool) (s : Stmt W R unit) (Q : unit -> Prop) P E :
  (b = true -> triple F s Q P E) -> Q tt -> triple F (when b s) Q P E.
Proof.
  intros Hs Htt. destruct b; simpl; [auto | by apply triple_ret].
Qed.

Lemma triple_for_each {R X} (l : list X) (body : X -> Stmt W R unit) P E :
  (forall x, x ∈ l -> triple F (body x) (fun _ => True) P E) ->
  triple F (for_each l body) (fun _ => True) P E.
Proof.
  induction l as [| x l IH]; intros Hbody; simpl.
  - by apply triple_ret.
  - eapply triple_bind.
    + apply Hbody. by left.
    + intros _ _. apply IH. intros y Hy. apply Hbody. by right.
Qed.

Lemma triple_fold_each {R X A} (l : list X) (acc : A)
    (body : A -> X -> Stmt W R A) (I : A -> Prop) P E :
  I acc ->
  (forall acc x, x ∈ l -> I acc -> triple F (body acc x) I P E) ->
  triple F (fold_each l acc body) I P E.
Proof.
  revert acc. induction l as [| x l IH]; intros acc Hacc Hbody; simpl.
  - by apply triple_ret.
  - eapply triple_bind; [apply Hbody; [by left | done] |].
    intros acc' Hacc'. apply IH; [done |].
    intros acc'' y Hy. apply Hbody. by right.
Qed.

Lemma triple_fold_each_i {R X A} (l : list X) (i : nat) (acc : A)
    (body : nat -> A -> X -> Stmt W R A) (I : A -> Prop) P E :
  I acc ->
  (forall j acc x, x ∈ l -> I acc -> triple F (body j acc x) I P E) ->
  triple F (fold_each_i i l acc body) I P E.
Proof.
  revert i acc. induction l as [| x l IH]; intros i acc Hacc Hbody; simpl.
  - by apply triple_ret.
  - eapply triple_bind; [apply Hbody; [by left | done] |].
    intros acc' Hacc'. apply IH; [done |].
    intros j acc'' y Hy. apply Hbody. by right.
Qed.

(** A call never completes with [return]. *)
Lemma triple_call {R A} (body : Stmt W A A) (Q : A -> Prop)
    (P : R -> Prop) (E : Thrown -> Prop) :
  triple F body Q Q E -> triple F (call body) Q P E.
Proof.
  intros Hb w. unfold call. specialize (Hb w).
  destruct (body w) as [[a | r | e] w1]; exact Hb.
Qed.

Lemma triple_try_catch {R A} (body : Stmt W R A)
    (handler : Thrown -> Stmt W R A) (Q : A -> Prop) (P : R -> Prop)
    (E1 E : Thrown -> Prop) :
  triple F body Q P E1 ->
  (forall e, E1 e -> triple F (handler e) Q P E) ->
  triple F (try_catch body handler) Q P E.
Proof.
  intros Hb Hh w. unfold try_catch. specialize (Hb w).
  destruct (body w) as [[a | r | e] w1]; try exact Hb.
  destruct Hb as [Hw He]. specialize (Hh e He w1).
  destruct (handler e w1) as [[a | r | e'] w2]; destruct Hh as [Hw2 Hpost];
    (split; [etransitivity; eassumption | exact Hpost]).
Qed.

End TripleRules.

Lemma call_not_return {W R A} (body : Stmt W A A) (w w' : W) (r : R) :
  call body w = (Return r, w') -> False.
Proof.
  unfold call. by destruct (body w) as [[a | a | e] w1].
Qed.

(** ** Rules for [blind] *)

Section BlindRules.

Context {W : Type}.

Lemma blind_ret {R A} (a : A) : blind (ret (W := W) (R := R) a).
Proof. intros w1 w2. reflexivity. Qed.



Lemma blind_bind {R A B} (m : Stmt W R A) (k : A -> Stmt W R B) :
  blind m -> (forall a, blind (k a)) -> blind (bind m k).
Proof.
  intros Hm Hk w1 w2. unfold bind. specialize (Hm w1 w2).
  destruct (m w1) as [c1 v1], (m w2) as [c2 v2]. simpl in Hm. subst c2.
  destruct c1 as [a | r | e]; [apply Hk | reflexivity | reflexivity].
Qed.



Lemma blind_for_each {R X} (l : list X) (body : X -> Stmt W R unit) :
  (forall x, blind (body x)) -> blind (for_each l body).
Proof.
  intros Hbody. induction l as [| x l IH]; simpl.
  - apply blind_ret.
  - apply blind_bind; [apply Hbody | intros _; exact IH].
Qed.




End BlindRules.

(** ** The stages of the pipeline, one specification each *)

Section StageTriples.

Context {S : Type} `{RecordStore S}.
Variable F : World S -> World S -> Prop.
Context `{!PreOrder F}.
Variable changes : S -> S -> Prop.
Variable E : Thrown -> Prop.
Hypothesis F_emit :
  forall ev w, is_write ev = false ->
    F w {| store := store w; stream_open := stream_open w;
           log := ev :: log w |}.
Hypothesis F_user :
  forall w s', changes (store w) s' -> F w (with_store s' w).

Variable this : Importer S.
Hypothesis this_keeps : keeps changes this.
Hypothesis this_throws : throws E this.

Lemma triple_get_store {R} (Q : S -> Prop) (P : R -> Prop) E' :
  (forall s, Q s) -> triple F get_store Q P E'.
Proof. intros HQ w. simpl. split; [reflexivity | apply HQ]. Qed.

Lemma triple_emit {R} (ev : Event) (P : R -> Prop) E' :
  is_write ev = false -> triple F (emit ev) (fun _ => True) P E'.
Proof. intros Hev w. simpl. split; [by apply F_emit | exact I]. Qed.

Lemma triple_call_user {R A} (f : S -> Res A * S) (Q : A -> Prop)
    (P : R -> Prop) E' :
  (forall s, changes s (snd (f s))) ->
  (forall s, match fst (f s) with Ok a => Q a | Raise t => E' t end) ->
  triple F (call_user f) Q P E'.
Proof.
  intros Hchanges Hf w. unfold call_user. specialize (Hf (store w)).
  destruct (fst (f (store w))); simpl;
    (split; [apply F_user, Hchanges | exact Hf]).
Qed.


Lemma triple_triggerEvent {R} event row index sys_id
    (Q : Value * option JsObj -> Prop) (P : R -> Prop) :
  (_events this !! _normalize event = None -> Q (VNull, row)) ->
  (forall f d s reply, _events this !! _normalize event = Some f ->
     fst (f d s) = Ok reply ->
     Q (fst reply, option_map (fun _ => snd reply) row)) ->
  triple F (_triggerEvent this event row index sys_id) Q P E.
Proof.
  intros Hnone Hsome. unfold _triggerEvent. apply (triple_call F).
  destruct (_events this !! _normalize event) as [f |] eqn:Hf.
  - eapply (triple_bind F); [by apply triple_emit |].
    intros _ _.
    eapply (triple_bind F)
      with (Q1 := fun reply =>
                    Q (fst reply, option_map (fun _ => snd reply) row)).
    { apply triple_call_user.
      - intros s. by apply (proj1 this_keeps (_normalize event) f).
      - intros s.
        match goal with
        | |- context [f ?d s] =>
            destruct (fst (f d s)) as [reply | t] eqn:Hreply;
            [by apply (Hsome f d s)
            | by apply (proj1 this_throws (_normalize event) f d s)]
        end. }
    intros reply Hreply. by apply (triple_return F).
  - apply (triple_return F). by apply Hnone.
Qed.

Lemma triple_row_event event row index sys_id (P : RowResult -> Prop) :
  P (_createRowResult index RCODES.SKIPPED_EVENT (Some event) VUndef None) ->
  triple F (row_event this event row index sys_id) (fun _ => True) P E.
Proof.
  intros HP. unfold row_event.
  eapply (triple_bind F) with (Q1 := fun _ => True).
  { by apply triple_triggerEvent. }
  intros reply _. eapply (triple_bind F) with (Q1 := fun _ => True).
  { apply (triple_when F); [| done]. intros _. by apply (triple_return F). }
  intros _ _. by apply (triple_ret F).
Qed.

Lemma triple_validateRowValues {R} (row : JsObj) (P : R -> Prop) :
  triple F (_validateRowValues this row) (fun _ => True) P E.
Proof.
  unfold _validateRowValues. apply (triple_call F).
  eapply (triple_bind F) with (Q1 := fun _ => True).
  - apply (triple_fold_each F); [done |]. intros row' field _ _.
    destruct (_validations this !! field) as [farray |] eqn:Hfarray.
    + apply (triple_fold_each_i F); [done |]. intros j row'' entry Hentry _.
      eapply (triple_bind F); [by apply triple_emit |].
      intros _ _. eapply (triple_bind F) with (Q1 := fun _ => True).
      { apply triple_call_user.
        - intros s. by apply (proj1 (proj2 this_keeps) field farray).
        - intros s.
          destruct (fst (v_method entry row'' field s)) as [reply | t]
            eqn:Hreply; [done |].
          by apply (proj1 (proj2 this_throws) field farray entry row'' s). }
      intros reply _. eapply (triple_bind F) with (Q1 := fun _ => True).
      { apply (triple_when F); [| done]. intros _.
        by apply (triple_return F). }
      intros _ _. by apply (triple_ret F).
    + by apply (triple_ret F).
  - intros row' _. by apply (triple_return F).
Qed.

Lemma triple_transformRowValues {R} (row : JsObj) (P : R -> Prop) :
  triple F (_transformRowValues this row) (fun _ => True) P E.
Proof.
  unfold _transformRowValues. apply (triple_call F).
  eapply (triple_bind F) with (Q1 := fun _ => True).
  - apply (triple_fold_each F); [done |]. intros data field _ _.
    eapply (triple_bind F) with (Q1 := fun _ => True).
    + destruct (_transforms this !! field) as [transformations |]
        eqn:Htransformations.
      * eapply (triple_bind F) with (Q1 := fun _ => True).
        { apply (triple_fold_each F); [done |]. intros [j value] f Hf _.
          eapply (triple_bind F); [by apply triple_emit |].
          intros _ _. eapply (triple_bind F) with (Q1 := fun _ => True).
          { apply triple_call_user.
            - intros s.
              by apply (proj2 (proj2 this_keeps) field transformations).
            - intros s. destruct (fst (f value s)) as [value' | t] eqn:Hvalue;
                [done |].
              by apply (proj2 (proj2 this_throws) field transformations f
                          value s). }
          intros value' _. by apply (triple_ret F). }
        intros context _. by apply (triple_ret F).
      * by apply (triple_ret F).
    + intros value _. by apply (triple_ret F).
  - intros data _. by apply (triple_return F).
Qed.

Lemma triple_transform_stage (index : nat) (row : JsObj)
    (P : RowResult -> Prop) :
  (forall event,
     P (_createRowResult index RCODES.SKIPPED_EVENT (Some event) VUndef
          None)) ->
  triple F (_parseRow_transform this index row) (fun _ => True) P E.
Proof.
  intros Hevent. unfold _parseRow_transform.
  eapply (triple_bind F) with (Q1 := fun _ => True).
  { apply triple_transformRowValues. }
  intros row' _. by apply triple_row_event.
Qed.

Lemma triple_validate_stage (index : nat) (row : JsObj)
    (P : RowResult -> Prop) :
  (forall event,
     P (_createRowResult index RCODES.SKIPPED_EVENT (Some event) VUndef
          None)) ->
  (forall failure,
     P (_createRowResult index RCODES.SKIPPED_VALIDATION
          (Some (vf_message failure)) (VStr (vf_field failure)) None)) ->
  triple F (_parseRow_validate this index row) (fun _ => True) P E.
Proof.
  intros Hevent Hvalidation. unfold _parseRow_validate.
  eapply (triple_bind F) with (Q1 := fun _ => True).
  { apply triple_validateRowValues. }
  intros [[failure |] row'] _; simpl.
  - eapply (triple_bind F) with (Q1 := fun _ => True);
      [by apply (triple_return F) |].
    intros _ _. eapply (triple_bind F) with (Q1 := fun _ => True);
      [by apply triple_row_event |].
    intros row'' _. by apply triple_transform_stage.
  - eapply (triple_bind F) with (Q1 := fun _ => True);
      [by apply (triple_ret F) |].
    intros _ _. eapply (triple_bind F) with (Q1 := fun _ => True);
      [by apply triple_row_event |].
    intros row'' _. by apply triple_transform_stage.
Qed.

Lemma triple_mapped (index : nat) (row : JsObj) (P : RowResult -> Prop) :
  (forall event,
     P (_createRowResult index RCODES.SKIPPED_EVENT (Some event) VUndef
          None)) ->
  (forall failure,
     P (_createRowResult index RCODES.SKIPPED_VALIDATION
          (Some (vf_message failure)) (VStr (vf_field failure)) None)) ->
  triple F (_parseRow_mapped this index row) (fun _ => True) P E.
Proof.
  intros Hevent Hvalidation. unfold _parseRow_mapped.
  destruct (negb (_sloppy this)).
  - eapply (triple_bind F) with (Q1 := fun _ => True);
      [by apply triple_row_event |].
    intros row' _. by apply triple_validate_stage.
  - by apply triple_transform_stage.
Qed.

(** Every result [_parseRow_process] returns is a skipped-event result or a
    skipped-validation result. *)
Lemma triple_process (row : JsObj) (index : nat) (P : RowResult -> Prop) :
  (forall event,
     P (_createRowResult index RCODES.SKIPPED_EVENT (Some event) VUndef
          None)) ->
  (forall failure,
     P (_createRowResult index RCODES.SKIPPED_VALIDATION
          (Some (vf_message failure)) (VStr (vf_field failure)) None)) ->
  triple F (_parseRow_process this row index) (fun _ => True) P E.
Proof.
  intros Hevent Hvalidation. unfold _parseRow_process.
  eapply (triple_bind F) with (Q1 := fun _ => True).
  { by apply triple_row_event. }
  intros row' _. by apply triple_mapped.
Qed.

(** Every result [_parseRow_prepare] returns is one of: the empty-row
    result (only for an empty row), a skipped-event result, a
    skipped-validation result. *)
Lemma triple_prepare (parser_getRow : Res JsObj) (index : nat)
    (P : RowResult -> Prop) :
  match parser_getRow with Ok _ => True | Raise t => E t end ->
  (forall raw, parser_getRow = Ok raw ->
     _isEmptyRow (_normalizeRowHeaders raw) = true ->
     P (_createRowResult index RCODES.SKIPPED_EMPTY None VUndef None)) ->
  (forall event,
     P (_createRowResult index RCODES.SKIPPED_EVENT (Some event) VUndef
          None)) ->
  (forall failure,
     P (_createRowResult index RCODES.SKIPPED_VALIDATION
          (Some (vf_message failure)) (VStr (vf_field failure)) None)) ->
  triple F (_parseRow_prepare this parser_getRow index) (fun _ => True) P E.
Proof.
  intros Hread Hempty Hevent Hvalidation. unfold _parseRow_prepare.
  eapply (triple_bind F) with (Q1 := fun raw => parser_getRow = Ok raw).
  { apply (triple_eval F). by destruct parser_getRow. }
  intros raw Hraw. eapply (triple_bind F) with (Q1 := fun _ => True).
  { apply (triple_when F); [| done]. intros Hrow.
    apply (triple_return F). eauto. }
  intros _ _. by apply triple_process.
Qed.

End StageTriples.

Section Behaviour.

Context {S : Type} `{RecordStore S}.

(** Any function changes the state within the full relation, and throws
    within the full predicate. *)
Lemma keeps_anything (this : Importer S) : keeps (fun _ _ => True) this.
Proof. by repeat split. Qed.

Lemma throws_anything (this : Importer S) : throws (fun _ => True) this.
Proof. by repeat split. Qed.

(** An importer without callbacks, validations and transformations throws
    nothing of its caller's. *)
Lemma throws_unconfigured (E : Thrown -> Prop) (this : Importer S) :
  _events this = ∅ -> _validations this = ∅ -> _transforms this = ∅ ->
  throws E this.
Proof.
  intros Hevents Hvalidations Htransforms.
  unfold throws. rewrite Hevents, Hvalidations, Htransforms.
  repeat split; intros *; by rewrite lookup_empty.
Qed.

End Behaviour.

(** ** Configuration methods *)

Section Configuration.

Context {S : Type} `{RecordStore S}.

Lemma includes_true (x : string) (l : list string) :
  includes x l = true <-> x ∈ l.
Proof. unfold includes. case_decide; split; intros; done. Qed.

(** C8.  Calling [ignore(h)] while the normalized [h] is in the required
    list, or [require(h)] while the normalized [h] is in the ignored list,
    completes the configuration call itself with a thrown error, and the
    importer it leaves is the one it was given: neither list changed. *)
Theorem ignore_require_conflict_throws (R : Type) (this : Importer S)
    (h : string) :
  (includes (_normalize h) (_required this) = true ->
   exists e, ignore (R := R) h this = (Throw e, this))
  /\ (includes (_normalize h) (_ignored this) = true ->
      exists e, require (R := R) h this = (Throw e, this)).
Proof.
  split; intros Hin.
  - unfold ignore, call, bind, when, get_this.
    destruct (gs_nil (VStr h)); simpl; [eauto |].
    rewrite Hin. simpl. eauto.
  - unfold require, call, bind, when, get_this.
    destruct (gs_nil (VStr h)); simpl; [eauto |].
    rewrite Hin. simpl. eauto.
Qed.

(** A header that conflicts with nothing is recorded. *)
Lemma ignore_records (R : Type) (this : Importer S) (h : string) :
  gs_nil (VStr h) = false ->
  includes (_normalize h) (_required this) = false ->
  includes (_normalize h) (_ignored this) = false ->
  ignore (R := R) h this
  = (Normal tt, set_ignored (_ignored this ++ [_normalize h]) this).
Proof.
  intros Hnil Hreq Hign. unfold ignore, call, bind, when, get_this.
  rewrite Hnil. simpl. rewrite Hreq. simpl. rewrite Hign. reflexivity.
Qed.

(** [validate] appends to the field's pipeline: registration order is list
    order. *)
Lemma validate_appends (R : Type) (this : Importer S) (field message : string)
    f :
  gs_nil (VStr field) = false ->
  gs_nil (VStr message) = false ->
  includes (_normalize field) (table_fields this) = true ->
  exists this',
    validate (R := R) field f message this = (Normal tt, this')
    /\ _validations this' !! _normalize field
       = Some (default [] (_validations this !! _normalize field)
               ++ [{| v_method := f; v_message := message |}]).
Proof.
  intros Hfield Hmessage Hknown. unfold validate, call, bind, when, get_this.
  rewrite Hfield, Hmessage. simpl. rewrite Hknown. simpl.
  eexists. split; [reflexivity |]. simpl. apply lookup_insert_eq.
Qed.

(** [virtual(active)] and [sloppy(active)] assign the flag and nothing
    else. *)
Lemma virtual_assigns (R : Type) (this : Importer S) (active : bool) :
  virtual (R := R) active this = (Normal tt, set_virtual active this).
Proof. reflexivity. Qed.

Lemma sloppy_assigns (R : Type) (this : Importer S) (active : bool) :
  sloppy (R := R) active this = (Normal tt, set_sloppy active this).
Proof. reflexivity. Qed.

End Configuration.

Lemma ignore_require_conflict_throws_witness :
  (exists e,
     ignore (R := unit) " EMAIL "
       (Sample.configured (require "Email") Sample.users)
     = (Throw e, Sample.configured (require "Email") Sample.users))
  /\ (exists e,
        require (R := unit) "Internal  Notes"
          (Sample.configured (ignore "internal notes") Sample.users)
        = (Throw e,
           Sample.configured (ignore "internal notes") Sample.users)).
Proof.
  split.
  - apply (ignore_require_conflict_throws unit
             (Sample.configured (require "Email") Sample.users) " EMAIL ").
    vm_compute. reflexivity.
  - apply (ignore_require_conflict_throws unit
             (Sample.configured (ignore "internal notes") Sample.users)
             "Internal  Notes").
    vm_compute. reflexivity.
Defined.

(** ** Event dispatch *)

Section Events.

Context {S : Type} `{RecordStore S}.

Lemma triggerEvent_unregistered {R} (this : Importer S) event row index
    sys_id (w : World S) :
  _events this !! _normalize event = None ->
  _triggerEvent (R := R) this event row index sys_id w
  = (Normal (VNull, row), w).
Proof. intros Hf. unfold _triggerEvent, call. cbv zeta. by rewrite Hf. Qed.

Lemma triggerEvent_registered {R} (this : Importer S) event row index sys_id
    f (w : World S) :
  _events this !! _normalize event = Some f ->
  _triggerEvent (R := R) this event row index sys_id w
  = (match fst (f (payload_of row index sys_id) (store w)) with
     | Ok reply => Normal (fst reply, option_map (fun _ => snd reply) row)
     | Raise t => Throw t
     end,
     with_store (snd (f (payload_of row index sys_id) (store w)))
       (logged (EvCallback (_normalize event) (payload_of row index sys_id))
          w)).
Proof.
  intros Hf. unfold _triggerEvent, call. cbv zeta. rewrite Hf.
  unfold bind, emit, call_user. simpl.
  fold (payload_of row index sys_id).
  by destruct (fst (f (payload_of row index sys_id) (store w))).
Qed.

(** The same, for a callback whose outcome is known. *)
Lemma triggerEvent_returns {R} (this : Importer S) event row index sys_id
    f (w : World S) v row' s' :
  _events this !! _normalize event = Some f ->
  f (payload_of row index sys_id) (store w) = (Ok (v, row'), s') ->
  _triggerEvent (R := R) this event row index sys_id w
  = (Normal (v, option_map (fun _ => row') row),
     with_store s'
       (logged (EvCallback (_normalize event) (payload_of row index sys_id))
          w)).
Proof.
  intros Hf Hreply. rewrite (triggerEvent_registered _ _ _ _ _ f) by exact Hf.
  by rewrite Hreply.
Qed.

Lemma triggerEvent_throws {R} (this : Importer S) event row index sys_id
    f (w : World S) t s' :
  _events this !! _normalize event = Some f ->
  f (payload_of row index sys_id) (store w) = (Raise t, s') ->
  _triggerEvent (R := R) this event row index sys_id w
  = (Throw t,
     with_store s'
       (logged (EvCallback (_normalize event) (payload_of row index sys_id))
          w)).
Proof.
  intros Hf Hreply. rewrite (triggerEvent_registered _ _ _ _ _ f) by exact Hf.
  by rewrite Hreply.
Qed.

Lemma vetoes_spec (v : Value) :
  vetoes v = true <-> v = VBool false \/ v = VNum 0.
Proof.
  unfold vetoes. destruct v as [| | [] | n | s]; simpl;
    try (split; [done | intros [? | ?]; done]).
  - split; [by left | done].
  - destruct (Z.eqb_spec n 0) as [-> | Hn]; simpl.
    + split; [by right | done].
    + split; [done | intros [? | ?]; [done | congruence]].
  - case_decide; simpl; (split; [done | intros [? | ?]; done]).
Qed.

Lemma skipped_event_result (index : nat) (event : string) :
  event <> "" ->
  _createRowResult index RCODES.SKIPPED_EVENT (Some event) VUndef None
  = {| rr_row := index;
       rr_code := RCODES.SKIPPED_EVENT;
       rr_message := VStr (MESSAGES RCODES.SKIPPED_EVENT +:+ event);
       rr_target := VNull;
       rr_error := None |}.
Proof.
  intros Hne. unfold _createRowResult. simpl.
  destruct (decide (event = "")); [done | reflexivity].
Qed.

(** The two statements of an event step, once the dispatch has given the
    callback's value. *)
Lemma row_event_run (this : Importer S) event row index sys_id
    (w w' : World S) v row' :
  _triggerEvent (R := RowResult) this event (Some row) (Some index) sys_id w
  = (Normal (v, Some row'), w') ->
  row_event this event row index sys_id w
  = (if vetoes v
     then Return (_createRowResult index RCODES.SKIPPED_EVENT (Some event)
                    VUndef None)
     else Normal row', w').
Proof.
  intros Hdispatch. unfold row_event, bind at 1. rewrite Hdispatch.
  simpl fst. simpl snd. unfold bind, when. by destruct (vetoes v).
Qed.

(** What [_parseRow_body] returns is the row's result. *)
Lemma parseRow_catch_returns {R} (index : nat)
    (body : Stmt (World S) RowResult RowResult) (w w' : World S)
    (result : RowResult) :
  body w = (Return result, w') ->
  _parseRow_catch (R := R) index body w = (Normal result, w').
Proof.
  intros Hreturns. unfold _parseRow_catch, call, try_catch.
  by rewrite Hreturns.
Qed.

Lemma parseRow_returns {R} (this : Importer S) (parser_getRow : Res JsObj)
    (index : nat) (w w' : World S) (result : RowResult) :
  _parseRow_body this parser_getRow index w = (Return result, w') ->
  _parseRow (R := R) this parser_getRow index w = (Normal result, w').
Proof. apply parseRow_catch_returns. Qed.

(** The [try] block depends on the statements in it through what they do
    from the world they start in. *)
Lemma parseRow_catch_ext {R} (index : nat)
    (body body' : Stmt (World S) RowResult RowResult) (w w' : World S) :
  body w = body' w' ->
  _parseRow_catch (R := R) index body w = _parseRow_catch index body' w'.
Proof.
  intros Hsame. unfold _parseRow_catch, call, try_catch. by rewrite Hsame.
Qed.

(** A row that is not empty goes from the [onRowRead] event on. *)
Lemma parseRow_not_empty {R} (this : Importer S) (raw : JsObj) (index : nat)
    (w : World S) :
  _isEmptyRow (_normalizeRowHeaders raw) = false ->
  _parseRow (R := R) this (Ok raw) index w
  = _parseRow_catch index
      (row <- (row <- row_event this "onRowRead" (_normalizeRowHeaders raw)
                        index VUndef ;;
               _parseRow_after this index "onRowRead" row) ;;
       _parseRow_persist this index row) w.
Proof.
  intros Hnonempty. unfold _parseRow. apply parseRow_catch_ext.
  unfold _parseRow_body, bind at 1, _parseRow_prepare, bind at 1. simpl eval.
  unfold ret at 1, bind at 1. rewrite Hnonempty. simpl when.
  unfold ret at 1. reflexivity.
Qed.

(** Getting to the dispatch of an event: what is left of [_parseRow] is the
    event step, the statements after it, and persistence. *)
Lemma reaches_run {R} (this : Importer S) (raw : JsObj) (index : nat)
    (w : World S) event row w1 :
  reaches this raw index w event row w1 ->
  _parseRow (R := R) this (Ok raw) index w
  = _parseRow_catch index
      (row <- (row <- row_event this event row index VUndef ;;
               _parseRow_after this index event row) ;;
       _parseRow_persist this index row) w1.
Proof.
  induction 1 as
    [Hplain Hnonempty
    | row w1 v row' w2 _ IH Hdispatch Hpass Hplain Hplain' Hsloppy
    | row w1 v row' w2 row'' w3 _ IH Hdispatch Hpass Hplain Hvalid Hplain'
    | row w1 v row' w2 row'' w3 _ IH Hdispatch Hpass Hplain Htransformed
    | row w1 v row' w2 row'' w3 _ IH Hdispatch Hpass Hplain Hplain' Hsloppy
        Htransformed].
  - by apply parseRow_not_empty.
  - rewrite IH. apply parseRow_catch_ext.
    unfold bind at 1 2. rewrite (row_event_run _ _ _ _ _ _ _ _ _ Hdispatch).
    rewrite Hpass. unfold _parseRow_after at 1. simpl.
    unfold _parseRow_mapped. rewrite Hsloppy. reflexivity.
  - rewrite IH. apply parseRow_catch_ext.
    unfold bind at 1 2. rewrite (row_event_run _ _ _ _ _ _ _ _ _ Hdispatch).
    rewrite Hpass. unfold _parseRow_after at 1. simpl.
    unfold _parseRow_validate, bind at 1 2. rewrite Hvalid. simpl.
    reflexivity.
  - rewrite IH. apply parseRow_catch_ext.
    unfold bind at 1 2. rewrite (row_event_run _ _ _ _ _ _ _ _ _ Hdispatch).
    rewrite Hpass. unfold _parseRow_after at 1. simpl.
    unfold _parseRow_transform, bind at 1 2. rewrite Htransformed.
    unfold _parseRow_after. simpl. unfold bind, ret.
    by destruct (row_event this "onRowTransformed" row'' index VUndef w3)
      as [[a | r | t] w'].
  - rewrite IH. apply parseRow_catch_ext.
    unfold bind at 1 2. rewrite (row_event_run _ _ _ _ _ _ _ _ _ Hdispatch).
    rewrite Hpass. unfold _parseRow_after at 1. simpl.
    unfold _parseRow_mapped. rewrite Hsloppy. simpl.
    unfold _parseRow_transform, bind at 1 2. rewrite Htransformed.
    unfold _parseRow_after. simpl. unfold bind, ret.
    by destruct (row_event this "onRowTransformed" row'' index VUndef w3)
      as [[a | r | t] w'].
Qed.

(** The events that are dispatched before persistence are the four of
    [row_events]. *)
Lemma reaches_row_event (this : Importer S) (raw : JsObj) (index : nat)
    (w : World S) event row w1 :
  reaches this raw index w event row w1 -> event ∈ row_events.
Proof.
  unfold row_events.
  destruct 1; apply (bool_decide_unpack _); vm_compute; exact I.
Qed.

(** C4, as amended.  At each of the four event steps that precede
    persistence, whatever way [_parseRow] got there: the value dispatched is
    [null] when no callback is registered, and is what the registered
    callback returns on the [data] object with the row and its index; a value
    that is not nil and is falsy (the boolean [false], and also the number
    [0]) makes [_parseRow] return the skipped-event result tagged with the
    event's name, in the world the callback leaves; any other value ([null],
    [undefined], the empty string, any truthy value) lets [_parseRow] go on
    with the statements that follow the step, on the row as the callback
    leaves it. *)
Theorem row_event_veto (R : Type) (this : Importer S) (raw : JsObj)
    (index : nat) (w : World S) (event : string) (row : JsObj)
    (w1 : World S) (v : Value) (row' : JsObj) (w2 : World S)
    (Hreaches : reaches this raw index w event row w1)
    (Hdispatch : _triggerEvent (R := RowResult) this event (Some row)
                   (Some index) VUndef w1
                 = (Normal (v, Some row'), w2)) :
  let data := payload_of (Some row) (Some index) VUndef in
  let skipped :=
    {| rr_row := index;
       rr_code := RCODES.SKIPPED_EVENT;
       rr_message :=
         VStr ("Record skipped after result of event: " +:+ event);
       rr_target := VNull;
       rr_error := None |} in
  match _events this !! _normalize event with
  | None => v = VNull /\ row' = row /\ w2 = w1
  | Some f =>
      f data (store w1) = (Ok (v, row'), store w2)
      /\ w2 = with_store (store w2)
                (logged (EvCallback (_normalize event) data) w1)
  end
  /\ (vetoes v = true <-> v = VBool false \/ v = VNum 0)
  /\ (vetoes v = true ->
      _parseRow (R := R) this (Ok raw) index w = (Normal skipped, w2))
  /\ (vetoes v = false ->
      _parseRow (R := R) this (Ok raw) index w
      = _parseRow_catch index
          (row <- _parseRow_after this index event row' ;;
           _parseRow_persist this index row) w2).
Proof.
  intros data skipped.
  assert (Hne : event <> "").
  { pose proof (reaches_row_event _ _ _ _ _ _ _ Hreaches) as Hevent.
    intros ->. unfold row_events in Hevent.
    repeat (apply elem_of_cons in Hevent as [Hevent | Hevent];
            [discriminate |]).
    by apply elem_of_nil in Hevent. }
  split; [| split; [apply vetoes_spec | split]].
  - destruct (_events this !! _normalize event) as [f |] eqn:Hf.
    + rewrite (triggerEvent_registered _ _ _ _ _ f) in Hdispatch
        by exact Hf.
      fold data in Hdispatch.
      destruct (f data (store w1)) as [[reply | t] s'] eqn:Hreply;
        simpl in Hdispatch; [| discriminate].
      destruct reply as [v0 row0]. simpl in Hdispatch.
      injection Hdispatch as -> -> <-. by split.
    + rewrite triggerEvent_unregistered in Hdispatch by exact Hf.
      by injection Hdispatch as <- <- <-.
  - intros Hveto. rewrite (reaches_run _ _ _ _ _ _ _ Hreaches).
    apply parseRow_catch_returns. unfold bind at 1 2.
    rewrite (row_event_run _ _ _ _ _ _ _ _ _ Hdispatch), Hveto.
    by rewrite skipped_event_result.
  - intros Hpass. rewrite (reaches_run _ _ _ _ _ _ _ Hreaches).
    apply parseRow_catch_ext. unfold bind at 1 2.
    by rewrite (row_event_run _ _ _ _ _ _ _ _ _ Hdispatch), Hpass.
Qed.

End Events.

Lemma row_event_veto_witness :
  let this :=
    Sample.configured
      (callback "onRowValidating" (Sample.returning (VBool false)))
      Sample.users in
  _parseRow (R := unit) this (Ok Sample.ann) 2 Sample.fresh
  = (Normal
       {| rr_row := 2;
          rr_code := RCODES.SKIPPED_EVENT;
          rr_message :=
            VStr "Record skipped after result of event: onRowValidating";
          rr_target := VNull;
          rr_error := None |},
     logged
       (EvCallback "onrowvalidating"
          (payload_of
             (Some [("u_name", VStr "Ann"); ("u_email", VStr "ann@x.org")])
             (Some 2) VUndef))
       Sample.fresh).
Proof.
  intros this.
  assert (Hread :
    reaches this Sample.ann 2 Sample.fresh "onRowRead"
      (_normalizeRowHeaders Sample.ann) Sample.fresh).
  { apply reaches_read; vm_compute; reflexivity. }
  assert (Hvalidating :
    reaches this Sample.ann 2 Sample.fresh "onRowValidating"
      (_mapHeadersToFields this
         (_ignoreRowHeaders this (_normalizeRowHeaders Sample.ann)))
      Sample.fresh).
  { apply (reaches_validating this Sample.ann 2 Sample.fresh
             (_normalizeRowHeaders Sample.ann) Sample.fresh VNull
             (_normalizeRowHeaders Sample.ann) Sample.fresh Hread);
      vm_compute; reflexivity. }
  refine (proj1 (proj2 (proj2
            (row_event_veto unit this Sample.ann 2 Sample.fresh
               "onRowValidating" _ Sample.fresh (VBool false)
               [("u_name", VStr "Ann"); ("u_email", VStr "ann@x.org")]
               (logged
                  (EvCallback "onrowvalidating"
                     (payload_of
                        (Some [("u_name", VStr "Ann");
                               ("u_email", VStr "ann@x.org")])
                        (Some 2) VUndef))
                  Sample.fresh)
               Hvalidating _))) _);
    vm_compute; reflexivity.
Defined.

(** C4, counterexample.  A callback for [onRowRead] that returns the number
    [0], which is not the boolean [false], still gets the row skipped. *)
Lemma zero_vetoes_the_row :
  VNum 0 <> VBool false
  /\ fst (_parseRow (R := unit)
            (Sample.configured
               (callback "onRowRead" (Sample.returning (VNum 0)))
               Sample.users)
            (Ok Sample.ann) 2 Sample.fresh)
     = Normal
         {| rr_row := 2;
            rr_code := RCODES.SKIPPED_EVENT;
            rr_message :=
              VStr "Record skipped after result of event: onRowRead";
            rr_target := VNull;
            rr_error := None |}.
Proof. split; [discriminate | vm_compute; reflexivity]. Qed.

(** ** Persistence and [onRowImported] *)

Section Persistence.

Context {S : Type} `{RecordStore S}.

(** [_createUpdateRecord] ends with the write: when it completes, the last
    thing logged is the insert or the update of the row, and the table is
    the one that write left. *)
Lemma createUpdateRecord_writes {R} (this : Importer S) (row : JsObj)
    (w1 w2 : World S) (sys_id : Value) :
  _createUpdateRecord (R := R) this row w1 = (Normal sys_id, w2) ->
  exists w',
    (log w2 = EvInsert row :: log w'
     /\ gr_insert row (store w') = (sys_id, store w2))
    \/ (exists id, log w2 = EvUpdate id row :: log w'
        /\ gr_update id row (store w') = (sys_id, store w2)).
Proof.
  intros Hrun. unfold _createUpdateRecord in Hrun.
  unfold call at 1, bind at 1 in Hrun.
  destruct (_getCoalescenceRecord this row w1) as [[found | r | e] w']
    eqn:Hfound; [| by apply call_not_return in Hfound | discriminate Hrun].
  unfold bind in Hrun.
  exists w'. destruct (gs_nil found).
  - left. unfold record_insert in Hrun.
    destruct (gr_insert row (store w')) as [id s'].
    simpl in Hrun. by simplify_eq.
  - right. exists (to_js_string found). unfold record_update in Hrun.
    destruct (gr_update (to_js_string found) row (store w')) as [id s'].
    simpl in Hrun. by simplify_eq.
Qed.

(** C9.  In non-virtual mode, when the row reaches persistence and the
    [onRowImported] callback returns [false]: the write to the table took
    place before the callback ran (it is the entry logged just before the
    callback's, and the callback was handed the identifier the write
    returned), the table keeps the written record, and the row's result is
    the skipped-event one, whose target is [null]: the identifier is not
    reported.  The state after the row is the one the callback leaves. *)
Theorem imported_veto_hides_written_record (R : Type) (this : Importer S)
    (parser_getRow : Res JsObj) (index : nat) (w w1 w2 : World S)
    (row : JsObj) (sys_id : Value) f (row' : JsObj) (s' : S)
    (Hmode : _virtual this = false)
    (Hcallback : _events this !! _normalize "onRowImported" = Some f)
    (Hprepared : _parseRow_prepare this parser_getRow index w
                 = (Normal row, w1))
    (Hwritten : _createUpdateRecord (R := RowResult) this row w1
                = (Normal sys_id, w2))
    (Hfalse : f (payload_of (Some row) (Some index) sys_id) (store w2)
              = (Ok (VBool false, row'), s')) :
  (exists w',
     (log w2 = EvInsert row :: log w'
      /\ gr_insert row (store w') = (sys_id, store w2))
     \/ (exists id, log w2 = EvUpdate id row :: log w'
         /\ gr_update id row (store w') = (sys_id, store w2)))
  /\ _parseRow (R := R) this parser_getRow index w
     = (Normal
          {| rr_row := index;
             rr_code := RCODES.SKIPPED_EVENT;
             rr_message :=
               VStr "Record skipped after result of event: onRowImported";
             rr_target := VNull;
             rr_error := None |},
        with_store s'
          (logged
             (EvCallback "onrowimported"
                (payload_of (Some row) (Some index) sys_id))
             w2)).
Proof.
  split; [by eapply createUpdateRecord_writes |].
  unfold _parseRow, _parseRow_catch, call, try_catch, _parseRow_body.
  unfold bind at 1. rewrite Hprepared.
  unfold _parseRow_persist. rewrite Hmode. simpl negb. cbv iota.
  unfold bind at 1. unfold bind at 1. rewrite Hwritten.
  unfold bind at 1. unfold row_event, bind at 1.
  rewrite (triggerEvent_returns _ _ _ _ _ f _ (VBool false) row' s')
    by (exact Hcallback || exact Hfalse).
  reflexivity.
Qed.

End Persistence.

Lemma imported_veto_hides_written_record_witness :
  _parseRow (R := unit)
    (Sample.configured
       (callback "onRowImported" (Sample.returning (VBool false)))
       Sample.users)
    (Ok Sample.ann) 2 Sample.fresh
  = (Normal
       {| rr_row := 2;
          rr_code := RCODES.SKIPPED_EVENT;
          rr_message :=
            VStr "Record skipped after result of event: onRowImported";
          rr_target := VNull;
          rr_error := None |},
     {| store :=
          {| records :=
               [("rec0",
                 [("u_name", VStr "Ann"); ("u_email", VStr "ann@x.org")])];
             next_id := 1 |};
        stream_open := false;
        log :=
          [EvCallback "onrowimported"
             {| p_row :=
                  Some [("u_name", VStr "Ann");
                        ("u_email", VStr "ann@x.org")];
                p_index := Some 2;
                p_sys_id := Some (VStr "rec0") |};
           EvInsert [("u_name", VStr "Ann"); ("u_email", VStr "ann@x.org")]]
     |}).
Proof.
  refine (proj2 (imported_veto_hides_written_record unit
            (Sample.configured
               (callback "onRowImported" (Sample.returning (VBool false)))
               Sample.users)
            (Ok Sample.ann) 2 Sample.fresh Sample.fresh
            {| store :=
                 {| records :=
                      [("rec0",
                        [("u_name", VStr "Ann");
                         ("u_email", VStr "ann@x.org")])];
                    next_id := 1 |};
               stream_open := false;
               log := [EvInsert [("u_name", VStr "Ann");
                                 ("u_email", VStr "ann@x.org")]] |}
            [("u_name", VStr "Ann"); ("u_email", VStr "ann@x.org")]
            (VStr "rec0") (Sample.returning (VBool false))
            [("u_name", VStr "Ann"); ("u_email", VStr "ann@x.org")]
            {| records :=
                 [("rec0",
                   [("u_name", VStr "Ann");
                    ("u_email", VStr "ann@x.org")])];
               next_id := 1 |}
            _ _ _ _ _)); vm_compute; reflexivity.
Defined.

(** C1, the code at the failing input.  In non-virtual mode, with an
    [onRowImported] callback that returns [false], the row is written to the
    table and yet its result is the skipped-event one with a [null] target,
    not the success result carrying the record's identifier. *)
Theorem imported_veto_reports_skipped :
  let this :=
    Sample.configured
      (callback "onRowImported" (Sample.returning (VBool false)))
      Sample.users in
  let run := _parseRow (R := unit) this (Ok Sample.bob) 7 Sample.fresh in
  _virtual this = false
  /\ fst run
     = Normal
         {| rr_row := 7;
            rr_code := RCODES.SKIPPED_EVENT;
            rr_message :=
              VStr "Record skipped after result of event: onRowImported";
            rr_target := VNull;
            rr_error := None |}
  /\ records (store (snd run))
     = [("rec0",
         [("u_name", VStr "Bob"); ("u_email", VStr "bob@x.org");
          ("u_manager", VStr "Ann")])].
Proof. vm_compute. repeat split; reflexivity. Qed.

(** ** The stream *)

Section Stream.

Context {S : Type} `{RecordStore S}.

(** The [parsing_error] return (line 149) happens with the stream open. *)
Lemma import_parsing_error {R} (this : Importer S) (file : File)
    (w : World S) :
  f_parses file = false ->
  import (R := R) this file w
  = (Normal (_createReturnValue STATES.PARSING_ERROR (f_error_message file)
               DNull None),
     {| store := store w; stream_open := true; log := EvOpen :: log w |}).
Proof.
  intros Hparse. unfold import, call, bind, getContentStream, when.
  rewrite Hparse. reflexivity.
Qed.

(** The [missing_required_header] return (line 155) happens with the stream
    open. *)
Lemma import_missing_header {R} (this : Importer S) (file : File)
    (w : World S) :
  f_parses file = true ->
  _sloppy this = false ->
  hc_success (_validateHeaders this (f_headers file)) = false ->
  import (R := R) this file w
  = (Normal (_createReturnValue STATES.MISSING_REQUIRED_HEADER
               "One or more required headers are missing"
               (DMissing (hc_missing (_validateHeaders this (f_headers file))))
               None),
     {| store := store w; stream_open := true; log := EvOpen :: log w |}).
Proof.
  intros Hparse Hsloppy Hmissing.
  unfold import, call, bind, getContentStream, when.
  rewrite Hparse, Hsloppy. simpl. rewrite Hmissing. reflexivity.
Qed.

(** Past the two early returns, [import] is the loop and the [close]. *)
Lemma import_passed {R} (this : Importer S) (file : File) (w : World S) :
  f_parses file = true ->
  _sloppy this = true
  \/ hc_success (_validateHeaders this (f_headers file)) = true ->
  import (R := R) this file w
  = match import_rows (R := ImportResult) this (f_rows file) 2 [] (opened w)
    with
    | (Normal results, w') =>
        (Normal (_createReturnValue STATES.SUCCESS
                   "Import completed successfully" (DRows results)
                   (Some (List.length results))),
         closed w')
    | (Return result, w') => (Normal result, w')
    | (Throw e, w') => (Throw e, w')
    end.
Proof.
  intros Hparses Hheaders.
  unfold import, call, bind, getContentStream, when, parser_close, return_,
    ret.
  rewrite Hparses. simpl. fold (opened w).
  assert (Hcheck :
    negb (_sloppy this)
    && negb (hc_success (_validateHeaders this (f_headers file))) = false).
  { destruct Hheaders as [-> | ->]; [done | by rewrite andb_false_r]. }
  destruct (negb (_sloppy this)); [simpl in Hcheck; rewrite Hcheck |];
    by destruct (import_rows this (f_rows file) 2 [] (opened w))
      as [[results | result | e] w'].
Qed.

End Stream.

(** C2, the code at the failing inputs.  A file the parser rejects and a
    file without a required header both make [import] return with the stream
    still open and no [close] logged; the run that reaches the end of the
    rows closes it. *)
Theorem early_returns_leave_stream_open :
  let this := Sample.configured (require "Email") Sample.users in
  import (R := unit) this Sample.unreadable Sample.fresh
  = (Normal
       {| ir_success := false;
          ir_code := STATES.PARSING_ERROR;
          ir_message := "Not an XLSX file";
          ir_rows := 0;
          ir_data := DNull |},
     {| store := store Sample.fresh; stream_open := true; log := [EvOpen] |})
  /\ import (R := unit) this (Sample.file_of ["Name"] [Sample.ann])
       Sample.fresh
     = (Normal
          {| ir_success := false;
             ir_code := STATES.MISSING_REQUIRED_HEADER;
             ir_message := "One or more required headers are missing";
             ir_rows := 0;
             ir_data := DMissing ["email"] |},
        {| store := store Sample.fresh; stream_open := true;
           log := [EvOpen] |})
  /\ stream_open
       (snd (import (R := unit) this
               (Sample.file_of ["Name"; "Email"] [Sample.ann]) Sample.fresh))
     = false.
Proof. vm_compute. repeat split; reflexivity. Qed.

(** ** Coalescence *)

Section Coalescence.

Context {S : Type} `{RecordStore S}.

(** When every coalescing field is nil in the row, no condition is added. *)
Lemma coalescence_conditions_all_nil (this : Importer S) (data : JsObj) :
  Forall (fun field => gs_nil (obj_get field data) = true) (_coalescing this) ->
  coalescence_conditions this data = [].
Proof.
  unfold coalescence_conditions. generalize (_coalescing this).
  intros fields Hnil. induction Hnil as [| field fields Hfield _ IH]; simpl.
  - reflexivity.
  - by rewrite Hfield.
Qed.

End Coalescence.

(** C5, the code at the failing input.  With [u_email] as the only coalescing
    field and a row whose e-mail cell is empty, the query carries no
    condition, the first record of the table is taken as the match, and the
    row overwrites it instead of creating a record. *)
Theorem coalescence_without_values_matches_any_record :
  let this := Sample.configured (coalesce "u_email") Sample.users in
  let existing :=
    {| store :=
         {| records :=
              [("rec0",
                [("u_name", VStr "Old"); ("u_email", VStr "old@x.org")])];
            next_id := 1 |};
       stream_open := false;
       log := [] |} in
  let data := mapped_row this Sample.no_email in
  _coalescing this = ["u_email"]
  /\ gs_nil (obj_get "u_email" data) = true
  /\ coalescence_conditions this data = []
  /\ fst (_getCoalescenceRecord (R := unit) this data existing)
     = Normal (VStr "rec0")
  /\ fst (_parseRow (R := unit) this (Ok Sample.no_email) 2 existing)
     = Normal (_createRowResult 2 RCODES.SUCCESS None (VStr "rec0") None)
  /\ records (store (snd (_parseRow (R := unit) this (Ok Sample.no_email) 2
                            existing)))
     = [("rec0", [("u_name", VStr "Cid"); ("u_email", VNull)])].
Proof. vm_compute. repeat split; reflexivity. Qed.

(** ** Objects *)

Lemma obj_lookup_set_eq (k : string) (v : Value) (o : JsObj) :
  obj_lookup k (obj_set k v o) = Some v.
Proof.
  induction o as [| [k' v'] o IH]; simpl.
  - by rewrite decide_True.
  - destruct (decide (k' = k)) as [-> | Hne]; simpl.
    + by rewrite decide_True.
    + by rewrite decide_False.
Qed.

Lemma obj_lookup_set_ne (k k' : string) (v : Value) (o : JsObj) :
  k <> k' -> obj_lookup k (obj_set k' v o) = obj_lookup k o.
Proof.
  intros Hne. induction o as [| [k'' v''] o IH]; simpl.
  - by rewrite decide_False.
  - destruct (decide (k'' = k')) as [-> | Hne']; simpl.
    + by rewrite !decide_False.
    + destruct (decide (k'' = k)); [done | exact IH].
Qed.

Lemma obj_get_set_eq (k : string) (v : Value) (o : JsObj) :
  obj_get k (obj_set k v o) = v.
Proof. unfold obj_get. by rewrite obj_lookup_set_eq. Qed.

Lemma obj_get_set_ne (k k' : string) (v : Value) (o : JsObj) :
  k <> k' -> obj_get k (obj_set k' v o) = obj_get k o.
Proof. intros Hne. unfold obj_get. by rewrite obj_lookup_set_ne. Qed.

Lemma obj_lookup_not_key (k : string) (o : JsObj) :
  k ∉ obj_keys o -> obj_lookup k o = None.
Proof.
  unfold obj_keys. induction o as [| [k' v'] o IH]; simpl; [done |].
  intros Hnot. apply not_elem_of_cons in Hnot as [Hne Hnot].
  rewrite decide_False by done. by apply IH.
Qed.

Lemma obj_get_not_key (k : string) (o : JsObj) :
  k ∉ obj_keys o -> obj_get k o = VUndef.
Proof. intros Hnot. unfold obj_get. by rewrite obj_lookup_not_key. Qed.

Lemma obj_keys_set (k : string) (v : Value) (o : JsObj) (k' : string) :
  k' ∈ obj_keys (obj_set k v o) <-> k' = k \/ k' ∈ obj_keys o.
Proof.
  unfold obj_keys. induction o as [| [k'' v''] o IH]; simpl.
  - rewrite elem_of_cons, elem_of_nil. tauto.
  - destruct (decide (k'' = k)) as [-> | Hne]; simpl.
    + rewrite !elem_of_cons. tauto.
    + rewrite !elem_of_cons, IH. tauto.
Qed.

Lemma isEmptyRow_true (row : JsObj) :
  _isEmptyRow row = true
  <-> forall key, key ∈ obj_keys row -> gs_nil (obj_get key row) = true.
Proof.
  unfold _isEmptyRow. rewrite Nat.eqb_eq, length_zero_iff_nil.
  split.
  - intros Hnone key Hkey.
    destruct (gs_nil (obj_get key row)) eqn:Hnil; [done |].
    assert (Hin : key ∈ filter
              (fun key => negb (gs_nil (obj_get key row)) = true)
              (obj_keys row)).
    { apply list_elem_of_filter. by rewrite Hnil. }
    rewrite Hnone in Hin. by apply elem_of_nil in Hin.
  - intros Hall.
    destruct (filter (fun key => negb (gs_nil (obj_get key row)) = true)
                (obj_keys row)) as [| key rest] eqn:Hkept; [done |].
    assert (Hin : key ∈ filter
              (fun key => negb (gs_nil (obj_get key row)) = true)
              (obj_keys row)) by (rewrite Hkept; left).
    apply list_elem_of_filter in Hin as [Hvalue Hkey].
    rewrite (Hall key Hkey) in Hvalue. done.
Qed.

Lemma isEmptyRow_false (row : JsObj) (key : string) :
  gs_nil (obj_get key row) = false -> _isEmptyRow row = false.
Proof.
  intros Hvalue. destruct (_isEmptyRow row) eqn:Hempty; [| done].
  destruct (decide (key ∈ obj_keys row)) as [Hkey | Hkey].
  - rewrite isEmptyRow_true in Hempty.
    rewrite (Hempty key Hkey) in Hvalue. done.
  - rewrite (obj_get_not_key _ _ Hkey) in Hvalue. done.
Qed.

(** ** Frames *)

#[global] Instance anything_preorder {S : Type} : PreOrder (@anything S).
Proof. split; done. Qed.

#[global] Instance quiet_preorder {S : Type} : PreOrder (@quiet S).
Proof.
  split.
  - intros w. by repeat split.
  - intros w1 w2 w3 (Hs1 & Ho1 & Hl1) (Hs2 & Ho2 & Hl2).
    repeat split; congruence.
Qed.

#[global] Instance unwritten_preorder {S : Type} : PreOrder (@unwritten S).
Proof.
  split.
  - intros w. by split.
  - intros w1 w2 w3 (Ho1 & Hl1) (Ho2 & Hl2). split; congruence.
Qed.

Lemma triple_anything {S R A} (m : Stmt (World S) R A) :
  triple anything m (fun _ => True) (fun _ => True) (fun _ => True).
Proof. intros w. by destruct (m w) as [[a | r | e] w']. Qed.

Lemma anything_emit {S} (ev : Event) (w : World S) :
  is_write ev = false ->
  anything w {| store := store w; stream_open := stream_open w;
                log := ev :: log w |}.
Proof. done. Qed.

Lemma anything_user {S} (w : World S) (s' : S) :
  True -> anything w (with_store s' w).
Proof. done. Qed.

Lemma quiet_emit {S} (ev : Event) (w : World S) :
  is_write ev = false ->
  quiet w {| store := store w; stream_open := stream_open w;
             log := ev :: log w |}.
Proof.
  intros Hev. repeat split. simpl. unfold writes.
  rewrite filter_cons_False; [done | by rewrite Hev].
Qed.

Lemma quiet_user {S} (w : World S) (s' : S) :
  store w = s' -> quiet w (with_store s' w).
Proof. intros <-. by repeat split. Qed.

Lemma unwritten_emit {S} (ev : Event) (w : World S) :
  is_write ev = false ->
  unwritten w {| store := store w; stream_open := stream_open w;
                 log := ev :: log w |}.
Proof.
  intros Hev. split; [done |]. simpl. unfold writes.
  rewrite filter_cons_False; [done | by rewrite Hev].
Qed.

Lemma unwritten_user {S} (w : World S) (s' : S) :
  True -> unwritten w (with_store s' w).
Proof. by split. Qed.

(** ** The row as a whole *)

Section Rows.

Context {S : Type} `{RecordStore S}.

Lemma ignoreRowHeaders_get (this : Importer S) (row : JsObj) (k : string) :
  obj_get k (_ignoreRowHeaders this row)
  = if includes k (_ignored this) then VUndef else obj_get k row.
Proof.
  unfold _ignoreRowHeaders.
  assert (Hfold : forall l acc,
    obj_get k
      (foldl (fun data header =>
                if includes header (_ignored this) then data
                else obj_set header (obj_get header row) data) acc l)
    = if bool_decide (k ∈ l) && negb (includes k (_ignored this))
      then obj_get k row else obj_get k acc).
  { induction l as [| h l IH]; intros acc.
    - done.
    - cbn [foldl]. rewrite IH. destruct (decide (k = h)) as [-> | Hne].
      + rewrite (bool_decide_eq_true_2 (h ∈ h :: l)) by left.
        destruct (includes h (_ignored this)); simpl.
        * by rewrite andb_false_r.
        * rewrite obj_get_set_eq. by destruct (bool_decide (h ∈ l)).
      + assert (Hsame : bool_decide (k ∈ h :: l) = bool_decide (k ∈ l)).
        { apply bool_decide_ext. rewrite elem_of_cons. tauto. }
        rewrite Hsame.
        destruct (bool_decide (k ∈ l) && negb (includes k (_ignored this)));
          [done |].
        destruct (includes h (_ignored this)); [done |].
        by rewrite obj_get_set_ne. }
  rewrite Hfold. destruct (includes k (_ignored this)); simpl.
  - by rewrite andb_false_r.
  - rewrite andb_true_r. case_bool_decide as Hkey; [done |].
    by rewrite (obj_get_not_key _ _ Hkey).
Qed.

(** A row without any value is mapped to a row without any value. *)
Lemma mapHeadersToFields_nil (this : Importer S) (row : JsObj) :
  (forall key, gs_nil (obj_get key row) = true) ->
  forall field, gs_nil (obj_get field (_mapHeadersToFields this row)) = true.
Proof.
  intros Hnil field. unfold _mapHeadersToFields.
  assert (Hfold : forall l acc,
    gs_nil (obj_get field acc) = true ->
    gs_nil (obj_get field
      (foldl (fun data header =>
                match _mappings this !! _normalize header with
                | None => data
                | Some field' =>
                    if negb (truthy (VStr field')) then data
                    else obj_set field' (obj_get header row) data
                end) acc l)) = true).
  { induction l as [| h l IH]; intros acc Hacc; [exact Hacc |].
    cbn [foldl]. apply IH.
    destruct (_mappings this !! _normalize h) as [field' |]; [| exact Hacc].
    destruct (negb (truthy (VStr field'))); [exact Hacc |].
    destruct (decide (field = field')) as [-> | Hne].
    - rewrite obj_get_set_eq. apply Hnil.
    - by rewrite obj_get_set_ne. }
  by apply Hfold.
Qed.

(** A statement that always completes normally. *)
Lemma triple_anything_normal {R A} (m : Stmt (World S) R A) (P : R -> Prop)
    (E : Thrown -> Prop) :
  (forall w, exists a w', m w = (Normal a, w')) ->
  triple anything m (fun _ => True) P E.
Proof. intros Hm w. by destruct (Hm w) as (a & w' & ->). Qed.

(** What [_createUpdateRecord] throws is what the [onCoalesce] callback
    throws. *)
Lemma triple_createUpdateRecord {R} (this : Importer S) (row : JsObj)
    (P : R -> Prop) (E : Thrown -> Prop) :
  throws E this ->
  triple anything (_createUpdateRecord this row) (fun _ => True) P E.
Proof.
  intros Hthrows. unfold _createUpdateRecord. apply (triple_call anything).
  eapply (triple_bind anything) with (Q1 := fun _ => True).
  - unfold _getCoalescenceRecord. apply (triple_call anything).
    eapply (triple_bind anything) with (Q1 := fun _ => True).
    { apply (triple_when anything); [| done]. intros _.
      by apply (triple_return anything). }
    intros _ _. eapply (triple_bind anything) with (Q1 := fun _ => True).
    { by apply (triple_get_store anything). }
    intros s _. eapply (triple_bind anything) with (Q1 := fun _ => True).
    { by apply triple_anything_normal; eauto. }
    intros _ _. eapply (triple_bind anything) with (Q1 := fun _ => True).
    { apply (triple_for_each anything). intros sys_id _.
      eapply (triple_bind anything) with (Q1 := fun _ => True).
      { by apply (triple_triggerEvent anything (fun _ _ => True) E
                    anything_emit anything_user this (keeps_anything this)
                    Hthrows). }
      intros reply _. apply (triple_when anything); [| done].
      intros _. by apply (triple_return anything). }
    intros _ _. by apply (triple_return anything).
  - intros sys_id _. eapply (triple_bind anything) with (Q1 := fun _ => True).
    + destruct (gs_nil sys_id); apply triple_anything_normal; intros w.
      * unfold record_insert.
        destruct (gr_insert row (store w)) as [id s']. eauto.
      * unfold record_update.
        destruct (gr_update (to_js_string sys_id) row (store w)) as [id s'].
        eauto.
    + intros id _. by apply (triple_return anything).
Qed.

(** Every result [_parseRow_persist] returns is the skipped-event result of
    [onRowImported] or a success result. *)
Lemma triple_persist (this : Importer S) (index : nat) (row : JsObj)
    (P : RowResult -> Prop) (E : Thrown -> Prop) :
  throws E this ->
  P (_createRowResult index RCODES.SKIPPED_EVENT (Some "onRowImported")
       VUndef None) ->
  (forall target,
     P (_createRowResult index RCODES.SUCCESS None target None)) ->
  triple anything (_parseRow_persist this index row) (fun _ => False) P E.
Proof.
  intros Hthrows Hskipped Hsuccess. unfold _parseRow_persist.
  eapply (triple_bind anything) with (Q1 := fun _ => True).
  - destruct (negb (_virtual this)).
    + eapply (triple_bind anything) with (Q1 := fun _ => True).
      { by apply triple_createUpdateRecord. }
      intros sys_id _.
      eapply (triple_bind anything) with (Q1 := fun _ => True).
      { by apply (triple_row_event anything (fun _ _ => True) E
                    anything_emit anything_user this (keeps_anything this)
                    Hthrows). }
      intros _ _. by apply (triple_ret anything).
    + by apply (triple_ret anything).
  - intros sys_id _. apply (triple_return anything). apply Hsuccess.
Qed.

(** [_parseRow] always completes normally, with one of the six results. *)
Lemma triple_parseRow {R} (this : Importer S) (parser_getRow : Res JsObj)
    (index : nat) (P : RowResult -> Prop) (P' : R -> Prop)
    (E : Thrown -> Prop) :
  throws E this ->
  match parser_getRow with Ok _ => True | Raise t => E t end ->
  (forall raw, parser_getRow = Ok raw ->
     _isEmptyRow (_normalizeRowHeaders raw) = true ->
     P (_createRowResult index RCODES.SKIPPED_EMPTY None VUndef None)) ->
  (forall event,
     P (_createRowResult index RCODES.SKIPPED_EVENT (Some event) VUndef
          None)) ->
  (forall failure,
     P (_createRowResult index RCODES.SKIPPED_VALIDATION
          (Some (vf_message failure)) (VStr (vf_field failure)) None)) ->
  (forall target,
     P (_createRowResult index RCODES.SUCCESS None target None)) ->
  (forall ex, E ex ->
     P (_createRowResult index RCODES.ERROR None VNull (Some ex))) ->
  triple anything (_parseRow this parser_getRow index)
    P P' (fun _ => False).
Proof.
  intros Hthrows Hread Hempty Hevent Hvalidation Hsuccess Herror.
  unfold _parseRow, _parseRow_catch. apply (triple_call anything).
  eapply (triple_try_catch anything) with (E1 := E).
  - unfold _parseRow_body.
    eapply (triple_bind anything) with (Q1 := fun _ => True).
    + by apply (triple_prepare anything (fun _ _ => True) E anything_emit
                  anything_user this (keeps_anything this) Hthrows).
    + intros row _. eapply (triple_weaken anything);
        [apply (triple_persist this index row P E Hthrows);
           [apply Hevent | apply Hsuccess]
        | done | done | done].
  - intros ex Hex. apply (triple_return anything). by apply Herror.
Qed.

(** [_parseRow] is total: it never throws. *)
Lemma parseRow_total {R} (this : Importer S) (parser_getRow : Res JsObj)
    (index : nat) (w : World S) :
  exists result w',
    _parseRow (R := R) this parser_getRow index w = (Normal result, w').
Proof.
  pose proof (triple_parseRow (R := R) this parser_getRow index
                (fun _ => True) (fun _ => False) (fun _ => True)
                (throws_anything this)) as Hrow.
  specialize (Hrow ltac:(by destruct parser_getRow) ltac:(done) ltac:(done)
                ltac:(done) ltac:(done) ltac:(done) w).
  destruct (_parseRow this parser_getRow index w) as [[result | r | e] w'];
    [eauto | by destruct Hrow | by destruct Hrow].
Qed.

(** C10.  The empty-row check looks at the row with normalized headers,
    before ignored headers are removed and before mapping.  When the only
    non-nil values of such a row (its headers being plain names) lie under
    ignored headers (and there is one), the check does not see an empty row,
    although what is left after removing the ignored headers, and so the
    mapped row, has no value at all.  The row goes through the pipeline as any other: its result never
    carries the skipped-empty code; the [onRowRead] event is dispatched on
    the row with the values under the ignored headers; a callback that
    vetoes makes it a skipped-event result, a callback that throws an error
    result, and after any other value, or without callback, the statements
    after the event step run on the row the callback leaves, up to
    persistence. *)
Theorem ignored_values_are_not_empty (R : Type) (this : Importer S)
    (raw : JsObj) (index : nat) (w : World S) (header : string)
    (Hplain : plain_row raw = true)
    (Hignored : includes header (_ignored this) = true)
    (Hvalue : gs_nil (obj_get header (_normalizeRowHeaders raw)) = false)
    (Honly : forall key,
       gs_nil (obj_get key (_normalizeRowHeaders raw)) = false ->
       includes key (_ignored this) = true) :
  let row := _normalizeRowHeaders raw in
  let skipped :=
    {| rr_row := index;
       rr_code := RCODES.SKIPPED_EVENT;
       rr_message := VStr "Record skipped after result of event: onRowRead";
       rr_target := VNull;
       rr_error := None |} in
  _isEmptyRow row = false
  /\ _isEmptyRow (_ignoreRowHeaders this row) = true
  /\ (forall field,
        gs_nil (obj_get field
                  (_mapHeadersToFields this (_ignoreRowHeaders this row)))
        = true)
  /\ (exists result w',
        _parseRow (R := R) this (Ok raw) index w = (Normal result, w')
        /\ rr_code result <> RCODES.SKIPPED_EMPTY)
  /\ (forall v row' w',
        _triggerEvent (R := RowResult) this "onRowRead" (Some row)
          (Some index) VUndef w = (Normal (v, Some row'), w') ->
        _parseRow (R := R) this (Ok raw) index w
        = if vetoes v then (Normal skipped, w')
          else _parseRow_catch index
                 (row <- _parseRow_mapped this index
                           (_mapHeadersToFields this
                              (_ignoreRowHeaders this row')) ;;
                  _parseRow_persist this index row) w')
  /\ (forall t w',
        _triggerEvent (R := RowResult) this "onRowRead" (Some row)
          (Some index) VUndef w = (Throw t, w') ->
        _parseRow (R := R) this (Ok raw) index w
        = (Normal (error_result index t), w')).
Proof.
  intros row skipped.
  assert (Hnonempty : _isEmptyRow row = false)
    by (by apply (isEmptyRow_false row header)).
  assert (Hrest : forall key,
            gs_nil (obj_get key (_ignoreRowHeaders this row)) = true).
  { intros key. rewrite ignoreRowHeaders_get.
    destruct (includes key (_ignored this)) eqn:Hkey; [done |].
    destruct (gs_nil (obj_get key row)) eqn:Hnil; [done |].
    apply Honly in Hnil. congruence. }
  split; [exact Hnonempty |]. split; [| split; [| split; [| split]]].
  - apply isEmptyRow_true. intros key _. apply Hrest.
  - by apply mapHeadersToFields_nil.
  - pose proof (triple_parseRow (R := R) this (Ok raw) index
                  (fun result => rr_code result <> RCODES.SKIPPED_EMPTY)
                  (fun _ => False) (fun _ => True) (throws_anything this))
      as Hrow.
    specialize (Hrow I
      ltac:(intros raw' [= <-] Hempty; fold row in Hempty; congruence)
      ltac:(done) ltac:(done) ltac:(done) ltac:(done) w).
    destruct (_parseRow this (Ok raw) index w) as [[result | r | e] w'];
      [| by destruct Hrow | by destruct Hrow].
    exists result, w'. by destruct Hrow.
  - intros v row' w' Hdispatch.
    rewrite (parseRow_not_empty this raw index w Hnonempty). fold row.
    destruct (vetoes v) eqn:Hveto.
    + apply parseRow_catch_returns. unfold bind at 1 2.
      by rewrite (row_event_run _ _ _ _ _ _ _ _ _ Hdispatch), Hveto.
    + apply parseRow_catch_ext. unfold bind at 1 2.
      by rewrite (row_event_run _ _ _ _ _ _ _ _ _ Hdispatch), Hveto.
  - intros t w' Hdispatch.
    rewrite (parseRow_not_empty this raw index w Hnonempty). fold row.
    unfold _parseRow_catch, call, try_catch, bind at 1 2, row_event,
      bind at 1.
    by rewrite Hdispatch.
Qed.

End Rows.

Lemma ignored_values_are_not_empty_witness :
  let this :=
    Sample.configured
      (ignore "Notes" ;; callback "onRowRead" (Sample.returning (VBool false)))
      Sample.users in
  let raw := [("Name", VNull); ("Notes", VStr "call back")] in
  _parseRow (R := unit) this (Ok raw) 2 Sample.fresh
  = (Normal
       {| rr_row := 2;
          rr_code := RCODES.SKIPPED_EVENT;
          rr_message :=
            VStr "Record skipped after result of event: onRowRead";
          rr_target := VNull;
          rr_error := None |},
     logged
       (EvCallback "onrowread"
          (payload_of (Some [("name", VNull); ("notes", VStr "call back")])
             (Some 2) VUndef))
       Sample.fresh).
Proof.
  intros this raw.
  refine (proj1 (proj2 (proj2 (proj2 (proj2
            (ignored_values_are_not_empty unit this raw 2 Sample.fresh
               "notes" _ _ _ _))))) (VBool false)
            [("name", VNull); ("notes", VStr "call back")] _ _).
  - vm_compute. reflexivity.
  - vm_compute. reflexivity.
  - vm_compute. reflexivity.
  - intros key Hkey. destruct (decide (key = "notes")) as [-> | Hne].
    + vm_compute. reflexivity.
    + exfalso. revert Hkey.
      replace (_normalizeRowHeaders raw)
        with [("name", VNull); ("notes", VStr "call back")]
        by (vm_compute; reflexivity).
      unfold obj_get. simpl. destruct (decide ("name" = key)); [done |].
      rewrite decide_False by done. done.
  - vm_compute. reflexivity.
Defined.

(** Such a row, with nothing else configured, ends as a success and leaves
    a record without any value in the table. *)
Example ignored_values_import_blank_record :
  _parseRow (R := unit) (Sample.configured (ignore "Notes") Sample.users)
    (Ok [("Name", VNull); ("Notes", VStr "call back")]) 2 Sample.fresh
  = (Normal (_createRowResult 2 RCODES.SUCCESS None (VStr "rec0") None),
     {| store := {| records := [("rec0", [("u_name", VNull)])];
                    next_id := 1 |};
        stream_open := false;
        log := [EvInsert [("u_name", VNull)]] |}).
Proof. vm_compute. reflexivity. Qed.

(** ** The loop over the rows *)

Section Loop.

Context {S : Type} `{RecordStore S}.


(** The result of a row can be serialised when what is thrown can. *)
Lemma parseRow_serialisable {R} (this : Importer S)
    (parser_getRow : Res JsObj) (index : nat) (w w' : World S)
    (result : RowResult) :
  throws (fun t => serialisable t = true) this ->
  match parser_getRow with
  | Ok _ => True
  | Raise t => serialisable t = true
  end ->
  _parseRow (R := R) this parser_getRow index w = (Normal result, w') ->
  stringify result = Ok tt.
Proof.
  intros Hthrows Hread Hrun.
  pose proof (triple_parseRow (R := R) this parser_getRow index
                (fun result => stringify result = Ok tt) (fun _ => False)
                (fun t => serialisable t = true) Hthrows Hread) as Hrow.
  specialize (Hrow ltac:(done) ltac:(done) ltac:(done) ltac:(done)).
  assert (Herror : forall ex, serialisable ex = true ->
            stringify (_createRowResult index RCODES.ERROR None VNull
                         (Some ex)) = Ok tt).
  { intros [e [|] | v] Hex; try done. unfold stringify. simpl.
    by destruct (truthy v). }
  specialize (Hrow Herror w). rewrite Hrun in Hrow. by destruct Hrow.
Qed.

(** The results gathered so far are a prefix of the results of the loop. *)
Lemma import_rows_acc {R} (this : Importer S) (rows : list (Res JsObj))
    (index : nat) (acc : list RowResult) (w : World S) :
  import_rows (R := R) this rows index acc w
  = match import_rows (R := R) this rows index [] w with
    | (Normal results, w') => (Normal (acc ++ results), w')
    | other => other
    end.
Proof.
  revert index acc w. induction rows as [| r rows IH]; intros index acc w.
  - simpl. unfold ret. by rewrite app_nil_r.
  - cbn [import_rows]. unfold bind at 1 3.
    destruct (parseRow_total (R := R) this r index w) as (obj & w1 & Hrow).
    rewrite Hrow. unfold bind. destruct (stringify obj); simpl; [| done].
    rewrite (IH (Datatypes.S index) (acc ++ [obj])).
    rewrite (IH (Datatypes.S index) [obj]).
    destruct (import_rows this rows (Datatypes.S index) [] w1)
      as [[results | r' | t] w']; [| done | done].
    by rewrite <- app_assoc.
Qed.

(** The loop never completes with [return]. *)
Lemma import_rows_not_return {R} (this : Importer S)
    (rows : list (Res JsObj)) (index : nat) (acc : list RowResult)
    (w w' : World S) (r : R) :
  import_rows (R := R) this rows index acc w = (Return r, w') -> False.
Proof.
  revert index acc w. induction rows as [| row rows IH]; intros index acc w.
  - done.
  - cbn [import_rows]. unfold bind at 1.
    destruct (parseRow_total (R := R) this row index w)
      as (obj & w1 & Hrow).
    rewrite Hrow. unfold bind. destruct (stringify obj); simpl; [| done].
    apply IH.
Qed.



(** When whatever is thrown can be serialised, the loop yields one result
    per row, whatever the rows do. *)
Lemma import_rows_total {R} (this : Importer S) (rows : list (Res JsObj))
    (index : nat) (w : World S) :
  throws (fun t => serialisable t = true) this ->
  readable rows ->
  exists results w',
    (forall acc,
       import_rows (R := R) this rows index acc w
       = (Normal (acc ++ results), w'))
    /\ List.length results = List.length rows.
Proof.
  intros Hthrows Hrows. revert index w.
  induction Hrows as [| r rows Hr _ IH]; intros index w.
  - exists [], w. split; [| done]. intros acc. simpl. by rewrite app_nil_r.
  - destruct (parseRow_total (R := R) this r index w) as (obj & w1 & Hrow).
    destruct (IH (Datatypes.S index) w1) as (results & w' & Hrest & Hlen).
    exists (obj :: results), w'. split; [| simpl; by rewrite Hlen].
    intros acc. cbn [import_rows]. unfold bind at 1. rewrite Hrow.
    rewrite (parseRow_serialisable this r index w w1 obj Hthrows Hr Hrow).
    unfold bind. simpl. rewrite Hrest. by rewrite <- app_assoc.
Qed.


End Loop.



(** The steps that can throw: reading the row, a callback, a validation
    method, a transform method.  Each ends the row with the error result. *)
Example throwing_steps_end_in_error :
  fst (_parseRow (R := unit) Sample.users (Raise Sample.boom) 2 Sample.fresh)
  = Normal (error_result 2 Sample.boom)
  /\ fst (_parseRow (R := unit)
            (Sample.configured
               (callback "onRowValidated" (Sample.failing Sample.boom))
               Sample.users)
            (Ok Sample.ann) 2 Sample.fresh)
     = Normal (error_result 2 Sample.boom)
  /\ fst (_parseRow (R := unit)
            (Sample.configured
               (validate "u_email"
                  (reading_validation (fun _ _ _ => Raise Sample.boom))
                  "never")
               Sample.users)
            (Ok Sample.ann) 2 Sample.fresh)
     = Normal (error_result 2 Sample.boom)
  /\ fst (_parseRow (R := unit) Sample.typed (Ok Sample.numeric_active) 2
            Sample.fresh)
     = Normal (error_result 2 (type_error "value.trim is not a function"))
  /\ fst (_parseRow (R := unit)
            (Sample.configured
               (callback "onRowImported" (Sample.failing Sample.boom))
               Sample.users)
            (Ok Sample.ann) 2 Sample.fresh)
     = Normal (error_result 2 Sample.boom).
Proof. vm_compute. repeat split; reflexivity. Qed.

(** ** Validation *)

Lemma bind_ext {W R A B} (m m' : Stmt W R A) (k k' : A -> Stmt W R B) (w : W) :
  (forall w, m w = m' w) -> (forall a w, k a w = k' a w) ->
  bind m k w = bind m' k' w.
Proof.
  intros Hm Hk. unfold bind. rewrite Hm.
  destruct (m' w) as [[a | r | e] w1]; [apply Hk | done | done].
Qed.

Lemma for_each_app {W R X} (l1 l2 : list X) (body : X -> Stmt W R unit)
    (w : W) :
  for_each (l1 ++ l2) body w = (for_each l1 body ;; for_each l2 body) w.
Proof.
  revert w. induction l1 as [| x l1 IH]; intros w; simpl.
  - reflexivity.
  - unfold bind. destruct (body x w) as [[[] | r | e] w1]; [| done | done].
    rewrite IH. reflexivity.
Qed.

Lemma fold_each_app {W R X A} (l1 l2 : list X) (acc : A)
    (body : A -> X -> Stmt W R A) (w : W) :
  fold_each (l1 ++ l2) acc body w
  = (acc' <- fold_each l1 acc body ;; fold_each l2 acc' body) w.
Proof.
  revert acc w. induction l1 as [| x l1 IH]; intros acc w; simpl.
  - reflexivity.
  - unfold bind. destruct (body acc x w) as [[acc' | r | e] w1];
      [| done | done].
    rewrite IH. reflexivity.
Qed.

Lemma fold_each_i_flat {W R X Y A} (l : list X) (i : nat) (acc : A)
    (body : nat -> A -> X -> Stmt W R A) (g : nat -> X -> Y)
    (body' : A -> Y -> Stmt W R A) (w : W) :
  (forall j acc x, body' acc (g j x) = body j acc x) ->
  fold_each_i i l acc body w
  = fold_each (imap (fun j x => g (i + j) x) l) acc body' w.
Proof.
  intros Hbody. revert i acc w.
  induction l as [| x l IH]; intros i acc w; simpl.
  - reflexivity.
  - apply bind_ext.
    + intros w'. rewrite Nat.add_0_r. by rewrite Hbody.
    + intros acc' w'. rewrite IH. f_equal. apply imap_ext.
      intros j y _. simpl. f_equal. lia.
Qed.

Section Validation.

Context {S : Type} `{RecordStore S}.

Lemma validateRowValues_flat {R} (this : Importer S) (row : JsObj)
    (w : World S) :
  _validateRowValues (R := R) this row w
  = call (row' <- fold_each (validation_schedule this row) row
                    validate_entry ;;
          return_ (None, row')) w.
Proof.
  unfold _validateRowValues, call.
  match goal with
  | |- (let (_, _) := ?a in _) = (let (_, _) := ?b in _) =>
      assert (Hsame : a = b); [| by rewrite Hsame]
  end.
  apply bind_ext; [| done]. clear w. unfold validation_schedule.
  generalize row at 2 4 as acc.
  induction (obj_keys row) as [| field fields IH]; intros acc w.
  - reflexivity.
  - cbn [fold_each fmap list_fmap List.concat]. rewrite fold_each_app.
    apply bind_ext; [| intros acc' w'; apply IH].
    intros w'. destruct (_validations this !! field) as [farray |].
    + by apply (fold_each_i_flat farray 0 acc _
                  (fun j entry => (field, j, entry)) validate_entry).
    + reflexivity.
Qed.

Lemma validate_entry_passes (row : JsObj) (field : string) (j : nat)
    (entry : Validation S) (w : World S) (v : Value) (row' : JsObj)
    (s' : S) :
  v_method entry row field (store w) = (Ok (v, row'), s') ->
  truthy v = true ->
  validate_entry row (field, j, entry) w
  = (Normal row', with_store s' (logged (EvValidate field j) w)).
Proof.
  intros Hv Htruthy. unfold validate_entry, bind, emit, call_user. simpl.
  rewrite Hv. simpl. by rewrite Htruthy.
Qed.

Lemma validate_entry_fails (row : JsObj) (field : string) (j : nat)
    (entry : Validation S) (w : World S) (v : Value) (row' : JsObj)
    (s' : S) :
  v_method entry row field (store w) = (Ok (v, row'), s') ->
  truthy v = false ->
  validate_entry row (field, j, entry) w
  = (Return (Some {| vf_message := v_message entry; vf_field := field |},
             row'),
     with_store s' (logged (EvValidate field j) w)).
Proof.
  intros Hv Htruthy. unfold validate_entry, bind, emit, call_user. simpl.
  rewrite Hv. simpl. by rewrite Htruthy.
Qed.

(** Running a schedule of which every entry passes. *)
Lemma schedule_passes (schedule : list (string * nat * Validation S))
    (row : JsObj) (w : World S) (row' : JsObj) (s' : S) :
  validators_pass schedule row (store w) = Some (row', s') ->
  fold_each schedule row validate_entry w
  = (Normal row' : Completion (option ValidationFailure * JsObj) JsObj,
     {| store := s';
        stream_open := stream_open w;
        log := reverse (validation_event <$> schedule) ++ log w |}).
Proof.
  revert row w. induction schedule as [| [[f' j'] e'] schedule IH];
    intros row w Hpass.
  - simpl in Hpass. injection Hpass as <- <-. by destruct w.
  - cbn [validators_pass] in Hpass.
    destruct (v_method e' row f' (store w)) as [[[v1 row1] | t] s1] eqn:Hv1;
      [| discriminate].
    destruct (truthy v1) eqn:Htrue; [| discriminate].
    cbn [fold_each]. unfold bind.
    rewrite (validate_entry_passes _ _ _ _ _ v1 row1 s1) by done.
    rewrite (IH row1 (with_store s1 (logged (EvValidate f' j') w)))
      by exact Hpass.
    simpl. rewrite reverse_cons, <- app_assoc. reflexivity.
Qed.

(** Running the schedule up to the first entry that fails. *)
Lemma schedule_stops_at_first_failure (row : JsObj)
    (pre post : list (string * nat * Validation S)) (field : string)
    (j : nat) (entry : Validation S) (w : World S) (row1 : JsObj) (s1 : S)
    (v : Value) (row2 : JsObj) (s2 : S) :
  validators_pass pre row (store w) = Some (row1, s1) ->
  v_method entry row1 field s1 = (Ok (v, row2), s2) ->
  truthy v = false ->
  fold_each (pre ++ (field, j, entry) :: post) row validate_entry w
  = (Return (Some {| vf_message := v_message entry; vf_field := field |},
             row2),
     {| store := s2;
        stream_open := stream_open w;
        log := EvValidate field j
               :: reverse (validation_event <$> pre) ++ log w |}).
Proof.
  intros Hpre Hv Hfalse. rewrite fold_each_app. unfold bind at 1.
  rewrite (schedule_passes pre row w row1 s1 Hpre).
  cbn [fold_each]. unfold bind.
  by rewrite (validate_entry_fails _ _ _ _ _ v row2 s2).
Qed.

(** A field of the mapped row is never the empty string: line 691 drops
    the header otherwise. *)
Lemma mapHeadersToFields_keys (this : Importer S) (row : JsObj)
    (field : string) :
  field ∈ obj_keys (_mapHeadersToFields this row) -> field <> "".
Proof.
  unfold _mapHeadersToFields.
  assert (Hfold : forall l acc,
    (forall k, k ∈ obj_keys acc -> k <> "") ->
    forall k,
      k ∈ obj_keys
            (foldl (fun data header =>
                      match _mappings this !! _normalize header with
                      | None => data
                      | Some field =>
                          if negb (truthy (VStr field)) then data
                          else obj_set field (obj_get header row) data
                      end) acc l) ->
      k <> "").
  { induction l as [| h l IH]; intros acc Hacc; [exact Hacc |].
    cbn [foldl]. apply IH.
    destruct (_mappings this !! _normalize h) as [target |]; [| exact Hacc].
    destruct (negb (truthy (VStr target))) eqn:Htarget; [exact Hacc |].
    intros k Hk. apply obj_keys_set in Hk as [-> | Hk]; [| by apply Hacc].
    simpl in Htarget. by destruct (decide (target = "")). }
  apply Hfold. intros k Hk. by apply elem_of_nil in Hk.
Qed.

Lemma validation_schedule_field (this : Importer S) (row : JsObj)
    (field : string) (j : nat) (entry : Validation S) :
  (field, j, entry) ∈ validation_schedule this row -> field ∈ obj_keys row.
Proof.
  unfold validation_schedule. induction (obj_keys row) as [| f fields IH].
  - intros Hin. by apply elem_of_nil in Hin.
  - cbn [fmap list_fmap List.concat]. rewrite elem_of_app.
    intros [Hhere | Hlater]; [| right; by apply IH].
    destruct (_validations this !! f) as [farray |];
      [| by apply elem_of_nil in Hhere].
    apply elem_of_lookup_imap in Hhere as (i & e & Heq & _).
    simplify_eq. left.
Qed.

(** C7, as amended.  With sloppy mode off, for a row that gets to
    validation, on the row as the [onRowValidating] callback leaves it: the
    validation methods are called field by field in the order of the row's
    keys, and for one field in the order they were registered, each on the
    row and in the state the one before leaves.  When every method scheduled
    before one returns a truthy value and that one returns a falsy value
    ([false], and also [0], the empty string, [null] and [undefined]),
    [_validateRowValues] stops there: the log shows the calls up to and
    including it and no later one, and [_parseRow] returns the
    skipped-validation result whose message is that method's message and
    whose target is the field. *)
Theorem first_failing_validator_decides (R : Type) (this : Importer S)
    (raw : JsObj) (index : nat) (w w1 w2 : World S) (row0 row : JsObj)
    (v0 : Value) (pre post : list (string * nat * Validation S))
    (field : string) (j : nat) (entry : Validation S) (row1 : JsObj)
    (s1 : S) (v : Value) (row2 : JsObj) (s2 : S)
    (Hreaches : reaches this raw index w "onRowValidating" row0 w1)
    (Hvalidating : _triggerEvent (R := RowResult) this "onRowValidating"
                     (Some row0) (Some index) VUndef w1
                   = (Normal (v0, Some row), w2))
    (Hcontinues : vetoes v0 = false)
    (Hplain : plain_row row = true)
    (Hschedule : validation_schedule this row
                 = pre ++ (field, j, entry) :: post)
    (Hfield : field <> "")
    (Hpre : validators_pass pre row (store w2) = Some (row1, s1))
    (Hfails : v_method entry row1 field s1 = (Ok (v, row2), s2))
    (Hfalsy : truthy v = false) :
  let stopped :=
    {| store := s2;
       stream_open := stream_open w2;
       log := EvValidate field j
              :: reverse (validation_event <$> pre) ++ log w2 |} in
  _validateRowValues (R := R) this row w2
  = (Normal (Some {| vf_message := v_message entry; vf_field := field |},
             row2),
     stopped)
  /\ _parseRow (R := R) this (Ok raw) index w
     = (Normal
          {| rr_row := index;
             rr_code := RCODES.SKIPPED_VALIDATION;
             rr_message := VStr (v_message entry);
             rr_target := VStr field;
             rr_error := None |},
        stopped).
Proof.
  intros stopped.
  assert (Hrun : forall R',
    _validateRowValues (R := R') this row w2
    = (Normal (Some {| vf_message := v_message entry; vf_field := field |},
               row2),
       stopped)).
  { intros R'. rewrite validateRowValues_flat, Hschedule.
    unfold call, bind at 1.
    by rewrite (schedule_stops_at_first_failure _ _ _ _ _ _ _ row1 s1 v
                  row2 s2). }
  split; [by apply Hrun |].
  rewrite (reaches_run _ _ _ _ _ _ _ Hreaches).
  apply parseRow_catch_returns. unfold bind at 1 2.
  rewrite (row_event_run _ _ _ _ _ _ _ _ _ Hvalidating), Hcontinues.
  unfold _parseRow_after. simpl.
  unfold _parseRow_validate, bind at 1. rewrite (Hrun RowResult).
  simpl. unfold _createRowResult. simpl.
  unfold js_or. simpl. by destruct (decide (field = "")).
Qed.

End Validation.

Lemma first_failing_validator_decides_witness :
  _parseRow (R := unit) Sample.checked (Ok Sample.no_email) 5 Sample.fresh
  = (Normal
       {| rr_row := 5;
          rr_code := RCODES.SKIPPED_VALIDATION;
          rr_message := VStr "Email is mandatory";
          rr_target := VStr "u_email";
          rr_error := None |},
     {| store := store Sample.fresh;
        stream_open := false;
        log := [EvValidate "u_email" 0; EvValidate "u_name" 0] |}).
Proof.
  assert (Hread :
    reaches Sample.checked Sample.no_email 5 Sample.fresh "onRowRead"
      (_normalizeRowHeaders Sample.no_email) Sample.fresh).
  { apply reaches_read; vm_compute; reflexivity. }
  assert (Hvalidating :
    reaches Sample.checked Sample.no_email 5 Sample.fresh "onRowValidating"
      (mapped_row Sample.checked Sample.no_email) Sample.fresh).
  { apply (reaches_validating Sample.checked Sample.no_email 5 Sample.fresh
             (_normalizeRowHeaders Sample.no_email) Sample.fresh VNull
             (_normalizeRowHeaders Sample.no_email) Sample.fresh Hread);
      vm_compute; reflexivity. }
  refine (proj2
            (first_failing_validator_decides unit Sample.checked
               Sample.no_email 5 Sample.fresh Sample.fresh Sample.fresh
               (mapped_row Sample.checked Sample.no_email)
               (mapped_row Sample.checked Sample.no_email) VNull
               [("u_name", 0, Sample.name_is_mandatory)]
               [("u_email", 1, Sample.email_is_known)]
               "u_email" 0 Sample.email_is_mandatory
               (mapped_row Sample.checked Sample.no_email)
               (store Sample.fresh) (VBool false)
               (mapped_row Sample.checked Sample.no_email)
               (store Sample.fresh)
               Hvalidating _ _ _ _ _ _ _ _));
    try (vm_compute; reflexivity).
  discriminate.
Defined.

(** C7, counterexample.  The method registered for the name returns
    [undefined], the method registered for the e-mail returns [false].  The
    row is decided by the first of the two, which did not return [false]:
    the result carries its message and its field, and the method that
    returns [false] is never called. *)
Theorem undefined_fails_validation :
  VUndef <> VBool false
  /\ _parseRow (R := unit) Sample.forgetful (Ok Sample.ann) 2 Sample.fresh
     = (Normal
          {| rr_row := 2;
             rr_code := RCODES.SKIPPED_VALIDATION;
             rr_message := VStr "Name was not checked";
             rr_target := VStr "u_name";
             rr_error := None |},
        {| store := store Sample.fresh;
           stream_open := false;
           log := [EvValidate "u_name" 0] |}).
Proof. split; [discriminate | vm_compute; reflexivity]. Qed.

(** A callback for [onRowValidating] that fills the e-mail in: validation
    looks at the row as the callback leaves it, and the record is written
    with the value the callback assigned. *)
Example validating_callback_changes_the_row :
  fst (_parseRow (R := unit) Sample.filling (Ok Sample.no_email) 2
         Sample.fresh)
  = Normal (_createRowResult 2 RCODES.SUCCESS None (VStr "rec0") None)
  /\ records (store (snd (_parseRow (R := unit) Sample.filling
                            (Ok Sample.no_email) 2 Sample.fresh)))
     = [("rec0", [("u_name", VStr "Cid"); ("u_email", VStr "none@x.org")])]
  /\ fst (_parseRow (R := unit) Sample.checked (Ok Sample.no_email) 2
            Sample.fresh)
     = Normal (_createRowResult 2 RCODES.SKIPPED_VALIDATION
                 (Some "Email is mandatory") (VStr "u_email") None).
Proof. vm_compute. repeat split; reflexivity. Qed.

(** ** Virtual mode *)

Section Virtual.

Context {S : Type} `{RecordStore S}.















(** In virtual mode persistence is skipped. *)
Lemma persist_virtual (this : Importer S) (index : nat) (row : JsObj)
    (w : World S) :
  _virtual this = true ->
  _parseRow_persist this index row w
  = (Return (_createRowResult index RCODES.SUCCESS None VNull None), w).
Proof.
  intros Hmode. unfold _parseRow_persist. rewrite Hmode. reflexivity.
Qed.

(** In virtual mode a row leaves the world within any frame that the log
    of what is not a write and the caller's functions stay in. *)
Lemma parseRow_virtual_frame {R} (F : World S -> World S -> Prop)
    `{!PreOrder F} (changes : S -> S -> Prop) (this : Importer S)
    (parser_getRow : Res JsObj) (index : nat) (w : World S) :
  (forall ev w, is_write ev = false ->
     F w {| store := store w; stream_open := stream_open w;
            log := ev :: log w |}) ->
  (forall w s', changes (store w) s' -> F w (with_store s' w)) ->
  keeps changes this ->
  _virtual this = true ->
  exists result w',
    _parseRow (R := R) this parser_getRow index w = (Normal result, w')
    /\ F w w' /\ virtual_target result.
Proof.
  intros F_emit F_user Hkeeps Hmode.
  pose proof (triple_prepare F changes (fun _ => True) F_emit F_user this
                Hkeeps (throws_anything this) parser_getRow index
                virtual_target) as Hframe.
  specialize (Hframe ltac:(by destruct parser_getRow) ltac:(by left)
                ltac:(by left) ltac:(by right) w).
  unfold _parseRow, _parseRow_catch, call, try_catch, _parseRow_body, bind.
  destruct (_parseRow_prepare this parser_getRow index w)
    as [[row | result | ex] w1].
  - rewrite persist_virtual by exact Hmode.
    eexists _, _. split; [reflexivity |]. split; [apply Hframe | by left].
  - eexists _, _. split; [reflexivity |]. exact Hframe.
  - eexists _, _. split; [reflexivity |]. split; [apply Hframe | by left].
Qed.

Lemma import_rows_virtual_frame {R} (F : World S -> World S -> Prop)
    `{!PreOrder F} (changes : S -> S -> Prop) (this : Importer S)
    (rows : list (Res JsObj)) (index : nat) (acc : list RowResult)
    (w : World S) :
  (forall ev w, is_write ev = false ->
     F w {| store := store w; stream_open := stream_open w;
            log := ev :: log w |}) ->
  (forall w s', changes (store w) s' -> F w (with_store s' w)) ->
  keeps changes this ->
  _virtual this = true ->
  Forall virtual_target acc ->
  F w (snd (import_rows (R := R) this rows index acc w))
  /\ match fst (import_rows (R := R) this rows index acc w) with
     | Normal results => Forall virtual_target results
     | _ => True
     end.
Proof.
  intros F_emit F_user Hkeeps Hmode. revert index acc w.
  induction rows as [| r rows IH]; intros index acc w Hacc.
  - simpl. split; [reflexivity | exact Hacc].
  - cbn [import_rows]. unfold bind at 1 3.
    destruct (parseRow_virtual_frame (R := R) F changes this r index w
                F_emit F_user Hkeeps Hmode)
      as (result & w1 & -> & Hframe & Htarget).
    unfold bind. destruct (stringify result); simpl; [| done].
    destruct (IH (Datatypes.S index) (acc ++ [result]) w1) as [Hrest Hall].
    { apply Forall_app. split; [exact Hacc | by constructor]. }
    split; [by etransitivity | exact Hall].
Qed.





End Virtual.



(** What the caller's functions share counts as well.  A callback for
    [onRowImported] that counts the rows imported, and a callback for
    [onRowRead] that returns whether none was: the non-virtual run skips the
    second row, the virtual run imports both. *)
Example shared_counter_changes_the_codes :
  (exists real_result,
     fst (import (R := unit) (set_virtual false Sample.counting)
            (Sample.file_of Sample.all_headers [Sample.ann; Sample.bob])
            Sample.nothing_counted)
     = Normal real_result
     /\ row_codes real_result = [RCODES.SUCCESS; RCODES.SKIPPED_EVENT])
  /\ (exists virtual_result,
        fst (import (R := unit) (set_virtual true Sample.counting)
               (Sample.file_of Sample.all_headers [Sample.ann; Sample.bob])
               Sample.nothing_counted)
        = Normal virtual_result
        /\ row_codes virtual_result = [RCODES.SUCCESS; RCODES.SUCCESS]).
Proof.
  split; eexists; (split; [vm_compute; reflexivity | reflexivity]).
Qed.

(** * Further properties *)

(** ** Normalization *)

Arguments is_whitespace : simpl never.
Arguments is_special : simpl never.
Arguments to_lower_char : simpl never.
Arguments to_upper_char : simpl never.

Lemma to_lower_char_idemp (c : ascii) :
  to_lower_char (to_lower_char c) = to_lower_char c.
Proof. destruct c as [[] [] [] [] [] [] [] []]; reflexivity. Qed.

Lemma to_lower_char_whitespace (c : ascii) :
  is_whitespace (to_lower_char c) = is_whitespace c.
Proof. destruct c as [[] [] [] [] [] [] [] []]; reflexivity. Qed.

Lemma special_is_whitespace (c : ascii) :
  is_whitespace c = false -> is_special c = false.
Proof. destruct c as [[] [] [] [] [] [] [] []]; simpl; done. Qed.

Lemma trim_start_fixed (l : list ascii) :
  match l with [] => True | c :: _ => is_whitespace c = false end ->
  trim_start l = l.
Proof. destruct l as [| c l]; simpl; [done |]. by intros ->. Qed.

Lemma trim_start_head (l : list ascii) :
  match trim_start l with [] => True | c :: _ => is_whitespace c = false end.
Proof.
  induction l as [| c l IH]; simpl; [done |].
  destruct (is_whitespace c) eqn:Hc; [exact IH | exact Hc].
Qed.

Lemma trim_start_suffix (l : list ascii) :
  exists dropped, l = dropped ++ trim_start l.
Proof.
  induction l as [| c l [dropped IH]]; simpl; [by exists [] |].
  destruct (is_whitespace c).
  - exists (c :: dropped). simpl. by rewrite <- IH.
  - by exists [].
Qed.

Lemma rev_reverse {A} (l : list A) : rev l = reverse l.
Proof. unfold reverse. apply rev_alt. Qed.

Lemma trim_fixed (l : list ascii) : trimmed l -> trim l = l.
Proof.
  intros [Hhead Hlast]. unfold trim. rewrite (trim_start_fixed l Hhead).
  rewrite trim_start_fixed; [apply rev_involutive |].
  rewrite rev_reverse. destruct (reverse l) as [| c l'] eqn:Hrev; [done |].
  assert (Hl : last l = Some c).
  { rewrite <- (reverse_involutive l), Hrev, last_reverse. done. }
  by rewrite Hl in Hlast.
Qed.

Lemma trim_trimmed (l : list ascii) : trimmed (trim l).
Proof.
  unfold trim. set (a := trim_start l). set (b := trim_start (rev a)).
  assert (Hb : match b with [] => True | c :: _ => is_whitespace c = false end)
    by apply trim_start_head.
  assert (Ha : match a with [] => True | c :: _ => is_whitespace c = false end)
    by apply trim_start_head.
  destruct (trim_start_suffix (rev a)) as [dropped Hsuffix]. fold b in Hsuffix.
  split.
  - rewrite rev_reverse. destruct (reverse b) as [| c l'] eqn:Hrev; [done |].
    assert (Hlast : last b = Some c).
    { rewrite <- (reverse_involutive b), Hrev, last_reverse. done. }
    assert (Hlast' : last (rev a) = Some c).
    { rewrite Hsuffix. destruct b as [| c' b']; [done |].
      rewrite last_app. by rewrite Hlast. }
    rewrite rev_reverse, last_reverse in Hlast'.
    destruct a as [| c' a']; [done |]. simpl in Hlast'. by simplify_eq.
  - rewrite rev_reverse, last_reverse. destruct b; [done | exact Hb].
Qed.

Lemma collapse_ws_idemp (b : bool) (l : list ascii) :
  collapse_ws b (collapse_ws b l) = collapse_ws b l.
Proof.
  revert b. induction l as [| c l IH]; intros b; simpl; [done |].
  destruct (is_whitespace c) eqn:Hc.
  - destruct b; [apply IH |]. simpl. by rewrite IH.
  - simpl. rewrite Hc. by rewrite IH.
Qed.

Lemma collapse_ws_Forall (P : ascii -> Prop) (b : bool) (l : list ascii) :
  P " "%char -> Forall P l -> Forall P (collapse_ws b l).
Proof.
  intros Hspace Hl. revert b. induction Hl as [| c l Hc Hl IH]; intros b;
    simpl; [constructor |].
  destruct (is_whitespace c); [destruct b |].
  - apply IH.
  - constructor; [exact Hspace | apply IH].
  - constructor; [exact Hc | apply IH].
Qed.

Lemma collapse_ws_head (l : list ascii) :
  match l with [] => True | c :: _ => is_whitespace c = false end ->
  match collapse_ws false l with
  | [] => True
  | c :: _ => is_whitespace c = false
  end.
Proof.
  destruct l as [| c l]; [done |]. intros Hc.
  cbn [collapse_ws]. rewrite Hc. exact Hc.
Qed.

Lemma collapse_ws_last (b : bool) (l : list ascii) (c : ascii) :
  last l = Some c -> is_whitespace c = false ->
  last (collapse_ws b l) = Some c.
Proof.
  revert b. induction l as [| c' l IH]; intros b Hlast Hc; [done |].
  destruct (decide (l = [])) as [-> | Hne].
  - simpl in Hlast. simplify_eq. cbn [collapse_ws]. by rewrite Hc.
  - assert (Hlast' : last l = Some c).
    { destruct l as [| c'' l']; [done | exact Hlast]. }
    assert (Hcons : forall x rest,
              last rest = Some c -> last (x :: rest) = Some c).
    { intros x [| y rest]; done. }
    cbn [collapse_ws].
    destruct (is_whitespace c'); [destruct b |];
      try apply Hcons; by apply IH.
Qed.

Lemma filter_head_keeps (P : ascii -> Prop) `{forall c, Decision (P c)}
    (Q : ascii -> Prop) (l : list ascii) :
  (forall c, Q c -> P c) ->
  match l with [] => True | c :: _ => Q c end ->
  match filter P l with [] => True | c :: _ => Q c end.
Proof.
  intros HQP. destruct l as [| c l]; [done |]. intros Hc.
  by rewrite filter_cons_True by auto.
Qed.

Lemma filter_last_keeps (P : ascii -> Prop) `{forall c, Decision (P c)}
    (l : list ascii) (c : ascii) :
  last l = Some c -> P c -> last (filter P l) = Some c.
Proof.
  intros Hlast Hc. rewrite <- (reverse_involutive l) in *.
  rewrite filter_reverse, last_reverse. rewrite last_reverse in Hlast.
  destruct (reverse l) as [| c' l']; [done |]. simpl in Hlast. simplify_eq.
  by rewrite filter_cons_True.
Qed.

Lemma normal_form_trimmed (l : list ascii) : trimmed (normal_form l).
Proof.
  unfold normal_form. destruct (trim_trimmed l) as [Hhead Hlast].
  set (t := trim l) in *.
  assert (Hhead2 : match to_lower_char <$> t with
                   | [] => True | c :: _ => is_whitespace c = false end).
  { destruct t as [| c t']; [done |]. simpl.
    by rewrite to_lower_char_whitespace. }
  assert (Hlast2 : match last (to_lower_char <$> t) with
                   | None => True | Some c => is_whitespace c = false end).
  { rewrite fmap_last. destruct (last t) as [c |]; [| done]. simpl.
    by rewrite to_lower_char_whitespace. }
  set (u := to_lower_char <$> t) in *.
  split.
  - apply collapse_ws_head.
    apply (filter_head_keeps _ (fun c => is_whitespace c = false));
      [apply special_is_whitespace | exact Hhead2].
  - destruct (last u) as [c |] eqn:Hu.
    + rewrite (collapse_ws_last false _ c); [exact Hlast2 | | exact Hlast2].
      apply filter_last_keeps; [exact Hu |].
      by apply special_is_whitespace.
    + apply last_None in Hu. rewrite Hu. done.
Qed.

Lemma normal_form_idemp (l : list ascii) :
  normal_form (normal_form l) = normal_form l.
Proof.
  assert (Hlower : Forall (fun c => to_lower_char c = c) (normal_form l)).
  { unfold normal_form. apply collapse_ws_Forall; [done |].
    apply Forall_forall. intros c Hc.
    apply list_elem_of_filter in Hc as [_ Hc].
    apply list_elem_of_fmap in Hc as (c' & -> & _).
    apply to_lower_char_idemp. }
  assert (Hspecial : Forall (fun c => is_special c = false) (normal_form l)).
  { unfold normal_form. apply collapse_ws_Forall; [done |].
    apply Forall_forall. intros c Hc.
    by apply list_elem_of_filter in Hc as [Hc _]. }
  unfold normal_form at 1. rewrite (trim_fixed _ (normal_form_trimmed l)).
  assert (Hmap : to_lower_char <$> normal_form l = normal_form l).
  { clear Hspecial. induction Hlower as [| c k Hc _ IH]; [done |].
    cbn [fmap list_fmap]. fold (list_fmap _ _ to_lower_char k).
    change (list_fmap ascii ascii to_lower_char k)
      with (to_lower_char <$> k). by rewrite Hc, IH. }
  rewrite Hmap.
  assert (Hfilter :
    filter (fun c => is_special c = false) (normal_form l) = normal_form l).
  { clear Hmap Hlower. induction Hspecial as [| c k Hc _ IH]; [done |].
    rewrite filter_cons_True by exact Hc. by rewrite IH. }
  rewrite Hfilter. unfold normal_form. apply collapse_ws_idemp.
Qed.

(** The keys the importer stores are fixed points of [_normalize]. *)
Lemma normalize_fixed (value : string) :
  _normalize (_normalize value) = _normalize value.
Proof.
  unfold _normalize. rewrite list_ascii_of_string_of_list_ascii.
  fold (normal_form (list_ascii_of_string value)).
  fold (normal_form (normal_form (list_ascii_of_string value))).
  by rewrite normal_form_idemp.
Qed.

(** X1.  On ASCII strings normalizing is idempotent: a normalized string
    is its own normal form, so the keys the importer stores (headers, events,
    fields) can be normalized again at every lookup without changing. *)
Theorem normalize_idempotent (value : string)
    (Hascii : is_ascii value = true) :
  _normalize (_normalize value) = _normalize value.
Proof.
  unfold _normalize. rewrite list_ascii_of_string_of_list_ascii.
  set (l := list_ascii_of_string value).
  change (string_of_list_ascii (normal_form (normal_form l))
          = string_of_list_ascii (normal_form l)).
  f_equal. apply normal_form_idemp.
Qed.

Lemma to_lower_upper_char (c : ascii) :
  to_lower_char (to_upper_char c) = to_lower_char c.
Proof. destruct c as [[] [] [] [] [] [] [] []]; reflexivity. Qed.

Lemma to_upper_char_whitespace (c : ascii) :
  is_whitespace (to_upper_char c) = is_whitespace c.
Proof. destruct c as [[] [] [] [] [] [] [] []]; reflexivity. Qed.

Lemma trim_start_fmap (f : ascii -> ascii) (l : list ascii) :
  (forall c, is_whitespace (f c) = is_whitespace c) ->
  trim_start (f <$> l) = f <$> trim_start l.
Proof.
  intros Hf. induction l as [| c l IH]; [done |].
  cbn [fmap list_fmap trim_start]. rewrite Hf.
  destruct (is_whitespace c); [exact IH | done].
Qed.

Lemma trim_fmap (f : ascii -> ascii) (l : list ascii) :
  (forall c, is_whitespace (f c) = is_whitespace c) ->
  trim (f <$> l) = f <$> trim l.
Proof.
  intros Hf. unfold trim.
  rewrite (trim_start_fmap f l Hf).
  change (f <$> trim_start l) with (List.map f (trim_start l)).
  rewrite <- map_rev.
  change (List.map f (rev (trim_start l))) with (f <$> rev (trim_start l)).
  rewrite (trim_start_fmap f _ Hf).
  change (f <$> trim_start (rev (trim_start l)))
    with (List.map f (trim_start (rev (trim_start l)))).
  by rewrite map_rev.
Qed.

(** X2.  On ASCII strings normalizing ignores case: a header, event or
    field name and its lower-case and upper-case spellings have the same
    normal form. *)
Theorem normalize_ignores_case (value : string)
    (Hascii : is_ascii value = true) :
  _normalize (toLowerCase value) = _normalize value
  /\ _normalize (toUpperCase value) = _normalize value.
Proof.
  unfold _normalize, toLowerCase, toUpperCase.
  rewrite !list_ascii_of_string_of_list_ascii.
  rewrite (trim_fmap to_lower_char) by apply to_lower_char_whitespace.
  rewrite (trim_fmap to_upper_char) by apply to_upper_char_whitespace.
  rewrite <- !list_fmap_compose.
  split; do 3 f_equal; apply list_fmap_ext; intros i c _; simpl.
  - apply to_lower_char_idemp.
  - apply to_lower_upper_char.
Qed.

(** ** Rows as objects *)

Lemma obj_set_fresh (k : string) (v : Value) (o : JsObj) :
  k ∉ obj_keys o -> obj_set k v o = o ++ [(k, v)].
Proof.
  unfold obj_keys. induction o as [| [k' v'] o IH]; [done |].
  intros Hnot. cbn [fmap list_fmap] in Hnot.
  apply not_elem_of_cons in Hnot as [Hne Hnot].
  cbn [obj_set]. rewrite decide_False by done. cbn [app]. by rewrite IH.
Qed.

Lemma obj_keys_set_NoDup (k : string) (v : Value) (o : JsObj) :
  NoDup (obj_keys o) -> NoDup (obj_keys (obj_set k v o)).
Proof.
  unfold obj_keys. induction o as [| [k' v'] o IH]; intros Hnodup.
  - apply NoDup_singleton.
  - cbn [obj_set]. cbn [fmap list_fmap] in Hnodup.
    apply NoDup_cons in Hnodup as [Hnot Hnodup].
    destruct (decide (k' = k)) as [-> | Hne].
    + cbn [fmap list_fmap]. by apply NoDup_cons.
    + cbn [fmap list_fmap]. apply NoDup_cons. split; [| by apply IH].
      intros Hin. apply (obj_keys_set k v o k') in Hin as [? | Hin]; done.
Qed.

Lemma obj_get_member (k : string) (v : Value) (o : JsObj) :
  NoDup (obj_keys o) -> (k, v) ∈ o -> obj_get k o = v.
Proof.
  unfold obj_keys, obj_get. induction o as [| [k' v'] o IH]; intros Hnodup Hin.
  - by apply elem_of_nil in Hin.
  - cbn [fmap list_fmap] in Hnodup.
    apply NoDup_cons in Hnodup as [Hnot Hnodup]. cbn [obj_lookup].
    apply elem_of_cons in Hin as [Heq | Hin].
    + simplify_eq. by rewrite decide_True.
    + rewrite decide_False; [by apply IH |].
      intros ->. apply Hnot. apply list_elem_of_fmap. by exists (k, v).
Qed.

(** Reading every key of an object gives its entries back. *)
Lemma obj_entries (g : string -> string) (o : JsObj) :
  NoDup (obj_keys o) ->
  (fun key => (g key, obj_get key o)) <$> obj_keys o
  = (fun kv => (g (fst kv), snd kv)) <$> o.
Proof.
  intros Hnodup. unfold obj_keys. rewrite <- list_fmap_compose.
  apply list_fmap_ext. intros i [k v] Hi. simpl. f_equal.
  apply obj_get_member; [exact Hnodup |]. by eapply list_elem_of_lookup_2.
Qed.

(** A loop that assigns one property per key, under keys that are new and
    pairwise distinct, appends the properties in order. *)
Lemma fold_assign_fresh (g : string -> string) (value : string -> Value)
    (keys : list string) (acc : JsObj) :
  NoDup (g <$> keys) ->
  (forall key, key ∈ keys -> g key ∉ obj_keys acc) ->
  foldl (fun obj key => obj_set (g key) (value key) obj) acc keys
  = acc ++ ((fun key => (g key, value key)) <$> keys).
Proof.
  revert acc. induction keys as [| key keys IH]; intros acc Hnodup Hfresh.
  - by rewrite app_nil_r.
  - cbn [fmap list_fmap] in Hnodup.
    apply NoDup_cons in Hnodup as [Hnot Hnodup].
    cbn [foldl]. rewrite obj_set_fresh by (apply Hfresh; left).
    rewrite IH; [by rewrite <- app_assoc | exact Hnodup |].
    intros key' Hkey' Hin. unfold obj_keys in Hin.
    rewrite fmap_app in Hin. apply elem_of_app in Hin as [Hin | Hin].
    + apply (Hfresh key'); [by right | exact Hin].
    + cbn [fmap list_fmap] in Hin. apply list_elem_of_singleton in Hin.
      simpl in Hin. apply Hnot. rewrite <- Hin.
      apply list_elem_of_fmap. by exists key'.
Qed.

Lemma fold_assign_keys (g : string -> string) (value : string -> Value)
    (keep : string -> bool) (keys : list string) (acc : JsObj) (k : string) :
  k ∈ obj_keys
        (foldl (fun obj key =>
                  if keep key then obj_set (g key) (value key) obj else obj)
               acc keys)
  <-> k ∈ obj_keys acc \/ exists key, key ∈ keys /\ keep key = true /\ k = g key.
Proof.
  revert acc. induction keys as [| key keys IH]; intros acc.
  - cbn [foldl]. split; [by left |].
    intros [? | (key & Hin & _)]; [done | by apply elem_of_nil in Hin].
  - cbn [foldl]. rewrite IH. destruct (keep key) eqn:Hkeep.
    + rewrite obj_keys_set. split.
      * intros [[-> | ?] | (key' & Hin & Hk & ->)].
        -- right. exists key. split; [left | done].
        -- by left.
        -- right. exists key'. split; [by right | done].
      * intros [? | (key' & Hin & Hk & ->)]; [by left; right |].
        apply elem_of_cons in Hin as [-> | Hin]; [by left; left |].
        right. by exists key'.
    + split.
      * intros [? | (key' & Hin & Hk & ->)]; [by left |].
        right. exists key'. split; [by right | done].
      * intros [? | (key' & Hin & Hk & ->)]; [by left |].
        apply elem_of_cons in Hin as [-> | Hin]; [congruence |].
        right. by exists key'.
Qed.

Lemma fold_assign_NoDup (g : string -> string) (value : string -> Value)
    (keep : string -> bool) (keys : list string) (acc : JsObj) :
  NoDup (obj_keys acc) ->
  NoDup (obj_keys
           (foldl (fun obj key =>
                     if keep key then obj_set (g key) (value key) obj
                     else obj)
                  acc keys)).
Proof.
  revert acc. induction keys as [| key keys IH]; intros acc Hacc; [done |].
  cbn [foldl]. apply IH. destruct (keep key); [| done].
  by apply obj_keys_set_NoDup.
Qed.

(** X3.  For a row whose headers are plain names (ASCII, and not normalized
    to an array index or to the name of an inherited property), the row with
    normalized headers has each key once; its keys are exactly the normal
    forms of the keys of the raw row, each of them a fixed point of
    [_normalize]; and when no two raw headers share a normal form the row
    keeps its entries in order, each under its normalized header. *)
Theorem normalizeRowHeaders_keys (row : JsObj)
    (Hplain : plain_row row = true) :
  NoDup (obj_keys (_normalizeRowHeaders row))
  /\ (forall k, k ∈ obj_keys (_normalizeRowHeaders row)
                <-> exists key, key ∈ obj_keys row /\ k = _normalize key)
  /\ (forall k, k ∈ obj_keys (_normalizeRowHeaders row) -> _normalize k = k)
  /\ (NoDup (_normalize <$> obj_keys row) ->
      _normalizeRowHeaders row
      = (fun kv => (_normalize (fst kv), snd kv)) <$> row).
Proof.
  assert (Hkeys : forall k,
    k ∈ obj_keys (_normalizeRowHeaders row)
    <-> exists key, key ∈ obj_keys row /\ k = _normalize key).
  { intros k. unfold _normalizeRowHeaders.
    rewrite (fold_assign_keys _normalize (fun key => obj_get key row)
               (fun _ => true)).
    split.
    - intros [Hin | (key & Hin & _ & ->)]; [by apply elem_of_nil in Hin |].
      by exists key.
    - intros (key & Hin & ->). right. by exists key. }
  split; [| split; [exact Hkeys | split]].
  - apply (fold_assign_NoDup _normalize (fun key => obj_get key row)
             (fun _ => true)). apply NoDup_nil_2.
  - intros k Hk. apply Hkeys in Hk as (key & _ & ->).
    apply normalize_fixed.
  - intros Hnodup. unfold _normalizeRowHeaders.
    rewrite fold_assign_fresh; [| exact Hnodup |].
    + cbn [app]. apply obj_entries. by apply NoDup_fmap_1 in Hnodup.
    + intros key _ Hin. by apply elem_of_nil in Hin.
Qed.

Lemma foldl_pointwise {A B} (f g : A -> B -> A) (l : list B) (a : A) :
  (forall a b, f a b = g a b) -> foldl f a l = foldl g a l.
Proof.
  intros Hfg. revert a. induction l as [| b l IH]; intros a; [done |].
  cbn [foldl]. by rewrite Hfg, IH.
Qed.

(** A loop that assigns a property for the keys it does not skip. *)
Lemma fold_assign_filter (value : string -> Value) (skip : string -> bool)
    (keys : list string) (acc : JsObj) :
  NoDup keys ->
  (forall key, key ∈ keys -> key ∉ obj_keys acc) ->
  foldl (fun obj key =>
           if skip key then obj else obj_set key (value key) obj) acc keys
  = acc ++ ((fun key => (key, value key))
              <$> filter (fun key => skip key = false) keys).
Proof.
  revert acc. induction keys as [| key keys IH]; intros acc Hnodup Hfresh.
  - by rewrite app_nil_r.
  - apply NoDup_cons in Hnodup as [Hnot Hnodup]. cbn [foldl].
    destruct (skip key) eqn:Hskip.
    + rewrite filter_cons_False by (simpl; by rewrite Hskip).
      apply IH; [exact Hnodup |]. intros key' Hkey'. apply Hfresh. by right.
    + rewrite filter_cons_True by exact Hskip.
      rewrite obj_set_fresh by (apply Hfresh; left).
      rewrite IH; [by rewrite <- app_assoc | exact Hnodup |].
      intros key' Hkey' Hin. unfold obj_keys in Hin.
      rewrite fmap_app in Hin. apply elem_of_app in Hin as [Hin | Hin].
      * apply (Hfresh key'); [by right | exact Hin].
      * cbn [fmap list_fmap] in Hin. apply list_elem_of_singleton in Hin.
        simpl in Hin. by subst.
Qed.

(** ** Ignored headers and mappings *)

Section RowHelpers.

Context {S : Type} `{RecordStore S}.

(** X4.  Removing the ignored headers keeps the entries of the row whose
    header is not in the ignored list, in their order and with their values,
    and nothing else. *)
Theorem ignoreRowHeaders_filter (this : Importer S) (row : JsObj)
    (Hkeys : NoDup (obj_keys row)) :
  _ignoreRowHeaders this row
  = filter (fun kv => includes (fst kv) (_ignored this) = false) row.
Proof.
  unfold _ignoreRowHeaders.
  rewrite (fold_assign_filter (fun key => obj_get key row)
             (fun key => includes key (_ignored this)));
    [| exact Hkeys | intros key _ Hin; by apply elem_of_nil in Hin].
  cbn [app]. unfold obj_keys.
  assert (Hpart : forall part, part ⊆ row ->
    (fun key => (key, obj_get key row))
      <$> filter (fun key => includes key (_ignored this) = false)
            (fst <$> part)
    = filter (fun kv => includes (fst kv) (_ignored this) = false) part).
  { induction part as [| [k v] part IH]; intros Hpart; [done |].
    cbn [fmap list_fmap].
    assert (Hrest : part ⊆ row) by (intros kv Hkv; apply Hpart; by right).
    destruct (includes k (_ignored this)) eqn:Hk.
    - rewrite filter_cons_False by (simpl; by rewrite Hk).
      rewrite (filter_cons_False _ (k, v)) by (simpl; by rewrite Hk).
      by apply IH.
    - rewrite filter_cons_True by exact Hk.
      rewrite (filter_cons_True _ (k, v)) by exact Hk.
      cbn [fmap list_fmap]. f_equal; [| by apply IH]. f_equal.
      apply obj_get_member; [exact Hkeys |]. apply Hpart. left. }
  by apply Hpart.
Qed.

Lemma mapHeadersToFields_fold (this : Importer S) (row : JsObj)
    (keys : list string) (acc : JsObj) :
  foldl (fun data header =>
           match _mappings this !! _normalize header with
           | None => data
           | Some field =>
               if negb (truthy (VStr field)) then data
               else obj_set field (obj_get header row) data
           end) acc keys
  = foldl (fun data header =>
             if match _mappings this !! _normalize header with
                | Some field => truthy (VStr field)
                | None => false
                end
             then obj_set (default "" (_mappings this !! _normalize header))
                    (obj_get header row) data
             else data) acc keys.
Proof.
  apply foldl_pointwise. intros data header.
  destruct (_mappings this !! _normalize header) as [field |]; [| done].
  simpl. by destruct (decide (field = "")).
Qed.

Lemma maps_to_keep (this : Importer S) (header field : string) :
  maps_to this header field
  <-> match _mappings this !! _normalize header with
      | Some field' => truthy (VStr field')
      | None => false
      end = true
      /\ field = default "" (_mappings this !! _normalize header).
Proof.
  unfold maps_to.
  destruct (_mappings this !! _normalize header) as [field' |]; simpl.
  - destruct (decide (field' = "")); split.
    + intros [[= ->] ?]. done.
    + intros [? _]. done.
    + intros [[= ->] ?]. done.
    + intros [_ ->]. done.
  - split; [intros [? _]; done | intros [? _]; done].
Qed.

(** X5.  For a row whose headers are plain names (ASCII, and not normalized
    to an array index or to the name of an inherited property, so that the
    lookup in the mappings finds a mapping or nothing), mapped to fields that
    are plain names: the mapped row has each field once, and a field is a
    key of it exactly when some header of the row is mapped to it by a
    mapping whose target is not the empty string: headers without mapping
    are dropped. *)
Theorem mapHeadersToFields_fields (this : Importer S) (row : JsObj)
    (Hplain : plain_row row = true)
    (Hfields : forall header field,
       header ∈ obj_keys row -> maps_to this header field ->
       plain_key field = true) :
  NoDup (obj_keys (_mapHeadersToFields this row))
  /\ forall field,
       field ∈ obj_keys (_mapHeadersToFields this row)
       <-> exists header, header ∈ obj_keys row /\ maps_to this header field.
Proof.
  unfold _mapHeadersToFields. rewrite mapHeadersToFields_fold. split.
  - apply (fold_assign_NoDup
             (fun header => default "" (_mappings this !! _normalize header))
             (fun header => obj_get header row)
             (fun header =>
                match _mappings this !! _normalize header with
                | Some field => truthy (VStr field)
                | None => false
                end)). apply NoDup_nil_2.
  - intros field.
    rewrite (fold_assign_keys
               (fun header => default "" (_mappings this !! _normalize header))
               (fun header => obj_get header row)
               (fun header =>
                  match _mappings this !! _normalize header with
                  | Some field => truthy (VStr field)
                  | None => false
                  end)).
    split.
    + intros [Hin | (header & Hin & Hkeep & ->)];
        [by apply elem_of_nil in Hin |].
      exists header. split; [exact Hin |]. by apply maps_to_keep.
    + intros (header & Hin & Hmaps). right. exists header.
      apply maps_to_keep in Hmaps as [Hkeep ->]. done.
Qed.

Lemma mapHeadersToFields_keeps (this : Importer S) (row : JsObj)
    (field : string) (keys : list string) (data : JsObj) (v : Value) :
  (forall header, header ∈ keys -> ~ maps_to this header field) ->
  obj_get field data = v ->
  obj_get field
    (foldl (fun data header =>
              if match _mappings this !! _normalize header with
                 | Some field0 => truthy (VStr field0)
                 | None => false
                 end
              then obj_set (default "" (_mappings this !! _normalize header))
                     (obj_get header row) data
              else data) data keys) = v.
Proof.
  revert data. induction keys as [| header keys IH]; intros data Hlater Hdata;
    [exact Hdata |].
  cbn [foldl]. apply IH.
  - intros header' Hin. apply Hlater. by right.
  - destruct (match _mappings this !! _normalize header with
              | Some field0 => truthy (VStr field0)
              | None => false
              end) eqn:Hkeep; [| exact Hdata].
    rewrite obj_get_set_ne; [exact Hdata |].
    intros Heq. apply (Hlater header); [left |].
    apply maps_to_keep. by split.
Qed.

(** X6.  When several headers of a row are mapped to the same field, the
    field gets the value of the last of them in the row's order. *)
Theorem mapHeadersToFields_last_header_wins (this : Importer S)
    (before after : JsObj) (header field : string) (v : Value)
    (Hkeys : NoDup (obj_keys (before ++ (header, v) :: after)))
    (Hmaps : maps_to this header field)
    (Hlater : forall header', header' ∈ obj_keys after ->
                ~ maps_to this header' field) :
  obj_get field
    (_mapHeadersToFields this (before ++ (header, v) :: after)) = v.
Proof.
  set (row := before ++ (header, v) :: after) in *.
  unfold _mapHeadersToFields. rewrite mapHeadersToFields_fold.
  assert (Hsplit : obj_keys row = obj_keys before ++ header :: obj_keys after).
  { unfold row, obj_keys. by rewrite fmap_app. }
  rewrite Hsplit, foldl_app. cbn [foldl].
  apply maps_to_keep in Hmaps as [Hkeep Hfield]. rewrite Hkeep, <- Hfield.
  assert (Hvalue : obj_get header row = v).
  { apply obj_get_member; [exact Hkeys |]. unfold row.
    apply elem_of_app. right. left. }
  rewrite Hvalue.
  apply mapHeadersToFields_keeps; [exact Hlater | apply obj_get_set_eq].
Qed.

End RowHelpers.

(** ** Required headers *)

Section Headers.

Context {S : Type} `{RecordStore S}.

Lemma validateHeaders_fold (headers required : list string)
    (result : HeaderCheck) :
  let check :=
    foldl (fun result required =>
             let missing := negb (includes required headers) in
             if negb missing then result
             else {| hc_success := false;
                     hc_missing := hc_missing result ++ [required] |})
          result required in
  hc_missing check
  = hc_missing result
    ++ filter (fun r => includes r headers = false) required
  /\ (hc_success check = true
      <-> hc_success result = true
          /\ filter (fun r => includes r headers = false) required = []).
Proof.
  revert result. induction required as [| r required IH]; intros result.
  - simpl. rewrite app_nil_r. tauto.
  - cbn [foldl]. cbv zeta. destruct (includes r headers) eqn:Hr.
    + simpl negb. cbv iota.
      rewrite filter_cons_False by (simpl; by rewrite Hr). apply IH.
    + simpl negb. cbv iota. rewrite filter_cons_True by exact Hr.
      destruct (IH {| hc_success := false;
                      hc_missing := hc_missing result ++ [r] |})
        as [Hmissing Hsuccess].
      cbv zeta in Hmissing, Hsuccess. split.
      * rewrite Hmissing. simpl. by rewrite <- app_assoc.
      * rewrite Hsuccess. simpl. split; [intros [? _]; done | intros [_ ?]; done].
Qed.

Lemma validateHeaders_missing (this : Importer S) (headers : list string) :
  hc_missing (_validateHeaders this headers)
  = filter (fun r => includes r (_normalize <$> headers) = false)
      (_required this)
  /\ (hc_success (_validateHeaders this headers) = true
      <-> filter (fun r => includes r (_normalize <$> headers) = false)
            (_required this) = []).
Proof.
  unfold _validateHeaders. cbv zeta.
  destruct (validateHeaders_fold (_normalize <$> headers) (_required this)
              {| hc_success := true; hc_missing := [] |})
    as [Hmissing Hsuccess].
  cbv zeta in Hmissing, Hsuccess. split; [exact Hmissing |].
  rewrite Hsuccess. simpl. tauto.
Qed.

(** X7.  The header check reports every required header that is missing
    from the file, in the order of the [require] calls, and succeeds exactly
    when each required header is among the normalized headers of the
    file. *)
Theorem validateHeaders_reports_every_missing_header (this : Importer S)
    (headers : list string) :
  hc_missing (_validateHeaders this headers)
  = filter (fun r => includes r (_normalize <$> headers) = false)
      (_required this)
  /\ (hc_success (_validateHeaders this headers) = true
      <-> forall r, r ∈ _required this -> r ∈ _normalize <$> headers).
Proof.
  destruct (validateHeaders_missing this headers) as [Hmissing Hsuccess].
  split; [exact Hmissing |]. rewrite Hsuccess. split.
  - intros Hnone r Hr.
    destruct (includes r (_normalize <$> headers)) eqn:Hin;
      [by apply includes_true |].
    assert (Hkept : r ∈ filter
              (fun r => includes r (_normalize <$> headers) = false)
              (_required this)) by (by apply list_elem_of_filter).
    rewrite Hnone in Hkept. by apply elem_of_nil in Hkept.
  - intros Hall.
    destruct (filter (fun r => includes r (_normalize <$> headers) = false)
                (_required this)) as [| r rest] eqn:Hkept; [done |].
    assert (Hin : r ∈ filter
              (fun r => includes r (_normalize <$> headers) = false)
              (_required this)) by (rewrite Hkept; left).
    apply list_elem_of_filter in Hin as [Hout Hr].
    apply Hall, includes_true in Hr. congruence.
Qed.

(** X8.  Outside sloppy mode, a file that parses but lacks a required
    header is not imported at all: the run returns the missing-header result,
    which lists all the missing headers and counts no row, having only
    opened the stream. *)
Theorem import_stops_at_missing_header (R : Type) (this : Importer S)
    (file : File) (w : World S) (r : string)
    (Hparses : f_parses file = true)
    (Hsloppy : _sloppy this = false)
    (Hrequired : r ∈ _required this)
    (Hmissing : r ∉ _normalize <$> f_headers file) :
  let missing :=
    filter (fun r => includes r (_normalize <$> f_headers file) = false)
      (_required this) in
  r ∈ missing
  /\ import (R := R) this file w
     = (Normal
          {| ir_success := false;
             ir_code := STATES.MISSING_REQUIRED_HEADER;
             ir_message := "One or more required headers are missing";
             ir_rows := 0;
             ir_data := DMissing missing |},
        opened w).
Proof.
  intros missing.
  assert (Hin : r ∈ missing).
  { apply list_elem_of_filter. split; [| exact Hrequired].
    destruct (includes r (_normalize <$> f_headers file)) eqn:Hr; [| done].
    by apply includes_true in Hr. }
  split; [exact Hin |].
  destruct (validateHeaders_missing this (f_headers file))
    as [Hlist Hsuccess].
  rewrite import_missing_header; [| exact Hparses | exact Hsloppy |].
  - by rewrite Hlist.
  - destruct (hc_success (_validateHeaders this (f_headers file))) eqn:Hok;
      [| done].
    exfalso. destruct Hsuccess as [Hnone _]. fold missing in Hnone.
    rewrite Hnone in Hin by reflexivity. by apply elem_of_nil in Hin.
Qed.

End Headers.

(** ** Row results and the result of the import *)

Section Results.

Context {S : Type} `{RecordStore S}.

Lemma normalizeRowHeaders_nil (row : JsObj) :
  (forall key, key ∈ obj_keys row -> gs_nil (obj_get key row) = true) ->
  forall k, gs_nil (obj_get k (_normalizeRowHeaders row)) = true.
Proof.
  intros Hnil. unfold _normalizeRowHeaders.
  assert (Hfold : forall keys acc,
    (forall key, key ∈ keys -> gs_nil (obj_get key row) = true) ->
    (forall k, gs_nil (obj_get k acc) = true) ->
    forall k,
      gs_nil (obj_get k
                (foldl (fun obj key =>
                          obj_set (_normalize key) (obj_get key row) obj)
                       acc keys)) = true).
  { induction keys as [| key keys IH]; intros acc Hkeys Hacc; [exact Hacc |].
    cbn [foldl]. apply IH; [intros key' Hin; apply Hkeys; by right |].
    intros k. destruct (decide (k = _normalize key)) as [-> | Hne].
    - rewrite obj_get_set_eq. apply Hkeys. left.
    - by rewrite obj_get_set_ne. }
  apply Hfold; [exact Hnil | done].
Qed.

(** X9.  A row whose cells are all nil is skipped as empty before any
    callback, validation or transformation runs: the result is the
    skipped-empty one and the world is exactly as it was. *)
Theorem empty_row_is_skipped_untouched (R : Type) (this : Importer S)
    (raw : JsObj) (index : nat) (w : World S)
    (Hnil : forall key, key ∈ obj_keys raw ->
              gs_nil (obj_get key raw) = true) :
  _parseRow (R := R) this (Ok raw) index w
  = (Normal
       {| rr_row := index;
          rr_code := RCODES.SKIPPED_EMPTY;
          rr_message := VStr "Record skipped because empty";
          rr_target := VNull;
          rr_error := None |},
     w).
Proof.
  assert (Hempty : _isEmptyRow (_normalizeRowHeaders raw) = true).
  { apply isEmptyRow_true. intros key _. by apply normalizeRowHeaders_nil. }
  apply parseRow_returns.
  unfold _parseRow_body, bind at 1, _parseRow_prepare, bind at 1. simpl eval.
  unfold ret at 1, bind at 1. rewrite Hempty. reflexivity.
Qed.

Lemma well_formed_skipped (index : nat) (code : RCODES.t)
    (info : option string) :
  code <> RCODES.SKIPPED_VALIDATION -> code <> RCODES.ERROR ->
  well_formed index (_createRowResult index code info VUndef None).
Proof.
  intros Hvalidation Herror. unfold well_formed, _createRowResult.
  destruct code; try done; simpl;
    (split; [done |]); (split; [| split; [done | by intros [] ]]).
  - eauto.
  - eauto.
  - destruct (negb (nil_info info)); eauto.
Qed.

Lemma well_formed_validation (index : nat) (failure : ValidationFailure) :
  well_formed index
    (_createRowResult index RCODES.SKIPPED_VALIDATION
       (Some (vf_message failure)) (VStr (vf_field failure)) None).
Proof.
  unfold well_formed, _createRowResult. simpl.
  split; [done |]. split; [eauto |]. split; [done | by right].
Qed.

Lemma well_formed_success (index : nat) (target : Value) :
  well_formed index (_createRowResult index RCODES.SUCCESS None target None).
Proof.
  unfold well_formed, _createRowResult. simpl.
  split; [done |]. split; [eauto |]. split; [done | by left].
Qed.

Lemma well_formed_error (index : nat) (ex : Thrown) :
  well_formed index
    (_createRowResult index RCODES.ERROR None VNull (Some ex)).
Proof.
  unfold well_formed, _createRowResult. simpl.
  split; [done |]. split; [eauto |]. split; [| done].
  intros t. destruct (thrown_truthy ex) eqn:Htruthy; [| done].
  intros [= <-]. done.
Qed.

(** Every result carries the number of its row. *)
Lemma parseRow_numbered (R : Type) (this : Importer S)
    (parser_getRow : Res JsObj) (index : nat) (w : World S) :
  exists result w',
    _parseRow (R := R) this parser_getRow index w = (Normal result, w')
    /\ rr_row result = index.
Proof.
  pose proof (triple_parseRow (R := R) this parser_getRow index
                (fun result => rr_row result = index) (fun _ => False)
                (fun _ => True) (throws_anything this))
    as Hrow.
  specialize (Hrow ltac:(by destruct parser_getRow) ltac:(done) ltac:(done)
                ltac:(done) ltac:(done) ltac:(done) w).
  destruct (_parseRow this parser_getRow index w) as [[result | r | e] w'];
    [| by destruct Hrow | by destruct Hrow].
  exists result, w'. by destruct Hrow.
Qed.

(** X10.  Whatever the row, the configuration and the callbacks do,
    [_parseRow] completes with a result that carries the row's number and a
    string message, has something attached as error only when its code is
    the error code, and then something truthy (a thrown value that is falsy
    is not attached), and names a target only for an imported row or a
    failed validation. *)
Theorem row_result_is_well_formed (R : Type) (this : Importer S)
    (parser_getRow : Res JsObj) (index : nat) (w : World S) :
  exists result w',
    _parseRow (R := R) this parser_getRow index w = (Normal result, w')
    /\ well_formed index result.
Proof.
  pose proof (triple_parseRow (R := R) this parser_getRow index
                (well_formed index) (fun _ => False) (fun _ => True)
                (throws_anything this)) as Hrow.
  specialize (Hrow
    ltac:(by destruct parser_getRow)
    (fun _ _ _ => well_formed_skipped index RCODES.SKIPPED_EMPTY None
                    ltac:(done) ltac:(done))
    (fun event => well_formed_skipped index RCODES.SKIPPED_EVENT (Some event)
                    ltac:(done) ltac:(done))
    (well_formed_validation index)
    (well_formed_success index)
    (fun ex _ => well_formed_error index ex) w).
  destruct (_parseRow this parser_getRow index w) as [[result | r | e] w'];
    [| by destruct Hrow | by destruct Hrow].
  exists result, w'. by destruct Hrow.
Qed.

(** The results of a loop that completes are numbered in the order of the
    rows. *)
Lemma import_rows_numbered {R} (this : Importer S) (rows : list (Res JsObj))
    (index : nat) (w w' : World S) (results : list RowResult) :
  import_rows (R := R) this rows index [] w = (Normal results, w') ->
  rr_row <$> results = seq index (List.length rows).
Proof.
  revert index w results.
  induction rows as [| r rows IH]; intros index w results.
  - simpl. by intros [= <- <-].
  - cbn [import_rows]. unfold bind at 1.
    destruct (parseRow_numbered R this r index w)
      as (obj & w1 & Hrow & Hindex).
    rewrite Hrow. unfold bind. destruct (stringify obj); simpl; [| done].
    rewrite import_rows_acc.
    destruct (import_rows this rows (Datatypes.S index) [] w1)
      as [[rest | r' | t] w''] eqn:Hrest; [| done | done].
    intros [= <- <-]. cbn [fmap list_fmap List.length seq].
    f_equal; [exact Hindex |]. by apply (IH _ _ _ Hrest).
Qed.

(** X11.  Once the file parses and the header check passes (or is skipped
    in sloppy mode), and when whatever the caller's functions and the parser
    throw can be serialised, the import ends as a success with the stream
    closed, whatever happens in the rows; it counts every row of the file and
    gives one result per row, numbered from 2 in the order of the file. *)
Theorem import_gives_one_numbered_result_per_row (R : Type)
    (this : Importer S) (file : File) (w : World S)
    (Hparses : f_parses file = true)
    (Hheaders : _sloppy this = true
                \/ hc_success (_validateHeaders this (f_headers file)) = true)
    (Hthrows : throws (fun t => serialisable t = true) this)
    (Hreadable : readable (f_rows file)) :
  exists results w',
    import (R := R) this file w
    = (Normal
         {| ir_success := true;
            ir_code := STATES.SUCCESS;
            ir_message := "Import completed successfully";
            ir_rows := List.length (f_rows file);
            ir_data := DRows results |},
       closed w')
    /\ rr_row <$> results = seq 2 (List.length (f_rows file)).
Proof.
  destruct (import_rows_total (R := ImportResult) this (f_rows file) 2
              (opened w) Hthrows Hreadable) as (results & w' & Hrun & Hlen).
  pose proof (import_rows_numbered this (f_rows file) 2 (opened w) w'
                results (Hrun [])) as Hrows.
  exists results, w'. split; [| exact Hrows].
  rewrite (import_passed this file w Hparses Hheaders), (Hrun []).
  unfold _createReturnValue. simpl. do 3 f_equal. exact Hlen.
Qed.

End Results.

(** ** Configuration calls *)

Section Configuring.

Context {S : Type} `{RecordStore S}.

Lemma gs_nil_string (s : string) : gs_nil (VStr s) = false <-> s <> "".
Proof. simpl. by destruct (decide (s = "")). Qed.

Lemma allowed_event_normalized (event : string) :
  event ∈ ALLOWED_EVENTS ->
  includes (_normalize event) (toLowerCase <$> ALLOWED_EVENTS) = true.
Proof.
  unfold ALLOWED_EVENTS. rewrite !elem_of_cons, elem_of_nil.
  intros [-> | [-> | [-> | [-> | [-> | [-> | []]]]]]]; reflexivity.
Qed.

(** X12.  An event name is matched up to normalization: registering a
    callback under any spelling of an allowed event (case, surrounding
    blanks) succeeds and stores it under the normalized name, and triggering
    that event then calls it with the payload built from the arguments, in
    the state as it is: the dispatch gives the callback's value and the row
    as the callback leaves it, or throws what the callback throws, and the
    state is the one the callback leaves. *)
Theorem callback_registers_any_spelling (R : Type) (this : Importer S)
    (allowed event : string) (f : Callback S)
    (Hallowed : allowed ∈ ALLOWED_EVENTS)
    (Hspelling : _normalize event = _normalize allowed)
    (Hnonempty : event <> "") :
  callback (R := R) event f this
  = (Normal tt, set_events (<[_normalize allowed := f]> (_events this)) this)
  /\ forall R' row index sys_id (w : World S),
       _triggerEvent (R := R')
         (set_events (<[_normalize allowed := f]> (_events this)) this)
         allowed row index sys_id w
       = (match fst (f (payload_of row index sys_id) (store w)) with
          | Ok reply =>
              Normal (fst reply, option_map (fun _ => snd reply) row)
          | Raise e => Throw e
          end,
          with_store (snd (f (payload_of row index sys_id) (store w)))
            (logged (EvCallback (_normalize allowed)
                       (payload_of row index sys_id)) w)).
Proof.
  split.
  - unfold callback, call, bind, when, get_this, assign.
    apply gs_nil_string in Hnonempty. rewrite Hnonempty. cbv zeta.
    rewrite Hspelling, (allowed_event_normalized allowed Hallowed).
    reflexivity.
  - intros R' row index sys_id w. apply triggerEvent_registered.
    simpl. apply lookup_insert_eq.
Qed.

(** X13.  Configuration calls that name something unknown throw and leave
    the importer as it was: [callback] for a name that is not an allowed
    event, and [map], [transform], [validate] and [coalesce] for a name that
    is not a field of the table. *)
Theorem unknown_names_are_rejected (R : Type) (this : Importer S) :
  (forall event f,
     includes (_normalize event) (toLowerCase <$> ALLOWED_EVENTS) = false ->
     exists e, callback (R := R) event f this = (Throw e, this))
  /\ (forall field,
        includes (_normalize field) (table_fields this) = false ->
        (forall header, exists e,
            map (R := R) header field this = (Throw e, this))
        /\ (forall f, exists e,
              transform (R := R) field f this = (Throw e, this))
        /\ (forall f message, exists e,
              validate (R := R) field f message this = (Throw e, this))
        /\ (exists e, coalesce (R := R) field this = (Throw e, this))).
Proof.
  split.
  - intros event f Hunknown. unfold callback, call, bind, when, get_this.
    destruct (gs_nil (VStr event)); [by eexists |]. cbv zeta.
    rewrite Hunknown. by eexists.
  - intros field Hunknown. repeat split.
    + intros header. unfold map, call, bind, when, get_this.
      destruct (gs_nil (VStr header)); [by eexists |].
      destruct (gs_nil (VStr field)); [by eexists |]. simpl.
      rewrite Hunknown. by eexists.
    + intros f. unfold transform, call, bind, when, get_this.
      destruct (gs_nil (VStr field)); [by eexists |]. simpl.
      rewrite Hunknown. by eexists.
    + intros f message. unfold validate, call, bind, when, get_this.
      destruct (gs_nil (VStr field)); [by eexists |].
      destruct (gs_nil (VStr message)); [by eexists |]. simpl.
      rewrite Hunknown. by eexists.
    + unfold coalesce, call, bind, when, get_this.
      destruct (gs_nil (VStr field)); [by eexists |]. simpl.
      rewrite Hunknown. by eexists.
Qed.

Lemma map_assigns (R : Type) (this : Importer S) (header field : string) :
  header <> "" -> field <> "" ->
  includes (_normalize field) (table_fields this) = true ->
  map (R := R) header field this
  = (Normal tt,
     set_mappings (<[_normalize header := _normalize field]> (_mappings this))
       this).
Proof.
  intros Hheader Hfield Hknown. unfold map, call, bind, when, get_this, assign.
  apply gs_nil_string in Hheader, Hfield. rewrite Hheader, Hfield. simpl.
  rewrite Hknown. reflexivity.
Qed.

(** X14.  [map] binds the normalized header to the normalized field and
    leaves the other mappings alone; from then on a cell under any spelling
    of that header is stored under that field. *)
Theorem map_overrides_the_header (R : Type) (this : Importer S)
    (header field spelling : string) (v : Value)
    (Hheader : header <> "") (Hfield : field <> "")
    (Hknown : includes (_normalize field) (table_fields this) = true)
    (Htarget : _normalize field <> "")
    (Hspelling : _normalize spelling = _normalize header) :
  exists this',
    map (R := R) header field this = (Normal tt, this')
    /\ _mappings this' !! _normalize header = Some (_normalize field)
    /\ (forall h, h <> _normalize header ->
          _mappings this' !! h = _mappings this !! h)
    /\ _mapHeadersToFields this' [(spelling, v)] = [(_normalize field, v)].
Proof.
  eexists. split; [by apply map_assigns |]. simpl. split; [| split].
  - apply lookup_insert_eq.
  - intros h Hne. by apply lookup_insert_ne.
  - unfold _mapHeadersToFields. simpl. rewrite Hspelling, lookup_insert_eq.
    destruct (decide (_normalize field = "")); [done |]. simpl.
    unfold obj_get. simpl. by rewrite decide_True.
Qed.

Lemma header_lists_ok_blank (table : string) (fields : list string) :
  header_lists_ok (blank (S := S) table fields).
Proof.
  repeat split; simpl; try apply NoDup_nil_2;
    intros h Hin; by apply elem_of_nil in Hin.
Qed.

(** X15.  [ignore] and [require] keep the two header lists well formed,
    whether they succeed or throw: no header is listed twice, no header is
    both ignored and required, and every listed header is normalized. *)
Theorem ignore_require_keep_lists_apart (R : Type) (this : Importer S)
    (h : string) (Hok : header_lists_ok this) :
  header_lists_ok (snd (ignore (R := R) h this))
  /\ header_lists_ok (snd (require (R := R) h this)).
Proof.
  pose proof Hok as (Hign & Hreq & Hapart & Hnorm). split.
  - unfold ignore, call, bind, when, get_this, assign, ret, throw, return_.
    destruct (gs_nil (VStr h)); [exact Hok |]. cbv beta iota zeta.
    destruct (includes (_normalize h) (_required this)) eqn:Hr;
      [exact Hok |].
    cbv beta iota zeta.
    destruct (includes (_normalize h) (_ignored this)) eqn:Hi;
      [exact Hok |].
    cbn [negb snd]. repeat split; simpl.
    + apply NoDup_app. repeat split; [exact Hign | | apply NoDup_singleton].
      intros x Hx Hx'. apply list_elem_of_singleton in Hx'. subst.
      apply includes_true in Hx. congruence.
    + exact Hreq.
    + intros x Hx Hx'. apply elem_of_app in Hx as [Hx | Hx];
        [by apply (Hapart x) |].
      apply list_elem_of_singleton in Hx. subst.
      apply includes_true in Hx'. congruence.
    + intros x Hx. rewrite <- app_assoc in Hx.
      apply elem_of_app in Hx as [Hx | Hx];
        [apply Hnorm, elem_of_app; by left |].
      apply elem_of_cons in Hx as [-> | Hx];
        [apply normalize_fixed |].
      apply Hnorm, elem_of_app. by right.
  - unfold require, call, bind, when, get_this, assign, ret, throw, return_.
    destruct (gs_nil (VStr h)); [exact Hok |]. cbv beta iota zeta.
    destruct (includes (_normalize h) (_ignored this)) eqn:Hi;
      [exact Hok |].
    cbv beta iota zeta.
    destruct (includes (_normalize h) (_required this)) eqn:Hr;
      [exact Hok |].
    cbn [negb snd]. repeat split; simpl.
    + exact Hign.
    + apply NoDup_app. repeat split; [exact Hreq | | apply NoDup_singleton].
      intros x Hx Hx'. apply list_elem_of_singleton in Hx'. subst.
      apply includes_true in Hx. congruence.
    + intros x Hx Hx'. apply elem_of_app in Hx' as [Hx' | Hx'];
        [by apply (Hapart x) |].
      apply list_elem_of_singleton in Hx'. subst.
      apply includes_true in Hx. congruence.
    + intros x Hx. rewrite app_assoc in Hx.
      apply elem_of_app in Hx as [Hx | Hx]; [by apply Hnorm |].
      apply list_elem_of_singleton in Hx. subst.
      apply normalize_fixed.
Qed.

End Configuring.

(** ** The constructor *)

Section Initialize.

Context {S : Type} `{RecordStore S}.

Lemma label_of_member (columns : list (string * string))
    (name label : string) :
  NoDup (fst <$> columns) -> (name, label) ∈ columns ->
  label_of columns name = label.
Proof.
  induction columns as [| [name' label'] columns IH]; intros Hnodup Hin.
  - by apply elem_of_nil in Hin.
  - cbn [fmap list_fmap] in Hnodup.
    apply NoDup_cons in Hnodup as [Hnot Hnodup]. cbn [label_of].
    apply elem_of_cons in Hin as [Heq | Hin].
    + simplify_eq. by rewrite decide_True.
    + rewrite decide_False; [by apply IH |].
      intros ->. apply Hnot. apply list_elem_of_fmap. by exists (name, label).
Qed.

Lemma default_mapping_run (columns : list (string * string))
    (fields : list string) (this : Importer S) :
  Forall (fun field =>
            field <> "" /\ label_of columns field <> ""
            /\ includes (_normalize field) (table_fields this) = true)
         fields ->
  for_each fields (fun field => map (R := unit) (label_of columns field) field)
    this
  = (Normal tt,
     set_mappings
       (foldl (fun m field =>
                 <[_normalize (label_of columns field) := _normalize field]> m)
              (_mappings this) fields)
       this).
Proof.
  revert this. induction fields as [| field fields IH]; intros this Hfields.
  - by destruct this.
  - apply Forall_cons in Hfields as [(Hfield & Hlabel & Hknown) Hfields].
    cbn [for_each foldl]. unfold bind at 1.
    rewrite (map_assigns unit this _ _ Hlabel Hfield Hknown).
    rewrite IH; [reflexivity | exact Hfields].
Qed.

Lemma fold_insert_lookup {A} (key : A -> string) (val : A -> string)
    (l : list A) (m : gmap string string) (x : A) :
  NoDup (key <$> l) -> x ∈ l ->
  foldl (fun m x => <[key x := val x]> m) m l !! key x = Some (val x).
Proof.
  revert m. induction l as [| y l IH]; intros m Hnodup Hx.
  - by apply elem_of_nil in Hx.
  - cbn [fmap list_fmap] in Hnodup.
    apply NoDup_cons in Hnodup as [Hnot Hnodup]. cbn [foldl].
    apply elem_of_cons in Hx as [-> | Hx]; [| by apply IH].
    clear IH. revert m. induction l as [| z l IH]; intros m.
    + apply lookup_insert_eq.
    + cbn [foldl]. cbn [fmap list_fmap] in Hnot, Hnodup.
      apply not_elem_of_cons in Hnot as [Hne Hnot].
      apply NoDup_cons in Hnodup as [_ Hnodup].
      rewrite insert_insert_ne by done. by apply IH.
Qed.

Lemma fold_insert_values {A} (key : A -> string) (val : A -> string)
    (l : list A) (m : gmap string string) (k v : string) :
  foldl (fun m x => <[key x := val x]> m) m l !! k = Some v ->
  m !! k = Some v \/ exists x, x ∈ l /\ v = val x.
Proof.
  revert m. induction l as [| y l IH]; intros m; [by left |].
  cbn [foldl]. intros Hlook. apply IH in Hlook as [Hlook | (x & Hx & ->)].
  - destruct (decide (key y = k)) as [<- | Hne].
    + rewrite lookup_insert_eq in Hlook. simplify_eq.
      right. exists y. split; [left | done].
    + rewrite lookup_insert_ne in Hlook by done. by left.
  - right. exists x. split; [by right | done].
Qed.

(** X16.  On an existing table whose non-system fields have distinct
    non-empty labels, the constructor succeeds; the new importer is the blank
    one but for its mappings, which send the normalized label of every
    non-system field to that field and have no other target: system fields
    are never mapped. *)
Theorem initialize_maps_labels_to_fields
    (tables : gmap string (list (string * string))) (table : string)
    (columns : list (string * string))
    (Htable : table <> "")
    (Hexists : tables !! toLowerCase table = Some columns)
    (Hnames : NoDup (fst <$> columns))
    (Hcolumns : forall name label,
       (name, label) ∈ columns -> startsWith name "sys_" = false ->
       name <> "" /\ label <> "" /\ _normalize name = name)
    (Hlabels : NoDup (_normalize <$> (label_of columns <$> _fields columns))) :
  exists this : Importer S,
    initialize tables table = Ok this
    /\ this
       = set_mappings (_mappings this)
           (blank table (_fields columns))
    /\ (forall name label,
          (name, label) ∈ columns -> startsWith name "sys_" = false ->
          _mappings this !! _normalize label = Some name)
    /\ (forall header field,
          _mappings this !! header = Some field ->
          field ∈ fst <$> columns /\ startsWith field "sys_" = false).
Proof.
  assert (Hfield : forall field, field ∈ _fields columns ->
            exists label, (field, label) ∈ columns
                          /\ startsWith field "sys_" = false).
  { intros field Hin. unfold _fields in Hin. cbv zeta in Hin.
    apply list_elem_of_filter in Hin as [Hsys Hin].
    apply list_elem_of_fmap in Hin as ([name label] & -> & Hin).
    exists label. split; [exact Hin |]. cbn [fst] in *.
    by destruct (startsWith name "sys_"). }
  assert (Hrun : Forall (fun field =>
            field <> "" /\ label_of columns field <> ""
            /\ includes (_normalize field)
                 (table_fields (blank (S := S) table (_fields columns)))
               = true) (_fields columns)).
  { apply Forall_forall. intros field Hin.
    destruct (Hfield field Hin) as (label & Hcol & Hsys).
    destruct (Hcolumns field label Hcol Hsys) as (Hname & Hlabel & Hnorm).
    rewrite (label_of_member columns field label Hnames Hcol).
    repeat split; [exact Hname | exact Hlabel |].
    rewrite Hnorm. by apply includes_true. }
  eexists. split; [| split; [| split]].
  - unfold initialize. apply gs_nil_string in Htable. rewrite Htable.
    cbv zeta. rewrite Hexists. unfold _mapLabelWithName, call, bind at 1,
      get_this. cbv zeta. unfold bind.
    change (table_fields (blank table (_fields columns)))
      with (_fields columns).
    rewrite (default_mapping_run columns (_fields columns) _ Hrun).
    reflexivity.
  - reflexivity.
  - intros name label Hcol Hsys. simpl.
    assert (Hin : name ∈ _fields columns).
    { unfold _fields. cbv zeta. apply list_elem_of_filter. split.
      - by rewrite Hsys.
      - apply list_elem_of_fmap. by exists (name, label). }
    destruct (Hcolumns name label Hcol Hsys) as (_ & _ & Hnorm).
    rewrite <- (label_of_member columns name label Hnames Hcol).
    rewrite <- Hnorm at 2.
    apply (fold_insert_lookup
             (fun field => _normalize (label_of columns field)) _normalize);
      [| exact Hin].
    rewrite <- list_fmap_compose in Hlabels. exact Hlabels.
  - intros header field Hlook. simpl in Hlook.
    apply (fold_insert_values
             (fun field => _normalize (label_of columns field)) _normalize)
      in Hlook as [Hlook | (name & Hin & ->)]; [done |].
    destruct (Hfield name Hin) as (label & Hcol & Hsys).
    destruct (Hcolumns name label Hcol Hsys) as (_ & _ & ->).
    split; [| exact Hsys]. apply list_elem_of_fmap. by exists (name, label).
Qed.

End Initialize.

Section InitializeErrors.

Context {S : Type} `{RecordStore S}.

Lemma map_without_header_throws (R : Type) (this : Importer S)
    (field : string) :
  exists e, map (R := R) "" field this = (Throw e, this).
Proof. eexists. unfold map, call, bind. simpl. reflexivity. Qed.

Lemma default_mapping_throws (columns : list (string * string))
    (fields : list string) (field : string) (this : Importer S) :
  field ∈ fields -> label_of columns field = "" ->
  exists e this',
    for_each fields
      (fun field => map (R := unit) (label_of columns field) field) this
    = (Throw e, this').
Proof.
  intros Hin Hlabel. revert this.
  induction fields as [| f fields IH]; intros this.
  - by apply elem_of_nil in Hin.
  - cbn [for_each]. unfold bind at 1.
    apply elem_of_cons in Hin as [<- | Hin].
    + rewrite Hlabel.
      destruct (map_without_header_throws unit this field) as (e & ->).
      by eexists _, _.
    + destruct (map (label_of columns f) f this) as [[[] | r | e] this1] eqn:Hf.
      * by apply IH.
      * by apply call_not_return in Hf.
      * by eexists _, _.
Qed.

(** X17.  The constructor throws for an empty table name, for a name that
    (in lower case) is not a table of the instance, and for a table one of
    whose non-system fields has no label, since the default mapping of that
    field is refused. *)
Theorem initialize_rejects
    (tables : gmap string (list (string * string))) (table : string) :
  (table = "" ->
   initialize (S := S) tables table
   = Raise (invalid_parameter
              "the 'table' parameter is empty or not a string"))
  /\ (table <> "" -> tables !! toLowerCase table = None ->
      initialize (S := S) tables table
      = Raise (invalid_parameter
                 ("no table with name '" +:+ toLowerCase table
                  +:+ "' exists in the database")))
  /\ (forall columns field,
        table <> "" -> tables !! toLowerCase table = Some columns ->
        field ∈ _fields columns -> label_of columns field = "" ->
        exists e, initialize (S := S) tables table = Raise e).
Proof.
  split; [| split].
  - intros ->. reflexivity.
  - intros Htable Hnone. unfold initialize.
    apply gs_nil_string in Htable. rewrite Htable. cbv zeta.
    by rewrite Hnone.
  - intros columns field Htable Hsome Hin Hlabel. unfold initialize.
    apply gs_nil_string in Htable. rewrite Htable. cbv zeta. rewrite Hsome.
    unfold _mapLabelWithName, call, bind at 1, get_this. cbv zeta.
    unfold bind.
    change (table_fields (blank table (_fields columns)))
      with (_fields columns).
    destruct (default_mapping_throws columns (_fields columns) field
                (blank table (_fields columns)) Hin Hlabel)
      as (e & this' & ->).
    by exists e.
Qed.

End InitializeErrors.

(** ** Transformation *)

Section Transform.

Context {S : Type} `{RecordStore S}.

Lemma transform_pipeline_run {R} (field : string)
    (transformations : list (Transform S)) (j : nat) (value : Value)
    (w : World S) :
  exists w',
    fold_each (R := R) transformations (j, value)
      (fun '(j, value) f =>
         emit (EvTransform field j) ;;
         value' <- call_user (f value) ;;
         ret (Datatypes.S j, value')) w
    = (match fst (run_transforms transformations value (store w)) with
       | Ok value' => Normal (j + List.length transformations, value')
       | Raise e => Throw e
       end, w')
    /\ store w' = snd (run_transforms transformations value (store w)).
Proof.
  revert j value w.
  induction transformations as [| f rest IH]; intros j value w.
  - exists w. simpl. rewrite Nat.add_0_r. done.
  - cbn [fold_each run_transforms]. unfold bind at 1. unfold bind at 1.
    unfold emit at 1. unfold bind at 1. unfold call_user at 1. cbn [store].
    destruct (f value (store w)) as [[value' | e] s1] eqn:Hf.
    + cbn [fst snd completion_of]. unfold ret at 1.
      destruct (IH (Datatypes.S j) value'
                  {| store := s1; stream_open := stream_open w;
                     log := EvTransform field j :: log w |})
        as (w' & Hrun & Hstore).
      exists w'. cbn [stream_open log]. rewrite Hrun.
      split; [| exact Hstore]. cbn [store].
      destruct (fst (run_transforms rest value' s1)); [| done].
      cbn [List.length]. do 3 f_equal. lia.
    + eexists. split; [reflexivity | done].
Qed.

Lemma transform_entries_keys (this : Importer S) (row row' : JsObj)
    (s s' : S) :
  transform_entries this row s = (Ok row', s') ->
  obj_keys row' = obj_keys row.
Proof.
  revert row' s. induction row as [| [field value] row IH]; intros row' s.
  - by intros [= <- <-].
  - cbn [transform_entries].
    destruct (run_transforms _ value s) as [[value' | t] s1]; [| done].
    destruct (transform_entries this row s1) as [[rest | t] s2] eqn:Hrest;
      [| done].
    intros [= <- <-]. unfold obj_keys in *. cbn [fmap list_fmap]. f_equal.
    by apply (IH rest s1).
Qed.

Lemma transform_loop_run (this : Importer S) (row part acc : JsObj)
    (w : World S) :
  (forall kv, kv ∈ part -> obj_get (fst kv) row = snd kv) ->
  NoDup (obj_keys acc ++ obj_keys part) ->
  exists w',
    fold_each (R := JsObj) (obj_keys part) acc
      (fun data field =>
         let value := obj_get field row in
         value <-
           match _transforms this !! field with
           | None => ret value
           | Some transformations =>
               context <-
                 fold_each transformations (0, value) (fun '(j, value) f =>
                   emit (EvTransform field j) ;;
                   value' <- call_user (f value) ;;
                   ret (Datatypes.S j, value')) ;;
               ret (snd context)
           end ;;
         ret (obj_set field value data)) w
    = (match fst (transform_entries this part (store w)) with
       | Ok part' => Normal (acc ++ part')
       | Raise e => Throw e
       end, w')
    /\ store w' = snd (transform_entries this part (store w)).
Proof.
  revert acc w. induction part as [| [field value] part IH];
    intros acc w Hvalues Hnodup.
  - exists w. simpl. by rewrite app_nil_r.
  - assert (Hvalue : obj_get field row = value)
      by (apply (Hvalues (field, value)); left).
    assert (Hfresh : field ∉ obj_keys acc).
    { apply NoDup_app in Hnodup as (_ & Hdisjoint & _).
      intros Hin. apply (Hdisjoint field Hin). left. }
    unfold obj_keys at 1. cbn [fmap list_fmap fold_each transform_entries].
    cbv beta zeta in IH |- *. cbn [fst]. rewrite Hvalue.
    unfold bind at 1. unfold bind at 1.
    assert (Hstep : exists w1,
      match _transforms this !! field with
      | Some transformations =>
          context <-
            fold_each (R := JsObj) transformations (0, value)
              (fun '(j, value) f =>
                 emit (EvTransform field j) ;;
                 value' <- call_user (f value) ;;
                 ret (Datatypes.S j, value')) ;;
          ret (snd context)
      | None => ret value
      end w
      = (match fst (run_transforms (default [] (_transforms this !! field))
                      value (store w))
         with
         | Ok value' => Normal value'
         | Raise e => Throw e
         end, w1)
      /\ store w1
         = snd (run_transforms (default [] (_transforms this !! field))
                  value (store w))).
    { destruct (_transforms this !! field) as [transformations |].
      - destruct (transform_pipeline_run (R := JsObj) field transformations 0
                    value w) as (w1 & Hrun & Hstore).
        exists w1. unfold bind at 1. rewrite Hrun. split; [| exact Hstore].
        simpl.
        by destruct (fst (run_transforms transformations value (store w))).
      - by exists w. }
    destruct Hstep as (w1 & -> & Hstore1).
    destruct (run_transforms (default [] (_transforms this !! field)) value
                (store w)) as [[value' | e] s1]; cbn [fst snd] in *;
      [| by exists w1].
    unfold ret at 1.
    destruct (IH (obj_set field value' acc) w1) as (w' & Hrun & Hstore).
    + intros kv Hkv. apply Hvalues. by right.
    + rewrite obj_set_fresh by exact Hfresh. unfold obj_keys in *.
      rewrite fmap_app. cbn [fmap list_fmap] in *.
      rewrite <- app_assoc. exact Hnodup.
    + exists w'. rewrite Hstore1 in Hrun, Hstore.
      change (fst <$> part) with (obj_keys part). rewrite Hrun.
      rewrite obj_set_fresh by exact Hfresh.
      destruct (transform_entries this part s1) as [[part' | t] s2];
        cbn [fst snd] in *; [| done].
      by rewrite <- app_assoc.
Qed.




End Transform.

Section Pipelines.

Context {S : Type} `{RecordStore S}.

Lemma run_transforms_app (before : list (Transform S)) (f : Transform S)
    (value : Value) (s : S) :
  run_transforms (before ++ [f]) value s
  = match run_transforms before value s with
    | (Ok value', s') => f value' s'
    | (Raise e, s') => (Raise e, s')
    end.
Proof.
  revert value s. induction before as [| g before IH]; intros value s.
  - simpl. by destruct (f value s) as [[value' | t] s'].
  - cbn [app run_transforms].
    destruct (g value s) as [[value' | t] s']; [apply IH | done].
Qed.

(** X25.  [transform] appends to the pipeline of the field and touches no
    other field: once registered, the method gets what the methods
    registered before it made of the cell, in the state they leave, and what
    it returns (or throws) is what the transformation stage gives for that
    field. *)
Theorem transform_runs_after_earlier_transforms (R : Type)
    (this : Importer S) (field : string) (f : Transform S)
    (Hfield : field <> "")
    (Hknown : includes (_normalize field) (table_fields this) = true) :
  exists this',
    transform (R := R) field f this = (Normal tt, this')
    /\ (forall other, other <> _normalize field ->
          _transforms this' !! other = _transforms this !! other)
    /\ forall (value : Value) (w : World S),
         exists w',
           _transformRowValues (R := R) this' [(_normalize field, value)] w
           = (match run_transforms
                      (default [] (_transforms this !! _normalize field))
                      value (store w) with
              | (Ok value', s') =>
                  match fst (f value' s') with
                  | Ok value'' => Normal [(_normalize field, value'')]
                  | Raise e => Throw e
                  end
              | (Raise e, _) => Throw e
              end, w')
           /\ store w'
              = match run_transforms
                        (default [] (_transforms this !! _normalize field))
                        value (store w) with
                | (Ok value', s') => snd (f value' s')
                | (Raise _, s') => s'
                end.
Proof.
  eexists. split; [| split].
  - unfold transform, call, bind, when, get_this, assign.
    apply gs_nil_string in Hfield. rewrite Hfield. simpl.
    rewrite Hknown. reflexivity.
  - intros other Hother. simpl. by apply lookup_insert_ne.
  - intros value w.
    match goal with
    | |- context [_transformRowValues ?t _ _] => set (this' := t)
    end.
    destruct (transform_loop_run this' [(_normalize field, value)]
                [(_normalize field, value)] [] w)
      as (w' & Hrun & Hstore).
    + intros kv Hkv. apply list_elem_of_singleton in Hkv as ->.
      unfold obj_get. simpl. by rewrite decide_True.
    + apply NoDup_singleton.
    + exists w'.
      assert (Hentries :
        transform_entries this' [(_normalize field, value)] (store w)
        = match run_transforms
                  (default [] (_transforms this !! _normalize field) ++ [f])
                  value (store w) with
          | (Ok value', s') => (Ok [(_normalize field, value')], s')
          | (Raise t, s') => (Raise t, s')
          end).
      { cbn [transform_entries]. unfold this' at 1. simpl _transforms.
        rewrite lookup_insert_eq. cbn [default]. unfold id.
        by destruct (run_transforms _ value (store w))
          as [[value' | t] s']. }
      rewrite Hentries, run_transforms_app in Hrun, Hstore.
      split.
      * unfold _transformRowValues, call. unfold bind at 1.
        cbv zeta in Hrun. rewrite Hrun.
        destruct (run_transforms _ value (store w)) as [[value' | t] s'];
          [| done].
        by destruct (f value' s') as [[value'' | t] s''].
      * rewrite Hstore.
        destruct (run_transforms _ value (store w)) as [[value' | t] s'];
          [| done].
        by destruct (f value' s') as [[value'' | t] s''].
Qed.

End Pipelines.

(** ** Validation and persistence *)

Section Stages.
Context {S : Type} `{RecordStore S}.



Lemma coalescence_conditions_fold (data : JsObj) (fields : list string)
    (conditions : list (string * Value)) :
  foldl (fun conditions field =>
           if gs_nil (obj_get field data) then conditions
           else conditions ++ [(field, obj_get field data)])
        conditions fields
  = conditions
    ++ ((fun field => (field, obj_get field data))
          <$> filter (fun field => gs_nil (obj_get field data) = false)
                fields).
Proof.
  revert conditions. induction fields as [| field fields IH];
    intros conditions.
  - simpl. by rewrite app_nil_r.
  - cbn [foldl]. destruct (gs_nil (obj_get field data)) eqn:Hnil.
    + rewrite filter_cons_False by (by rewrite Hnil). apply IH.
    + rewrite filter_cons_True by exact Hnil. rewrite IH.
      rewrite fmap_cons. by rewrite <- app_assoc.
Qed.

Lemma coalescence_conditions_query (this : Importer S) (data : JsObj) :
  coalescence_conditions this data = coalescence_query this data.
Proof.
  unfold coalescence_conditions, coalescence_query.
  by rewrite coalescence_conditions_fold.
Qed.

Lemma createUpdateRecord_without_fields (R : Type) (this : Importer S)
    (data : JsObj) (w : World S) :
  _coalescing this = [] ->
  _createUpdateRecord (R := R) this data w = record_insert data w.
Proof.
  intros Hfields.
  unfold _createUpdateRecord, _getCoalescenceRecord. rewrite Hfields.
  unfold call, bind, when, return_, record_insert. simpl.
  by destruct (gr_insert data (store w)).
Qed.

Lemma coalescence_loop (this : Importer S) (s : S)
    (candidates : list string) (w : World S) :
  store w = s ->
  (forall f sys_id,
     _events this !! _normalize "onCoalesce" = Some f ->
     sys_id ∈ candidates ->
     exists reply,
       f (payload_of None None (VStr sys_id)) s = (Ok reply, s)) ->
  exists w1 calls,
    store w1 = store w
    /\ stream_open w1 = stream_open w
    /\ log w1 = calls ++ log w
    /\ Forall (fun ev =>
                 exists data, ev = EvCallback (_normalize "onCoalesce") data)
         calls
    /\ for_each (R := Value) candidates (fun sys_id =>
         reply <- _triggerEvent this "onCoalesce" None None (VStr sys_id) ;;
         let valid := fst reply in
         when (gs_nil valid || truthy valid) (return_ (VStr sys_id))) w
       = (match filter (fun sys_id => accepted this s sys_id = true)
                  candidates with
          | sys_id :: _ => Return (VStr sys_id)
          | [] => Normal tt
          end, w1).
Proof.
  intros Hstore. revert w Hstore.
  induction candidates as [| sys_id candidates IH]; intros w Hstore Hcallback.
  - exists w, []. by repeat split.
  - cbn [for_each]. unfold bind at 1. unfold bind at 1.
    destruct (_events this !! _normalize "onCoalesce") as [f |] eqn:Hf.
    + destruct (Hcallback f sys_id eq_refl ltac:(left))
        as ([valid row'] & Hvalid).
      rewrite (triggerEvent_returns this _ _ _ _ f w valid row' s Hf)
        by (by rewrite Hstore).
      cbn [fst].
      assert (Haccepted :
                accepted this s sys_id = (gs_nil valid || truthy valid)).
      { unfold accepted. by rewrite Hf, Hvalid. }
      assert (Hsame :
        with_store s
          (logged (EvCallback (_normalize "onCoalesce")
                     (payload_of None None (VStr sys_id))) w)
        = logged (EvCallback (_normalize "onCoalesce")
                    (payload_of None None (VStr sys_id))) w).
      { unfold with_store, logged. simpl. by rewrite Hstore. }
      rewrite Hsame.
      destruct (gs_nil valid || truthy valid) eqn:Hok.
      * rewrite filter_cons_True by exact Haccepted.
        exists (logged (EvCallback (_normalize "onCoalesce")
                          (payload_of None None (VStr sys_id))) w),
          [EvCallback (_normalize "onCoalesce")
             (payload_of None None (VStr sys_id))].
        split; [reflexivity |]. split; [reflexivity |].
        split; [reflexivity |]. split; [| reflexivity].
        constructor; [by eexists | constructor].
      * rewrite filter_cons_False by (by rewrite Haccepted).
        destruct (IH (logged (EvCallback (_normalize "onCoalesce")
                                (payload_of None None (VStr sys_id))) w))
          as (w1 & calls & Hs & Hopen & Hlog & Hcalls & Hrun).
        -- exact Hstore.
        -- intros f' id Hf' Hid. apply Hcallback; [exact Hf' | by right].
        -- exists w1, (calls ++ [EvCallback (_normalize "onCoalesce")
                                   (payload_of None None (VStr sys_id))]).
           split; [rewrite Hs; reflexivity |]. split; [exact Hopen |].
           split; [by rewrite <- app_assoc |]. split; [| exact Hrun].
           apply Forall_app. split; [exact Hcalls |].
           constructor; [by eexists | constructor].
    + rewrite triggerEvent_unregistered by exact Hf.
      assert (Haccepted : accepted this s sys_id = true).
      { unfold accepted. by rewrite Hf. }
      cbn [fst]. rewrite filter_cons_True by exact Haccepted.
      exists w, []. by repeat split.
Qed.

(** X20.  Persisting a row.  Without coalescing field the row is inserted
    and the table is not queried.  With coalescing fields the table is
    queried once, with one condition per coalescing field that has a value in
    the row, and nothing but [onCoalesce] calls follows the query; when that
    callback does not throw and leaves the state as it is, the row updates
    the first matching record the callback accepts (every match is accepted
    when no callback is registered), and is inserted when there is none. *)
Theorem first_accepted_candidate_is_updated (R : Type) (this : Importer S)
    (data : JsObj) (w : World S) :
  (_coalescing this = [] ->
   _createUpdateRecord (R := R) this data w = record_insert data w)
  /\ (_coalescing this <> [] ->
      (forall f sys_id,
         _events this !! _normalize "onCoalesce" = Some f ->
         sys_id ∈ gr_query (coalescence_query this data) (store w) ->
         exists reply,
           f (payload_of None None (VStr sys_id)) (store w)
           = (Ok reply, store w)) ->
      exists w1 calls,
        store w1 = store w
        /\ stream_open w1 = stream_open w
        /\ log w1 = calls ++ EvQuery (coalescence_query this data) :: log w
        /\ Forall (fun ev =>
                     exists data,
                       ev = EvCallback (_normalize "onCoalesce") data) calls
        /\ _createUpdateRecord (R := R) this data w
           = match filter (fun sys_id => accepted this (store w) sys_id = true)
                     (gr_query (coalescence_query this data) (store w)) with
             | sys_id :: _ =>
                 if decide (sys_id = "") then record_insert data w1
                 else record_update sys_id data w1
             | [] => record_insert data w1
             end).
Proof.
  split; [apply createUpdateRecord_without_fields |].
  intros Hfields Hcallback.
  destruct (coalescence_loop this (store w)
              (gr_query (coalescence_query this data) (store w))
              (logged (EvQuery (coalescence_query this data)) w)
              eq_refl Hcallback)
    as (w1 & calls & Hstore & Hopen & Hlog & Hcalls & Hloop).
  exists w1, calls. split; [exact Hstore |]. split; [exact Hopen |].
  split; [exact Hlog |]. split; [exact Hcalls |].
  unfold _createUpdateRecord, _getCoalescenceRecord.
  assert (Hsome : Nat.eqb (List.length (_coalescing this)) 0 = false)
    by (by destruct (_coalescing this)).
  rewrite Hsome. cbn [when]. cbv zeta. rewrite coalescence_conditions_query.
  unfold call at 1. unfold bind at 1. unfold call at 1.
  unfold bind at 1. unfold ret at 1. unfold bind at 1. unfold get_store at 1.
  unfold bind at 1. unfold emit at 1. unfold bind at 1.
  cbn [store]. fold (logged (EvQuery (coalescence_query this data)) w).
  cbv zeta in Hloop. rewrite Hloop.
  destruct (filter _ _) as [| sys_id rest].
  - unfold return_ at 1. unfold bind. change (gs_nil VNull) with true.
    cbv iota. unfold record_insert. by destruct (gr_insert data (store w1)).
  - unfold bind. destruct (decide (sys_id = "")) as [-> | Hid].
    + change (gs_nil (VStr "")) with true. cbv iota. unfold record_insert.
      by destruct (gr_insert data (store w1)).
    + unfold gs_nil. rewrite decide_False by exact Hid. simpl.
      unfold record_update. by destruct (gr_update sys_id data (store w1)).
Qed.

End Stages.

(** ** Virtual mode and sloppy mode *)

Section Modes.
Context {S : Type} `{RecordStore S}.

(** X21.  In virtual mode the importer never writes, whatever the file,
    the configuration and the callbacks do, and whether the import completes
    or is stopped at line 177: no insert and no update is logged; the state
    is the one it started from when the caller's functions leave it as it
    is; when the import completes no row result names a record (its target
    is [null], or the field of a failed validation); and it completes when
    whatever is thrown can be serialised. *)
Theorem virtual_import_never_writes (R : Type) (this : Importer S)
    (file : File) (w : World S)
    (Hmode : _virtual this = true) :
  let run := import (R := R) this file w in
  writes (log (snd run)) = writes (log w)
  /\ (keeps eq this -> store (snd run) = store w)
  /\ (forall result, fst run = Normal result ->
      forall row_result, row_result ∈ row_results result ->
        rr_target row_result = VNull
        \/ rr_code row_result = RCODES.SKIPPED_VALIDATION)
  /\ (throws (fun t => serialisable t = true) this ->
      readable (f_rows file) ->
      exists result, fst run = Normal result).
Proof.
  intros run. unfold run. clear run.
  destruct (f_parses file) eqn:Hparses.
  2: { rewrite import_parsing_error by done. simpl.
       split; [unfold writes; by rewrite filter_cons_False |].
       split; [done |]. split; [| by eexists].
       intros result [= <-] row_result Hin. by apply elem_of_nil in Hin. }
  assert (Hlog : writes (log (opened w)) = writes (log w))
    by (unfold writes; simpl; by rewrite filter_cons_False).
  assert (Hpassed :
    _sloppy this = true
    \/ hc_success (_validateHeaders this (f_headers file)) = true ->
    writes (log (snd (import (R := R) this file w))) = writes (log w)
    /\ (keeps eq this -> store (snd (import (R := R) this file w)) = store w)
    /\ (forall result, fst (import (R := R) this file w) = Normal result ->
        forall row_result, row_result ∈ row_results result ->
          rr_target row_result = VNull
          \/ rr_code row_result = RCODES.SKIPPED_VALIDATION)
    /\ (throws (fun t => serialisable t = true) this ->
        readable (f_rows file) ->
        exists result, fst (import (R := R) this file w) = Normal result)).
  { intros Hheaders.
    rewrite (import_passed this file w Hparses Hheaders).
    pose proof (import_rows_virtual_frame (R := ImportResult) unwritten
                  (fun _ _ => True) this (f_rows file) 2 [] (opened w)
                  unwritten_emit unwritten_user (keeps_anything _) Hmode
                  ltac:(constructor)) as [[_ Hwrites] Htargets].
    assert (Hstore : keeps eq this ->
              store (snd (import_rows (R := ImportResult) this
                            (f_rows file) 2 [] (opened w))) = store w).
    { intros Hkeeps.
      apply (import_rows_virtual_frame (R := ImportResult) quiet eq this
               (f_rows file) 2 [] (opened w) quiet_emit quiet_user Hkeeps
               Hmode ltac:(constructor)). }
    assert (Htotal :
      throws (fun t => serialisable t = true) this ->
      readable (f_rows file) ->
      exists results w',
        import_rows (R := ImportResult) this (f_rows file) 2 [] (opened w)
        = (Normal results, w')).
    { intros Hthrows Hreadable.
      destruct (import_rows_total (R := ImportResult) this (f_rows file) 2
                  (opened w) Hthrows Hreadable)
        as (results & w' & Hrun & _).
      exists results, w'. exact (Hrun []). }
    destruct (import_rows this (f_rows file) 2 [] (opened w))
      as [[results | r | t] w'] eqn:Hrun;
      simpl in Hwrites, Htargets, Hstore.
    - simpl. split.
      { unfold writes in *. rewrite filter_cons_False by done.
        by rewrite Hwrites. }
      split; [exact Hstore |]. split; [| by eexists].
      intros result [= <-] row_result Hin. simpl in Hin.
      rewrite Forall_forall in Htargets. by apply Htargets.
    - by apply import_rows_not_return in Hrun.
    - simpl. split; [by rewrite Hwrites |]. split; [exact Hstore |].
      split; [done |]. intros Hthrows Hreadable.
      by destruct (Htotal Hthrows Hreadable) as (results & w'' & ?). }
  destruct (_sloppy this) eqn:Hsloppy; [apply Hpassed; by left |].
  destruct (hc_success (_validateHeaders this (f_headers file)))
    eqn:Hheaders; [apply Hpassed; by right |].
  rewrite import_missing_header by done. simpl.
  split; [unfold writes; by rewrite filter_cons_False |].
  split; [done |]. split; [| by eexists].
  intros result [= <-] row_result Hin. by apply elem_of_nil in Hin.
Qed.

Lemma triggerEvent_same {R} (this this' : Importer S) event row index sys_id
    (w : World S) :
  _events this' !! _normalize event = _events this !! _normalize event ->
  _triggerEvent (R := R) this' event row index sys_id w
  = _triggerEvent this event row index sys_id w.
Proof. intros Hsame. unfold _triggerEvent, call. cbv zeta. by rewrite Hsame. Qed.

Lemma row_event_same (this this' : Importer S) event row index sys_id
    (w : World S) :
  _events this' !! _normalize event = _events this !! _normalize event ->
  row_event this' event row index sys_id w
  = row_event this event row index sys_id w.
Proof.
  intros Hsame. unfold row_event. apply bind_ext; [| done].
  intros w'. by apply triggerEvent_same.
Qed.

Lemma transform_stage_same (this this' : Importer S) (row : JsObj)
    (index : nat) (w : World S) :
  same_apart_from_validation this this' ->
  _parseRow_transform this' index row w = _parseRow_transform this index row w.
Proof.
  intros (_ & _ & _ & Htransforms & _ & _ & Hevents).
  unfold _parseRow_transform, _transformRowValues. rewrite Htransforms.
  apply bind_ext; [done |].
  intros row' w'. apply row_event_same, Hevents.
  intros Hin.
  repeat (apply elem_of_cons in Hin as [Hin | Hin];
          [vm_compute in Hin; discriminate Hin |]).
  by apply elem_of_nil in Hin.
Qed.

Lemma other_event (event : string) :
  event ∈ ["onRowRead"; "onRowTransformed"; "onCoalesce"; "onRowImported"] ->
  _normalize event
  ∉ [_normalize "onRowValidating"; _normalize "onRowValidated"].
Proof.
  intros Hin Hin'.
  repeat (apply elem_of_cons in Hin as [-> | Hin]);
    try (by apply elem_of_nil in Hin);
    repeat (apply elem_of_cons in Hin' as [Hin' | Hin']);
    try (vm_compute in Hin'; discriminate Hin');
    by apply elem_of_nil in Hin'.
Qed.

Lemma process_sloppy_same (this this' : Importer S) (row : JsObj)
    (index : nat) (w : World S) :
  _sloppy this = true ->
  same_apart_from_validation this this' ->
  _parseRow_process this' row index w = _parseRow_process this row index w.
Proof.
  intros Hsloppy Hsame.
  pose proof Hsame as (_ & Hsloppy' & Hmappings & Htransforms & _ & Hignored
                       & Hevents).
  unfold _parseRow_process, _parseRow_mapped. rewrite Hsloppy', Hsloppy.
  cbn [negb].
  unfold _ignoreRowHeaders, _mapHeadersToFields.
  rewrite Hignored, Hmappings.
  apply bind_ext.
  { intros w'. apply row_event_same, Hevents, other_event.
    repeat constructor. }
  intros row' w'. cbv zeta. by apply transform_stage_same.
Qed.

Lemma createUpdateRecord_same {R} (this this' : Importer S) (data : JsObj)
    (w : World S) :
  same_apart_from_validation this this' ->
  _createUpdateRecord (R := R) this' data w
  = _createUpdateRecord this data w.
Proof.
  intros (_ & _ & _ & _ & Hcoalescing & _ & Hevents).
  unfold _createUpdateRecord, call.
  match goal with
  | |- (let (_, _) := ?a in _) = (let (_, _) := ?b in _) =>
      assert (Hsame : a = b); [| by rewrite Hsame]
  end.
  apply bind_ext; [| done]. clear w. intros w.
  unfold _getCoalescenceRecord, call, coalescence_conditions.
  rewrite Hcoalescing.
  match goal with
  | |- (let (_, _) := ?a in _) = (let (_, _) := ?b in _) =>
      assert (Hsame : a = b); [| by rewrite Hsame]
  end.
  apply bind_ext; [done |]. intros _ w1. cbv zeta.
  apply bind_ext; [done |]. intros s w2.
  apply bind_ext; [done |]. intros _ w3.
  apply bind_ext; [| done].
  induction (gr_query _ s) as [| sys_id ids IH]; intros w4.
  - reflexivity.
  - cbn [for_each]. apply bind_ext; [| intros _ w'; apply IH].
    intros w'. apply bind_ext; [| done].
    intros w''. apply triggerEvent_same, Hevents, other_event.
    repeat constructor.
Qed.

Lemma parseRow_sloppy_same {R} (this this' : Importer S)
    (parser_getRow : Res JsObj) (index : nat) (w : World S) :
  _sloppy this = true ->
  same_apart_from_validation this this' ->
  _parseRow (R := R) this' parser_getRow index w
  = _parseRow this parser_getRow index w.
Proof.
  intros Hsloppy Hsame. pose proof Hsame as (Hvirtual & _ & _ & _ & _ & _
                                              & Hevents).
  unfold _parseRow, _parseRow_catch, call, try_catch.
  assert (Hbody : _parseRow_body this' parser_getRow index w
                  = _parseRow_body this parser_getRow index w);
    [| by rewrite Hbody].
  unfold _parseRow_body. apply bind_ext.
  - intros w1. unfold _parseRow_prepare. apply bind_ext; [done |].
    intros raw w2. cbv zeta. apply bind_ext; [done |].
    intros _ w3. by apply process_sloppy_same.
  - intros row w1. unfold _parseRow_persist. rewrite Hvirtual.
    apply bind_ext; [| done]. intros w2.
    destruct (negb (_virtual this)); [| done].
    apply bind_ext; [intros w3; by apply createUpdateRecord_same |].
    intros sys_id w3. apply bind_ext; [| done].
    intros w4. apply row_event_same, Hevents, other_event.
    repeat constructor.
Qed.

(** X22.  In sloppy mode nothing of the validation is consulted: two
    importers that differ only in their validation methods, their required
    headers and their [onRowValidating] and [onRowValidated] callbacks give
    the same result and leave the same world (table, stream and log of
    calls) on every file. *)
Theorem sloppy_mode_consults_no_validation (R : Type)
    (this this' : Importer S) (file : File) (w : World S)
    (Hsloppy : _sloppy this = true)
    (Hsame : same_apart_from_validation this this') :
  import (R := R) this' file w = import this file w.
Proof.
  pose proof Hsame as (_ & Hsloppy' & _).
  unfold import, call.
  match goal with
  | |- (let (_, _) := ?a in _) = (let (_, _) := ?b in _) =>
      assert (Hbody : a = b); [| by rewrite Hbody]
  end.
  apply bind_ext; [done |]. intros _ w1. cbv zeta.
  apply bind_ext; [done |]. intros _ w2.
  rewrite Hsloppy', Hsloppy. cbn [negb when].
  apply bind_ext; [done |]. intros _ w3.
  apply bind_ext; [| done].
  generalize 2 ([] : list RowResult).
  induction (f_rows file) as [| r rows IH]; intros index results w4.
  - reflexivity.
  - cbn [import_rows]. apply bind_ext.
    + intros w'. by apply parseRow_sloppy_same.
    + intros obj w'. apply bind_ext; [done |]. intros _ w''. apply IH.
Qed.

End Modes.

(** ** The methods repository *)

Lemma replace_last_dot_split (integer fraction : list ascii) :
  forallb (fun c => negb (is_dot c)) fraction = true ->
  replace_last_dot (integer ++ "." % char :: fraction)
  = integer ++ "," % char :: fraction.
Proof.
  intros Hfraction. induction integer as [| c integer IH].
  - simpl. by rewrite Hfraction.
  - cbn [app replace_last_dot].
    assert (Hdot : forallb (fun c' => negb (is_dot c'))
                     (integer ++ "." % char :: fraction) = false).
    { rewrite forallb_app. simpl. apply andb_false_r. }
    rewrite Hdot, andb_false_r. by rewrite IH.
Qed.

Lemma remove_dots_none (l : list ascii) :
  forallb (fun c => negb (is_dot c)) l = true -> remove_dots l = l.
Proof.
  unfold remove_dots. induction l as [| c l IH]; [done |].
  simpl. intros [Hc Hl]%andb_true_iff. apply negb_true_iff in Hc.
  rewrite filter_cons_True by exact Hc. by rewrite IH.
Qed.

Lemma remove_dots_no_dot (l : list ascii) : "." % char ∉ remove_dots l.
Proof.
  unfold remove_dots. intros [Hdot _]%list_elem_of_filter. done.
Qed.

(** X24.  [STRING_TO_EXCEL_NUMBER] on a string that, once trimmed, has a
    dot: the last dot becomes the decimal comma, every other dot (thousand
    separator) is removed and all other characters are kept, so no dot is
    left in the result. *)
Theorem excel_number_keeps_the_last_separator (s : string)
    (integer fraction : list ascii)
    (Hsplit : trim (list_ascii_of_string s)
              = integer ++ "." % char :: fraction)
    (Hfraction : "." % char ∉ fraction) :
  STRING_TO_EXCEL_NUMBER (VStr s)
  = Ok (VStr (string_of_list_ascii
                (remove_dots integer ++ "," % char :: fraction)))
  /\ "." % char ∉ remove_dots integer ++ "," % char :: fraction.
Proof.
  assert (Hnone : forallb (fun c => negb (is_dot c)) fraction = true).
  { clear Hsplit. induction fraction as [| c fraction IH]; [done |].
    apply not_elem_of_cons in Hfraction as [Hc Hrest].
    simpl. rewrite IH by exact Hrest. rewrite andb_true_r.
    apply negb_true_iff. unfold is_dot. apply Ascii.eqb_neq. congruence. }
  split.
  - unfold STRING_TO_EXCEL_NUMBER.
    assert (Hs : s <> "").
    { intros ->. by destruct integer. }
    unfold gs_nil. rewrite decide_False by exact Hs.
    cbv zeta. rewrite Hsplit, replace_last_dot_split by exact Hnone.
    unfold remove_dots at 1. rewrite filter_app.
    rewrite filter_cons_True by reflexivity.
    fold (remove_dots integer). fold (remove_dots fraction).
    by rewrite (remove_dots_none fraction).
  - intros [Hin | Hin]%elem_of_app.
    + by apply remove_dots_no_dot in Hin.
    + apply elem_of_cons in Hin as [Hin | Hin]; [discriminate Hin | done].
Qed.

(** X23.  Validation and transformation of booleans fit together: a cell
    that [IS_BOOLEAN] accepts is a string on which [STRING_TO_BOOLEAN] does
    not throw, and converts to [true] exactly for the spellings of YES, Y,
    TRUE and 1. *)
Theorem accepted_booleans_convert {S : Type} (row : JsObj) (field : string)
    (st : S)
    (Hvalid : IS_BOOLEAN row field st = Ok (VBool true)) :
  exists s,
    obj_get field row = VStr s
    /\ STRING_TO_BOOLEAN (VStr s)
       = Ok (VBool (includes (toUpperCase s) ["YES"; "Y"; "TRUE"; "1"])).
Proof.
  unfold IS_BOOLEAN in Hvalid. cbv zeta in Hvalid.
  destruct (obj_get field row) as [| | [] | n | s]; try discriminate Hvalid.
  - unfold js_or in Hvalid. simpl in Hvalid.
    destruct (negb (n =? 0)%Z); discriminate Hvalid.
  - exists s. split; [reflexivity |].
    assert (Hmember :
      toUpperCase s ∈ ["YES"; "Y"; "TRUE"; "1"; "NO"; "N"; "FALSE"; "0"]).
    { unfold js_or, truthy in Hvalid.
      destruct (decide (s = "")) as [-> | _]; [discriminate Hvalid |].
      injection Hvalid as Hvalid. unfold includes in Hvalid.
      by destruct (decide (toUpperCase s ∈ _)). }
    unfold STRING_TO_BOOLEAN. cbv zeta.
    rewrite <- (trim_fmap to_upper_char) by apply to_upper_char_whitespace.
    assert (Hupper : to_upper_char <$> list_ascii_of_string s
                     = list_ascii_of_string (toUpperCase s)).
    { unfold toUpperCase. by rewrite list_ascii_of_string_of_list_ascii. }
    rewrite Hupper.
    repeat (apply elem_of_cons in Hmember as [-> | Hmember];
            [vm_compute; reflexivity |]).
    by apply elem_of_nil in Hmember.
Qed.

(** ** The further properties on the samples *)

Lemma normalize_idempotent_witness :
  _normalize (_normalize "  User   NAME ") = _normalize "  User   NAME ".
Proof. apply (normalize_idempotent "  User   NAME "). reflexivity. Defined.

Lemma normalize_ignores_case_witness :
  _normalize (toLowerCase "E-Mail Address") = _normalize "E-Mail Address"
  /\ _normalize (toUpperCase "E-Mail Address") = _normalize "E-Mail Address".
Proof. apply (normalize_ignores_case "E-Mail Address"). reflexivity. Defined.

Lemma normalizeRowHeaders_keys_witness :
  _normalizeRowHeaders [("  Name ", VStr "Ann"); ("E-Mail", VNull)]
  = [("name", VStr "Ann"); ("e-mail", VNull)].
Proof.
  destruct (normalizeRowHeaders_keys
              [("  Name ", VStr "Ann"); ("E-Mail", VNull)]
              ltac:(vm_compute; reflexivity))
    as (_ & _ & _ & Hrow).
  rewrite Hrow; [reflexivity |].
  apply (bool_decide_unpack _). vm_compute. exact I.
Defined.

Lemma mapHeadersToFields_fields_witness :
  let row := [("name", VStr "Ann"); ("phone", VStr "555")] in
  NoDup (obj_keys (_mapHeadersToFields Sample.users row))
  /\ forall field,
       field ∈ obj_keys (_mapHeadersToFields Sample.users row)
       <-> exists header,
             header ∈ obj_keys row /\ maps_to Sample.users header field.
Proof.
  intros row.
  apply (mapHeadersToFields_fields Sample.users row).
  - vm_compute. reflexivity.
  - intros header field Hin [Hmaps _].
    repeat (apply elem_of_cons in Hin as [-> | Hin];
            [vm_compute in Hmaps;
             first [discriminate Hmaps
                   | injection Hmaps as <-; vm_compute; reflexivity] |]).
    by apply elem_of_nil in Hin.
Defined.

Lemma ignoreRowHeaders_filter_witness :
  _ignoreRowHeaders Cases.tracked Cases.noted
  = filter (fun kv => includes (fst kv) (_ignored Cases.tracked) = false)
      Cases.noted.
Proof.
  apply (ignoreRowHeaders_filter Cases.tracked Cases.noted).
  apply (bool_decide_unpack _). vm_compute. exact I.
Defined.

Lemma mapHeadersToFields_last_header_wins_witness :
  obj_get "u_name"
    (_mapHeadersToFields Cases.aliased
       ([("name", VStr "Ann")]
        ++ ("full name", VStr "Ann Lee") :: [("email", VStr "ann@x.org")]))
  = VStr "Ann Lee".
Proof.
  apply (mapHeadersToFields_last_header_wins Cases.aliased
           [("name", VStr "Ann")] [("email", VStr "ann@x.org")]
           "full name" "u_name" (VStr "Ann Lee")).
  - apply (bool_decide_unpack _). vm_compute. exact I.
  - split; [vm_compute; reflexivity | discriminate].
  - intros header' Hin [Hmaps _].
    apply elem_of_cons in Hin as [-> | Hin]; [| by apply elem_of_nil in Hin].
    vm_compute in Hmaps. discriminate Hmaps.
Defined.

Lemma import_stops_at_missing_header_witness :
  let file := Sample.file_of ["Email"] [Sample.ann] in
  let missing :=
    filter (fun r => includes r (_normalize <$> f_headers file) = false)
      (_required Cases.tracked) in
  "name" ∈ missing
  /\ import (R := unit) Cases.tracked file Sample.fresh
     = (Normal
          {| ir_success := false;
             ir_code := STATES.MISSING_REQUIRED_HEADER;
             ir_message := "One or more required headers are missing";
             ir_rows := 0;
             ir_data := DMissing missing |},
        opened Sample.fresh).
Proof.
  apply (import_stops_at_missing_header unit Cases.tracked
           (Sample.file_of ["Email"] [Sample.ann]) Sample.fresh "name").
  - reflexivity.
  - vm_compute. reflexivity.
  - apply (bool_decide_unpack _). vm_compute. exact I.
  - apply (bool_decide_unpack _). vm_compute. exact I.
Defined.

Lemma empty_row_is_skipped_untouched_witness :
  _parseRow (R := unit) Sample.checked (Ok Cases.blank_cells) 2 Sample.fresh
  = (Normal
       {| rr_row := 2;
          rr_code := RCODES.SKIPPED_EMPTY;
          rr_message := VStr "Record skipped because empty";
          rr_target := VNull;
          rr_error := None |},
     Sample.fresh).
Proof.
  apply (empty_row_is_skipped_untouched unit Sample.checked Cases.blank_cells
           2 Sample.fresh).
  intros key Hkey.
  repeat (apply elem_of_cons in Hkey as [-> | Hkey]; [reflexivity |]).
  by apply elem_of_nil in Hkey.
Defined.

Lemma import_gives_one_numbered_result_per_row_witness :
  let file := Sample.file_of Sample.all_headers [Sample.ann; Sample.bob] in
  exists results w',
    import (R := unit) Sample.users file Sample.fresh
    = (Normal
         {| ir_success := true;
            ir_code := STATES.SUCCESS;
            ir_message := "Import completed successfully";
            ir_rows := List.length (f_rows file);
            ir_data := DRows results |},
       closed w')
    /\ rr_row <$> results = seq 2 (List.length (f_rows file)).
Proof.
  apply (import_gives_one_numbered_result_per_row unit Sample.users
           (Sample.file_of Sample.all_headers [Sample.ann; Sample.bob])
           Sample.fresh).
  - reflexivity.
  - right. vm_compute. reflexivity.
  - apply throws_unconfigured; vm_compute; reflexivity.
  - repeat constructor.
Defined.

Lemma callback_registers_any_spelling_witness :
  let f := Sample.returning (VBool true) in
  callback (R := unit) "  ONROWREAD " f Sample.users
  = (Normal tt,
     set_events (<[_normalize "onRowRead" := f]> (_events Sample.users))
       Sample.users)
  /\ forall R' row index sys_id (w : World Table),
       _triggerEvent (R := R')
         (set_events (<[_normalize "onRowRead" := f]> (_events Sample.users))
            Sample.users)
         "onRowRead" row index sys_id w
       = (match fst (f (payload_of row index sys_id) (store w)) with
          | Ok reply =>
              Normal (fst reply, option_map (fun _ => snd reply) row)
          | Raise e => Throw e
          end,
          with_store (snd (f (payload_of row index sys_id) (store w)))
            (logged (EvCallback (_normalize "onRowRead")
                       (payload_of row index sys_id)) w)).
Proof.
  apply (callback_registers_any_spelling unit Sample.users "onRowRead"
           "  ONROWREAD " (Sample.returning (VBool true))).
  - apply (bool_decide_unpack _). vm_compute. exact I.
  - vm_compute. reflexivity.
  - discriminate.
Defined.

Lemma unknown_names_are_rejected_witness :
  (exists e,
     callback (R := unit) "onRowDeleted" (Sample.returning VNull) Sample.users
     = (Throw e, Sample.users))
  /\ (exists e,
        map (R := unit) "Phone" "u_phone" Sample.users
        = (Throw e, Sample.users))
  /\ (exists e,
        coalesce (R := unit) "u_phone" Sample.users = (Throw e, Sample.users)).
Proof.
  destruct (unknown_names_are_rejected unit Sample.users)
    as [Hevent Hfield].
  split; [apply Hevent; vm_compute; reflexivity |].
  destruct (Hfield "u_phone" ltac:(vm_compute; reflexivity))
    as (Hmap & _ & _ & Hcoalesce).
  split; [apply Hmap | exact Hcoalesce].
Defined.

Lemma map_overrides_the_header_witness :
  exists this',
    map (R := unit) "E-Mail" "U_Email" Sample.users = (Normal tt, this')
    /\ _mappings this' !! _normalize "E-Mail" = Some (_normalize "U_Email")
    /\ (forall h, h <> _normalize "E-Mail" ->
          _mappings this' !! h = _mappings Sample.users !! h)
    /\ _mapHeadersToFields this' [(" e-mail ", VStr "ann@x.org")]
       = [(_normalize "U_Email", VStr "ann@x.org")].
Proof.
  apply (map_overrides_the_header unit Sample.users "E-Mail" "U_Email"
           " e-mail " (VStr "ann@x.org")).
  - discriminate.
  - discriminate.
  - vm_compute. reflexivity.
  - vm_compute. discriminate.
  - vm_compute. reflexivity.
Defined.

Lemma ignore_require_keep_lists_apart_witness :
  header_lists_ok (snd (ignore (R := unit) "Phone" Cases.tracked))
  /\ header_lists_ok (snd (require (R := unit) "Phone" Cases.tracked)).
Proof.
  apply (ignore_require_keep_lists_apart unit Cases.tracked "Phone").
  unfold header_lists_ok.
  replace (_ignored Cases.tracked) with ["notes"]
    by (vm_compute; reflexivity).
  replace (_required Cases.tracked) with ["name"]
    by (vm_compute; reflexivity).
  split; [apply (bool_decide_unpack _); vm_compute; exact I |].
  split; [apply (bool_decide_unpack _); vm_compute; exact I |].
  split.
  - intros h Hin Hin'.
    apply elem_of_cons in Hin as [-> | Hin]; [| by apply elem_of_nil in Hin].
    apply elem_of_cons in Hin' as [Hin' | Hin'];
      [discriminate Hin' | by apply elem_of_nil in Hin'].
  - intros h Hin.
    repeat (apply elem_of_cons in Hin as [-> | Hin];
            [vm_compute; reflexivity |]).
    by apply elem_of_nil in Hin.
Defined.

Lemma initialize_maps_labels_to_fields_witness :
  exists this : Importer Table,
    initialize Cases.tables "U_Users" = Ok this
    /\ this
       = set_mappings (_mappings this)
           (blank "U_Users" (_fields Cases.users_columns))
    /\ (forall name label,
          (name, label) ∈ Cases.users_columns ->
          startsWith name "sys_" = false ->
          _mappings this !! _normalize label = Some name)
    /\ (forall header field,
          _mappings this !! header = Some field ->
          field ∈ fst <$> Cases.users_columns
          /\ startsWith field "sys_" = false).
Proof.
  apply (initialize_maps_labels_to_fields Cases.tables "U_Users"
           Cases.users_columns).
  - discriminate.
  - vm_compute. reflexivity.
  - apply (bool_decide_unpack _). vm_compute. exact I.
  - intros name label Hin _.
    repeat (apply elem_of_cons in Hin as [[= -> ->] | Hin];
            [repeat split; try discriminate; vm_compute; reflexivity |]).
    by apply elem_of_nil in Hin.
  - apply (bool_decide_unpack _). vm_compute. exact I.
Defined.

Lemma initialize_rejects_witness :
  (initialize (S := Table) Cases.tables "u_groups"
   = Raise (invalid_parameter
              ("no table with name '" +:+ toLowerCase "u_groups"
               +:+ "' exists in the database")))
  /\ exists e, initialize (S := Table) Cases.tables "u_codes" = Raise e.
Proof.
  destruct (initialize_rejects (S := Table) Cases.tables "u_groups")
    as (_ & Hunknown & _).
  destruct (initialize_rejects (S := Table) Cases.tables "u_codes")
    as (_ & _ & Hlabel).
  split.
  - apply Hunknown; [discriminate | vm_compute; reflexivity].
  - apply (Hlabel Cases.codes_columns "u_code").
    + discriminate.
    + vm_compute. reflexivity.
    + apply (bool_decide_unpack _). vm_compute. exact I.
    + reflexivity.
Defined.


Lemma transform_runs_after_earlier_transforms_witness :
  let f : Transform Table := reading_transform STRING_TO_EXCEL_NUMBER in
  exists this',
    transform (R := unit) "U_Active" f Sample.typed = (Normal tt, this')
    /\ (forall other, other <> _normalize "U_Active" ->
          _transforms this' !! other = _transforms Sample.typed !! other)
    /\ forall (value : Value) (w : World Table),
         exists w',
           _transformRowValues (R := unit) this'
             [(_normalize "U_Active", value)] w
           = (match run_transforms
                      (default []
                         (_transforms Sample.typed !! _normalize "U_Active"))
                      value (store w) with
              | (Ok value', s') =>
                  match fst (f value' s') with
                  | Ok value'' => Normal [(_normalize "U_Active", value'')]
                  | Raise e => Throw e
                  end
              | (Raise e, _) => Throw e
              end, w')
           /\ store w'
              = match run_transforms
                        (default []
                           (_transforms Sample.typed
                            !! _normalize "U_Active"))
                        value (store w) with
                | (Ok value', s') => snd (f value' s')
                | (Raise _, s') => s'
                end.
Proof.
  intros f.
  apply (transform_runs_after_earlier_transforms unit Sample.typed
           "U_Active" f).
  - discriminate.
  - vm_compute. reflexivity.
Defined.


Lemma first_accepted_candidate_is_updated_witness :
  exists w1 calls,
    store w1 = store Cases.registered
    /\ stream_open w1 = stream_open Cases.registered
    /\ log w1
       = calls ++ EvQuery (coalescence_query Cases.keyed Cases.renamed)
                  :: log Cases.registered
    /\ Forall (fun ev =>
                 exists data,
                   ev = EvCallback (_normalize "onCoalesce") data) calls
    /\ _createUpdateRecord (R := unit) Cases.keyed Cases.renamed
         Cases.registered
       = match filter
                 (fun sys_id =>
                    accepted Cases.keyed (store Cases.registered) sys_id
                    = true)
                 (gr_query (coalescence_query Cases.keyed Cases.renamed)
                    (store Cases.registered)) with
         | sys_id :: _ =>
             if decide (sys_id = "") then record_insert Cases.renamed w1
             else record_update sys_id Cases.renamed w1
         | [] => record_insert Cases.renamed w1
         end.
Proof.
  destruct (first_accepted_candidate_is_updated unit Cases.keyed
              Cases.renamed Cases.registered) as [_ Hfields].
  apply Hfields.
  - vm_compute. discriminate.
  - intros f sys_id Hf _. vm_compute in Hf. injection Hf as <-.
    by eexists.
Defined.

Lemma virtual_import_never_writes_witness :
  let file :=
    Sample.file_of Sample.all_headers [Sample.ann; Sample.no_email] in
  let run := import (R := unit) Cases.rehearsal file Sample.fresh in
  writes (log (snd run)) = writes (log Sample.fresh)
  /\ (keeps eq Cases.rehearsal -> store (snd run) = store Sample.fresh)
  /\ (forall result, fst run = Normal result ->
      forall row_result, row_result ∈ row_results result ->
        rr_target row_result = VNull
        \/ rr_code row_result = RCODES.SKIPPED_VALIDATION)
  /\ (throws (fun t => serialisable t = true) Cases.rehearsal ->
      readable (f_rows file) ->
      exists result, fst run = Normal result).
Proof.
  apply (virtual_import_never_writes unit Cases.rehearsal
           (Sample.file_of Sample.all_headers [Sample.ann; Sample.no_email])
           Sample.fresh).
  vm_compute. reflexivity.
Defined.

Lemma sloppy_mode_consults_no_validation_witness :
  let file :=
    Sample.file_of ["Name"; "Email"] [Sample.ann; Sample.no_email] in
  import (R := unit) Cases.hasty_checked file Sample.fresh
  = import Cases.hasty file Sample.fresh.
Proof.
  apply (sloppy_mode_consults_no_validation unit Cases.hasty
           Cases.hasty_checked
           (Sample.file_of ["Name"; "Email"] [Sample.ann; Sample.no_email])
           Sample.fresh).
  - vm_compute. reflexivity.
  - repeat split; try (vm_compute; reflexivity).
    intros event Hevent.
    replace (_events Cases.hasty)
      with (∅ : gmap string (Callback Table)) by (vm_compute; reflexivity).
    replace (_events Cases.hasty_checked)
      with (<[_normalize "onRowValidating" := Sample.returning (VBool false)]>
              (∅ : gmap string (Callback Table)))
      by (vm_compute; reflexivity).
    apply lookup_insert_ne. intros <-. apply Hevent. left.
Defined.

Lemma accepted_booleans_convert_witness :
  exists s,
    obj_get "u_active" [("u_active", VStr "Yes")] = VStr s
    /\ STRING_TO_BOOLEAN (VStr s)
       = Ok (VBool (includes (toUpperCase s) ["YES"; "Y"; "TRUE"; "1"])).
Proof.
  apply (accepted_booleans_convert [("u_active", VStr "Yes")] "u_active" tt).
  vm_compute. reflexivity.
Defined.

Lemma excel_number_keeps_the_last_separator_witness :
  STRING_TO_EXCEL_NUMBER (VStr " 1.234.567.89 ") = Ok (VStr "1234567,89").
Proof.
  destruct (excel_number_keeps_the_last_separator " 1.234.567.89 "
              (list_ascii_of_string "1.234.567") (list_ascii_of_string "89"))
    as [Hresult _].
  - vm_compute. reflexivity.
  - apply (bool_decide_unpack _). vm_compute. exact I.
  - rewrite Hresult. vm_compute. reflexivity.
Defined.
